(** * heredity.py: exact inference over a family's gene/trait network

    A shallow embedding of [src/heredity.py] and the properties of its
    inference engine.

    Modelling choices, all visible in the definitions below:
    - Python floats are modelled by exact rationals [Q]; [==] is equality of
      rationals, [=] is equality of the fraction as the code computed it.
      What is proved about numbers is proved in this exact arithmetic. The
      rounding of the source's binary64 arithmetic is modelled apart, in the
      module [Binary64], which gives the digits that the program returns.
    - Python sets of names are [gset string]; dictionaries are association
      lists in insertion order (a dictionary has no duplicate keys).
    - A Python exception is a value of [exn]; every function lives in the
      monad [py], which also records the calls that the properties speak
      about ([call]). *)

From Stdlib Require Import QArith Qabs Floats.
From stdpp Require Import gmap strings list sorting.

#[local] Set Warnings "-clear-no-such-hyp,-inexact-float".

Local Open Scope string_scope.
Local Open Scope list_scope.
Local Open Scope Q_scope.

(** ** Exceptions, call log and the [py] monad *)

(** The exceptions the modelled code can raise. As in Python,
    [ZeroDivisionError] carries no information about the operands. *)
Inductive exn : Type :=
| KeyError
| TypeError
| ZeroDivisionError.

(** The calls that are logged when they are entered. *)
Inductive call : Type :=
| call_joint_probability (one_gene two_genes have_trait : gset string)
| call_get_unknown_parent_gene_probability (child_has_gene : bool)
| call_update (one_gene two_genes have_trait : gset string) (p : Q).

Definition is_call_get_unknown_parent_gene_probability (c : call) : bool :=
  match c with call_get_unknown_parent_gene_probability _ => true | _ => false end.

(** A computation: the calls made so far, and an exception or a value. *)
Definition py (A : Type) : Type := (list call * (exn + A))%type.

Definition ret {A} (a : A) : py A := ([], inr a).
Definition raise {A} (e : exn) : py A := ([], inl e).
Definition called (c : call) : py unit := ([c], inr tt).

Definition bind {A B} (m : py A) (f : A -> py B) : py B :=
  match m with
  | (l, inl e) => (l, inl e)
  | (l, inr a) => let '(l', r) := f a in (l ++ l', r)
  end.

Notation "x <- m ;; k" := (bind m (fun x => k))
  (at level 100, m at next level, right associativity).
Notation "m ;;; k" := (bind m (fun _ => k))
  (at level 100, right associativity).

Definition calls {A} (m : py A) : list call := fst m.
Definition outcome {A} (m : py A) : exn + A := snd m.

(** A [for] loop that threads the loop-carried state [s]. *)
Fixpoint for_each {A S} (l : list A) (body : S -> A -> py S) (s : S) : py S :=
  match l with
  | [] => ret s
  | x :: l' => s' <- body s x ;; for_each l' body s'
  end.

(** [any(f(x) for x in l)]: stops at the first true element. *)
Fixpoint any {A} (f : A -> py bool) (l : list A) : py bool :=
  match l with
  | [] => ret false
  | x :: l' => b <- f x ;; if b then ret true else any f l'
  end.

(** ** Dictionaries *)

Definition dict (K V : Type) : Type := list (K * V).

Section Dict.
Context {K : Type} `{EqDecision K} {V : Type}.

(** [d[k]] *)
Fixpoint dict_get (d : dict K V) (k : K) : py V :=
  match d with
  | [] => raise KeyError
  | (k', v) :: d' => if decide (k = k') then ret v else dict_get d' k
  end.

(** [d[k] = v]: an existing key keeps its position, a new one is appended. *)
Fixpoint dict_set (k : K) (v : V) (d : dict K V) : dict K V :=
  match d with
  | [] => [(k, v)]
  | (k', v') :: d' =>
      if decide (k = k') then (k', v) :: d' else (k', v') :: dict_set k v d'
  end.

(** [d[k] = f(d[k])], as done by [d[k] += p] and by the mutation of a
    nested dictionary reached through [d[k]]. *)
Fixpoint dict_modify (f : V -> py V) (k : K) (d : dict K V) : py (dict K V) :=
  match d with
  | [] => raise KeyError
  | (k', v) :: d' =>
      if decide (k = k') then v' <- f v ;; ret ((k', v') :: d')
      else d'' <- dict_modify f k d' ;; ret ((k', v) :: d'')
  end.

Definition keys (d : dict K V) : list K := map fst d.
Definition values (d : dict K V) : list V := map snd d.
End Dict.

(** ** The probability tables *)

(** [PROBS["gene"]] *)
Definition PROBS_gene : dict nat Q :=
  [ (2%nat, 0.01); (1%nat, 0.03); (0%nat, 0.96) ].

(** [PROBS["trait"]] *)
Definition PROBS_trait : dict nat (dict bool Q) :=
  [ (2%nat, [ (true, 0.65); (false, 0.35) ]);
    (1%nat, [ (true, 0.56); (false, 0.44) ]);
    (0%nat, [ (true, 0.01); (false, 0.99) ]) ].

(** [PROBS["mutation"]] *)
Definition PROBS_mutation : Q := 0.01.

(** ** The family *)

Record person : Type := Person {
  p_name : string;
  p_mother : option string;
  p_father : option string;
  p_trait : option bool
}.

(** [row[c] or None] *)
Definition or_None (cell : string) : option string :=
  if decide (cell = "") then None else Some cell.

(** The body of the loop of [load_data], for one row that
    [csv.DictReader] yields: a dictionary from column name to cell text. *)
Definition load_data_body (data : dict string person) (row : dict string string)
    : py (dict string person) :=
  name <- dict_get row "name" ;;
  mother <- dict_get row "mother" ;;
  father <- dict_get row "father" ;;
  trait1 <- dict_get row "trait" ;;
  trait <- (if decide (trait1 = "1") then ret (Some true)
            else trait0 <- dict_get row "trait" ;;
                 ret (if decide (trait0 = "0") then Some false else None)) ;;
  ret (dict_set name
         {| p_name := name;
            p_mother := or_None mother;
            p_father := or_None father;
            p_trait := trait |} data).

(** [load_data], from the rows of the file. *)
Definition load_data (reader : list (dict string string)) : py (dict string person) :=
  for_each reader load_data_body [].

(** ** Subsets *)

(** [itertools.combinations(s, r)], in the order Python yields them. *)
Fixpoint combinations {A} (s : list A) (r : nat) : list (list A) :=
  match r, s with
  | O, _ => [[]]
  | S _, [] => []
  | S r', x :: s' => map (cons x) (combinations s' r') ++ combinations s' r
  end.

(** [powerset(s)] *)
Definition powerset (s : gset string) : list (gset string) :=
  let s := elements s in
  map list_to_set (flat_map (combinations s) (seq 0 (length s + 1))).

(** ** Gene transmission *)

(** [2 if x in two_genes else 1 if x in one_gene else 0]; [x] may be [None]
    (an unrecorded parent), which is a member of no set of names. *)
Definition gene_count (x : option string) (one_gene two_genes : gset string) : nat :=
  match x with
  | Some n => if decide (n ∈ two_genes) then 2 else if decide (n ∈ one_gene) then 1 else 0
  | None => 0
  end%nat.

(** [get_unknown_parent_gene_probability] *)
Definition get_unknown_parent_gene_probability (child_has_gene : bool) : py Q :=
  called (call_get_unknown_parent_gene_probability child_has_gene) ;;;
  if child_has_gene then
    gene0 <- dict_get PROBS_gene 0%nat ;;
    let gene_prob := gene0 * PROBS_mutation in
    gene1 <- dict_get PROBS_gene 1%nat ;;
    let gene_prob := gene_prob + gene1 * (0.5 * (1 - PROBS_mutation) + 0.5 * PROBS_mutation) in
    gene2 <- dict_get PROBS_gene 2%nat ;;
    let gene_prob := gene_prob + gene2 * (1 - PROBS_mutation) in
    ret gene_prob
  else
    gene0 <- dict_get PROBS_gene 0%nat ;;
    let gene_prob := gene0 * (1 - PROBS_mutation) in
    gene1 <- dict_get PROBS_gene 1%nat ;;
    let gene_prob := gene_prob + gene1 * (0.5 * (1 - PROBS_mutation) + 0.5 * PROBS_mutation) in
    gene2 <- dict_get PROBS_gene 2%nat ;;
    let gene_prob := gene_prob + gene2 * PROBS_mutation in
    ret gene_prob.

(** [get_parent_gene_probability]. The result is [None] where the Python
    function falls off its [if]/[elif] chain and so returns [None]. *)
Definition get_parent_gene_probability
    (child_has_gene : bool) (parent : option string) (parent_genes : nat) : py (option Q) :=
  match parent with
  | Some _ =>
      if child_has_gene then
        match parent_genes with
        | 0%nat => ret (Some PROBS_mutation)
        | 1%nat => ret (Some (0.5 * (1 - PROBS_mutation) + 0.5 * PROBS_mutation))
        | 2%nat => ret (Some (1 - PROBS_mutation))
        | _ => ret None
        end
      else
        match parent_genes with
        | 0%nat => ret (Some (1 - PROBS_mutation))
        | 1%nat => ret (Some (0.5 * (1 - PROBS_mutation) + 0.5 * PROBS_mutation))
        | 2%nat => ret (Some PROBS_mutation)
        | _ => ret None
        end
  | None =>
      gene_prob <- get_unknown_parent_gene_probability child_has_gene ;;
      ret (Some gene_prob)
  end.

(** [a * b] on the results of [get_parent_gene_probability]; multiplying
    [None] raises [TypeError]. *)
Definition py_mul (a b : option Q) : py Q :=
  match a, b with
  | Some x, Some y => ret (x * y)
  | _, _ => raise TypeError
  end.

(** ** The joint probability of one assignment *)

(** The body of the loop of [joint_probability], for one item
    [(person, family)] of [people.items()] and the running [joint_p]. *)
Definition joint_probability_body (one_gene two_genes have_trait : gset string)
    (joint_p : Q) (item : string * person) : py Q :=
  let '(person, family) := item in
  let mother := p_mother family in
  let father := p_father family in
  let gene := gene_count (Some person) one_gene two_genes in
  let trait := bool_decide (person ∈ have_trait) in
  trait_prob <- (by_gene <- dict_get PROBS_trait gene ;; dict_get by_gene trait) ;;
  gene_prob <-
    match mother, father with
    | None, None => dict_get PROBS_gene gene
    | _, _ =>
        let mother_genes := gene_count mother one_gene two_genes in
        let father_genes := gene_count father one_gene two_genes in
        match gene with
        | 0%nat =>
            gene_prob_mother <- get_parent_gene_probability false mother mother_genes ;;
            gene_prob_father <- get_parent_gene_probability false father father_genes ;;
            py_mul gene_prob_mother gene_prob_father
        | 1%nat =>
            m1 <- get_parent_gene_probability true mother mother_genes ;;
            f0 <- get_parent_gene_probability false father father_genes ;;
            gene_prob_mother <- py_mul m1 f0 ;;
            m0 <- get_parent_gene_probability false mother mother_genes ;;
            f1 <- get_parent_gene_probability true father father_genes ;;
            gene_prob_father <- py_mul m0 f1 ;;
            ret (gene_prob_mother + gene_prob_father)
        | 2%nat =>
            gene_prob_mother <- get_parent_gene_probability true mother mother_genes ;;
            gene_prob_father <- get_parent_gene_probability true father father_genes ;;
            py_mul gene_prob_mother gene_prob_father
        | _ => ret 0
        end
    end ;;
  ret (joint_p * (gene_prob * trait_prob)).

(** [joint_probability] *)
Definition joint_probability (people : dict string person)
    (one_gene two_genes have_trait : gset string) : py Q :=
  called (call_joint_probability one_gene two_genes have_trait) ;;;
  for_each people (joint_probability_body one_gene two_genes have_trait) 1.

(** ** Accumulation and normalisation *)

(** [probabilities[person]]: the two histograms of one individual. *)
Record features : Type := Features {
  f_gene : dict nat Q;
  f_trait : dict bool Q
}.

(** The body of the loop of [update], for one [person]. *)
Definition update_body (one_gene two_genes have_trait : gset string) (p : Q)
    (probabilities : dict string features) (person : string) : py (dict string features) :=
  let gene := gene_count (Some person) one_gene two_genes in
  let trait := bool_decide (person ∈ have_trait) in
  dict_modify (fun fs =>
    by_gene <- dict_modify (fun v => ret (v + p)) gene (f_gene fs) ;;
    by_trait <- dict_modify (fun v => ret (v + p)) trait (f_trait fs) ;;
    ret {| f_gene := by_gene; f_trait := by_trait |}) person probabilities.

(** [update] *)
Definition update (probabilities : dict string features)
    (one_gene two_genes have_trait : gset string) (p : Q) : py (dict string features) :=
  called (call_update one_gene two_genes have_trait p) ;;;
  for_each (keys probabilities) (update_body one_gene two_genes have_trait p) probabilities.

(** [sum(values)]: Python starts from [0] and adds from the left. *)
Definition sum (values : list Q) : Q := fold_left Qplus values 0.

(** [value / s] *)
Definition py_div (value s : Q) : py Q :=
  if Qeq_bool s 0 then raise ZeroDivisionError else ret (value / s).

(** The two inner lines of [normalize], for one histogram. Assigning to an
    existing key keeps the key in place, so the loop rewrites the items of
    the histogram in order. *)
Fixpoint normalize_items {K} (s : Q) (items : dict K Q) : py (dict K Q) :=
  match items with
  | [] => ret []
  | (key, value) :: items' =>
      value' <- py_div value s ;;
      rest <- normalize_items s items' ;;
      ret ((key, value') :: rest)
  end.

Definition normalize_distribution {K} (distribution : dict K Q) : py (dict K Q) :=
  let s := sum (values distribution) in
  normalize_items s distribution.

(** [normalize]: persons in order, for each the features ["gene"] then
    ["trait"]. *)
Fixpoint normalize (probabilities : dict string features) : py (dict string features) :=
  match probabilities with
  | [] => ret []
  | (person, fs) :: probabilities' =>
      by_gene <- normalize_distribution (f_gene fs) ;;
      by_trait <- normalize_distribution (f_trait fs) ;;
      rest <- normalize probabilities' ;;
      ret ((person, {| f_gene := by_gene; f_trait := by_trait |}) :: rest)
  end.

(** ** The enumeration *)

(** The generator inside [any] in [main], for one [person]. *)
Definition contradicts (people : dict string person) (have_trait : gset string)
    (person : string) : py bool :=
  family <- dict_get people person ;;
  match p_trait family with
  | None => ret false
  | Some _ =>
      family' <- dict_get people person ;;
      ret (bool_decide (p_trait family' ≠ Some (bool_decide (person ∈ have_trait))))
  end.

(** The histograms [main] starts from. *)
Definition initial_features : features :=
  {| f_gene := [ (2%nat, 0); (1%nat, 0); (0%nat, 0) ];
     f_trait := [ (true, 0); (false, 0) ] |}.

(** The three nested loops of [main]. *)
Definition enumerate (people : dict string person)
    (probabilities : dict string features) : py (dict string features) :=
  let names : gset string := list_to_set (keys people) in
  for_each (powerset names) (fun probabilities have_trait =>
    fails_evidence <- any (contradicts people have_trait) (elements names) ;;
    if fails_evidence then ret probabilities
    else
      for_each (powerset names) (fun probabilities one_gene =>
        for_each (powerset (names ∖ one_gene)) (fun probabilities two_genes =>
          p <- joint_probability people one_gene two_genes have_trait ;;
          update probabilities one_gene two_genes have_trait p)
          probabilities)
        probabilities)
    probabilities.

(** [main], from the loaded [people] to the table that is then printed. *)
Definition main (people : dict string person) : py (dict string features) :=
  let probabilities := map (fun person => (person, initial_features)) (keys people) in
  probabilities <- enumerate people probabilities ;;
  normalize probabilities.

(** ** The model of the specification

    The terms of the product that the specification gives for the joint
    probability, written from its words. *)

Definition product (l : list Q) : Q := fold_right Qmult 1 l.

Definition genePrior (g : nat) : Q :=
  match g with 0%nat => 0.96 | 1%nat => 0.03 | 2%nat => 0.01 | _ => 0 end.

Definition traitLikelihood (g : nat) (t : bool) : Q :=
  match g, t with
  | 0%nat, true => 0.01 | 0%nat, false => 0.99
  | 1%nat, true => 0.56 | 1%nat, false => 0.44
  | 2%nat, true => 0.65 | 2%nat, false => 0.35
  | _, _ => 0
  end.

Definition transmissionProbability (parentGeneCount : nat) : Q :=
  match parentGeneCount with
  | 0%nat => PROBS_mutation
  | 1%nat => 0.5 * (1 - PROBS_mutation) + 0.5 * PROBS_mutation
  | 2%nat => 1 - PROBS_mutation
  | _ => 0
  end.

Definition childGeneDistribution (motherGeneCount fatherGeneCount thisCount : nat) : Q :=
  let tm := transmissionProbability motherGeneCount in
  let tf := transmissionProbability fatherGeneCount in
  match thisCount with
  | 0%nat => (1 - tm) * (1 - tf)
  | 1%nat => tm * (1 - tf) + (1 - tm) * tf
  | 2%nat => tm * tf
  | _ => 0
  end.

(** The factor of one individual in the specification's product. *)
Definition individual_term (one_gene two_genes have_trait : gset string)
    (entry : string * person) : Q :=
  let '(person, family) := entry in
  let g := gene_count (Some person) one_gene two_genes in
  let t := bool_decide (person ∈ have_trait) in
  (match p_mother family, p_father family with
   | None, None => genePrior g
   | mother, father =>
       childGeneDistribution (gene_count mother one_gene two_genes)
                             (gene_count father one_gene two_genes) g
   end) * traitLikelihood g t.

(** Both parents recorded, or neither. *)
Definition both_or_neither (family : person) : Prop :=
  p_mother family = None <-> p_father family = None.

Definition valid_parentage (people : dict string person) : Prop :=
  Forall (fun entry => both_or_neither (snd entry)) people.

(** A log of calls of [get_unknown_parent_gene_probability] only. *)
Definition only_unknown_parent_calls (l : list call) : Prop :=
  Forall (fun c => is_call_get_unknown_parent_gene_probability c = true) l.

(** Every individual is a founder without trait evidence. *)
Definition founders_without_evidence (people : dict string person) : Prop :=
  Forall (fun entry => p_mother (snd entry) = None /\ p_father (snd entry) = None
                       /\ p_trait (snd entry) = None) people.


(** ** Notions used to state the properties of the enumeration *)

(** The subsets of the set of a list, following the list. *)
Fixpoint subsets (l : list string) : list (gset string) :=
  match l with
  | [] => [∅]
  | x :: l' => subsets l' ++ map (fun X => {[x]} ∪ X) (subsets l')
  end.

(** The names of the individuals, [set(people)]. *)
Definition names_of (people : dict string person) : gset string :=
  list_to_set (keys people).

(** [people[person]["trait"]], where [person] is recorded. *)
Definition evidence (people : dict string person) (person : string) : option bool :=
  match outcome (dict_get people person) with
  | inr family => p_trait family
  | inl _ => None
  end.

(** A candidate [have_trait] agrees with all the recorded trait evidence. *)
Definition respects_evidence (people : dict string person) (have_trait : gset string) : Prop :=
  forall person,
    (evidence people person = Some true -> person ∈ have_trait)
    /\ (evidence people person = Some false -> person ∉ have_trait).

(** The value of [fails_evidence] in [main]. *)
Definition evidence_fails (people : dict string person) (have_trait : gset string) : bool :=
  existsb (fun person =>
             match evidence people person with
             | Some t => bool_decide (Some t ≠ Some (bool_decide (person ∈ have_trait)))
             | None => false
             end)
          (elements (names_of people)).

(** The number that [joint_probability] returns. *)
Definition joint_value (people : dict string person)
    (one_gene two_genes have_trait : gset string) : Q :=
  match outcome (joint_probability people one_gene two_genes have_trait) with
  | inr q => q
  | inl _ => 0
  end.

(** The assignments that a log shows [joint_probability] was called with,
    in the order of the calls. *)
Definition assignments_evaluated (l : list call)
    : list (gset string * gset string * gset string) :=
  flat_map (fun c => match c with
                     | call_joint_probability one_gene two_genes have_trait =>
                         [(one_gene, two_genes, have_trait)]
                     | _ => []
                     end) l.

(** The assignments that a log shows [update] was called with, each with
    the probability [p] to add, in the order of the calls. *)
Definition assignments_accumulated (l : list call)
    : list (gset string * gset string * gset string * Q) :=
  flat_map (fun c => match c with
                     | call_update one_gene two_genes have_trait p =>
                         [(one_gene, two_genes, have_trait, p)]
                     | _ => []
                     end) l.

(** The log of the three loops of [main]. *)
Definition enumerate_calls (people : dict string person) : list call :=
  let names := names_of people in
  flat_map (fun have_trait =>
    if evidence_fails people have_trait then []
    else flat_map (fun one_gene =>
           flat_map (fun two_genes =>
             calls (joint_probability people one_gene two_genes have_trait)
             ++ [call_update one_gene two_genes have_trait
                   (joint_value people one_gene two_genes have_trait)])
             (powerset (names ∖ one_gene)))
           (powerset names))
    (powerset names).

(** Every histogram of the table has the keys [main] gave it. *)
Definition well_shaped (probabilities : dict string features) : Prop :=
  Forall (fun entry => keys (f_gene (snd entry)) = [2; 1; 0]%nat
                       /\ keys (f_trait (snd entry)) = [true; false]) probabilities.

(** ** Notions used to state the properties of the tables *)

(** The sum of [f x] over the items [x] of a list. *)
Definition sum_over {A} (f : A -> Q) (l : list A) : Q :=
  fold_right (fun x acc => f x + acc) 0 l.

(** The product of [f x] over the items [x] of a list. *)
Definition prod_over {A} (f : A -> Q) (l : list A) : Q :=
  fold_right (fun x acc => f x * acc) 1 l.

(** The buckets of the two histograms of an individual. *)
Inductive bucket_id : Type :=
| gene_bucket (g : nat)
| trait_bucket (t : bool).

(** [d[k]], or 0 where [k] is not a key. *)
Definition bucket {K} `{EqDecision K} (d : dict K Q) (k : K) : Q :=
  match outcome (dict_get d k) with
  | inr v => v
  | inl _ => 0
  end.

(** The mass that a table holds in one bucket of one individual. *)
Definition mass (probabilities : dict string features) (person : string)
    (b : bucket_id) : Q :=
  match outcome (dict_get probabilities person) with
  | inr fs =>
      match b with
      | gene_bucket g => bucket (f_gene fs) g
      | trait_bucket t => bucket (f_trait fs) t
      end
  | inl _ => 0
  end.

(** A gene count and a trait value fall in a bucket. *)
Definition in_bucket (b : bucket_id) (g : nat) (t : bool) : bool :=
  match b with
  | gene_bucket g' => bool_decide (g = g')
  | trait_bucket t' => bool_decide (t = t')
  end.

(** An assignment puts an individual in a bucket. *)
Definition hits (one_gene two_genes have_trait : gset string) (person : string)
    (b : bucket_id) : bool :=
  in_bucket b (gene_count (Some person) one_gene two_genes)
              (bool_decide (person ∈ have_trait)).

(** The probability that a founder has a gene count and a trait value. *)
Definition founder_weight (g : nat) (t : bool) : Q :=
  genePrior g * traitLikelihood g t.

(** The weight of the founder [k] restricted to the bucket [b], the plain
    weight of any other founder. *)
Definition restricted_weight (k : string) (b : bucket_id) (i : string) (g : nat) (t : bool) : Q :=
  if decide (i = k) then (if in_bucket b g t then founder_weight g t else 0)
  else founder_weight g t.

(** The probability that a founder falls in a bucket. *)
Definition founder_marginal (b : bucket_id) : Q :=
  sum_over (fun t =>
    sum_over (fun g => if in_bucket b g t then founder_weight g t else 0)
             [0; 2; 1]%nat)
    [false; true].

(** A histogram with every bucket divided by [s]. *)
Definition scaled {K} (s : Q) (d : dict K Q) : dict K Q :=
  map (fun item => (fst item, snd item / s)) d.

(** [new] is [old] with every bucket divided by the sum of [old]; it sums
    to 1, and its buckets are in the proportions of those of [old]. *)
Definition normalized_from {K} (old new : dict K Q) : Prop :=
  new = scaled (sum (values old)) old
  /\ sum (values new) == 1
  /\ Qabs (sum (values new) - 1) <= 0.000000001
  /\ forall i j k1 v1 k2 v2 k1' v1' k2' v2',
       old !! i = Some (k1, v1) -> old !! j = Some (k2, v2) ->
       new !! i = Some (k1', v1') -> new !! j = Some (k2', v2') ->
       k1' = k1 /\ k2' = k2 /\ v1' * v2 == v2' * v1.

(** The sum of a histogram is not zero. *)
Definition nonzero_sum {K} (d : dict K Q) : Prop := ~ sum (values d) == 0.

(** A histogram with at least one bucket whose sum is zero. *)
Definition zero_sum {K} (d : dict K Q) : Prop := d <> [] /\ sum (values d) == 0.

(** The text of a cell of a row ([""] where the column is missing). *)
Definition cell (row : dict string string) (column : string) : string :=
  match outcome (dict_get row column) with
  | inr text => text
  | inl _ => ""
  end.

(** A row has the four columns that [load_data] reads. *)
Definition has_columns (row : dict string string) : Prop :=
  Forall (fun column => column ∈ keys row) ["name"; "mother"; "father"; "trait"].

(** The record that [load_data] stores for a row. *)
Definition person_of_row (row : dict string string) : person :=
  {| p_name := cell row "name";
     p_mother := or_None (cell row "mother");
     p_father := or_None (cell row "father");
     p_trait := if decide (cell row "trait" = "1") then Some true
                else if decide (cell row "trait" = "0") then Some false
                else None |}.

(** ** Notions used to state the properties of the result of [main] *)

(** The mass that the three loops of [main] add to the bucket [b] of the
    individual [k]: the sum of the joint probabilities of the enumerated
    assignments that put [k] in [b]. *)
Definition accumulated (people : dict string person) (k : string) (b : bucket_id) : Q :=
  sum_over (fun have_trait =>
    if evidence_fails people have_trait then 0
    else sum_over (fun one_gene =>
           sum_over (fun two_genes =>
             if hits one_gene two_genes have_trait k b
             then joint_value people one_gene two_genes have_trait else 0)
             (powerset (names_of people ∖ one_gene)))
           (powerset (names_of people)))
    (powerset (names_of people)).

(** The candidate subsets that pass the evidence filter of [main], in
    the order of the loop. *)
Definition surviving_trait_subsets (people : dict string person) : list (gset string) :=
  List.filter (fun have_trait => negb (evidence_fails people have_trait))
              (powerset (names_of people)).

(** The individuals whose trait is not recorded. *)
Definition without_evidence (people : dict string person) : list string :=
  List.filter (fun person => match evidence people person with
                             | None => true
                             | Some _ => false
                             end)
              (elements (names_of people)).

(** The individuals whose trait is recorded as present. *)
Definition known_to_have_trait (people : dict string person) : gset string :=
  list_to_set (filter (fun person => evidence people person = Some true) (keys people)).

(** Two histograms with the same keys and equal numbers. *)
Definition same_histogram {K} (d1 d2 : dict K Q) : Prop :=
  Forall2 (fun item1 item2 => fst item1 = fst item2 /\ snd item1 == snd item2) d1 d2.

(** The total mass of the assignments that the three loops of [main]
    enumerate: the probability of the recorded evidence. *)
Definition evidence_mass (people : dict string person) : Q :=
  sum_over (fun have_trait =>
    if evidence_fails people have_trait then 0
    else sum_over (fun one_gene =>
           sum_over (fun two_genes => joint_value people one_gene two_genes have_trait)
             (powerset (names_of people ∖ one_gene)))
           (powerset (names_of people)))
    (powerset (names_of people)).

(** The names of a list in the order in which they occur first, leaving
    out those in [seen]. *)
Fixpoint first_occurrences (seen : gset string) (l : list string) : list string :=
  match l with
  | [] => []
  | x :: l' =>
      if decide (x ∈ seen) then first_occurrences seen l'
      else x :: first_occurrences ({[x]} ∪ seen) l'
  end.

(** The probability that a parent of whom nothing is recorded transmits
    the gene: a parent whose gene count follows the prior. *)
Definition unknown_transmission : Q :=
  genePrior 0 * transmissionProbability 0
  + genePrior 1 * transmissionProbability 1
  + genePrior 2 * transmissionProbability 2.

(** The probability that a parent, recorded or not, transmits the gene. *)
Definition parent_transmission (parent : option string)
    (one_gene two_genes : gset string) : Q :=
  match parent with
  | Some _ => transmissionProbability (gene_count parent one_gene two_genes)
  | None => unknown_transmission
  end.

(** The factor of one individual in the joint probability, whatever
    parents are recorded. *)
Definition any_family_term (one_gene two_genes have_trait : gset string)
    (entry : string * person) : Q :=
  let '(person, family) := entry in
  let g := gene_count (Some person) one_gene two_genes in
  let t := bool_decide (person ∈ have_trait) in
  (match p_mother family, p_father family with
   | None, None => genePrior g
   | mother, father =>
       let tm := parent_transmission mother one_gene two_genes in
       let tf := parent_transmission father one_gene two_genes in
       match g with
       | 0%nat => (1 - tm) * (1 - tf)
       | 1%nat => tm * (1 - tf) + (1 - tm) * tf
       | 2%nat => tm * tf
       | _ => 0
       end
   end) * traitLikelihood g t.

(** ** Notions used to state the symmetries of [joint_probability] *)

(** The record of an individual with mother and father exchanged. *)
Definition swap_parents (family : person) : person :=
  {| p_name := p_name family;
     p_mother := p_father family;
     p_father := p_mother family;
     p_trait := p_trait family |}.

(** A dataset with the parents of every individual exchanged. *)
Definition swap_all_parents (people : dict string person) : dict string person :=
  map (fun item => (fst item, swap_parents (snd item))) people.

(** ** The arithmetic of the source: binary64

    A Python [float] is an IEEE 754 binary64 number, and each [+], [*] and
    [/] of the source rounds its result to the nearest such number. The
    definitions above compute in exact rationals, which is the arithmetic
    the properties about formulas are stated in. The module below is the
    numeric part of the same code over Rocq's primitive floats, which are
    binary64 numbers with the same rounding: it tells what the program returns
    to the last digit. A literal such as [0.01] is, in Python as here, the
    binary64 number nearest to it. The calls are not logged in this module.

    Rounded sums depend on the order of the terms. [joint_probability]
    follows the order of the dictionary. [main] follows the order in which
    [powerset] lists the subsets, which for two names or more depends on the
    order in which Python iterates a set of strings, and that order can change
    from one run to the next; the model takes the order of [elements]. With
    one name the order is forced: the empty set, then the singleton. *)
Module Binary64.
Local Open Scope float_scope.

(** [PROBS["gene"]] *)
Definition PROBS_gene : dict nat float :=
  [ (2%nat, 0.01); (1%nat, 0.03); (0%nat, 0.96) ].

(** [PROBS["trait"]] *)
Definition PROBS_trait : dict nat (dict bool float) :=
  [ (2%nat, [ (true, 0.65); (false, 0.35) ]);
    (1%nat, [ (true, 0.56); (false, 0.44) ]);
    (0%nat, [ (true, 0.01); (false, 0.99) ]) ].

(** [PROBS["mutation"]] *)
Definition PROBS_mutation : float := 0.01.

(** [get_unknown_parent_gene_probability] *)
Definition get_unknown_parent_gene_probability (child_has_gene : bool) : py float :=
  if child_has_gene then
    gene0 <- dict_get PROBS_gene 0%nat ;;
    let gene_prob := gene0 * PROBS_mutation in
    gene1 <- dict_get PROBS_gene 1%nat ;;
    let gene_prob := gene_prob + gene1 * (0.5 * (1 - PROBS_mutation) + 0.5 * PROBS_mutation) in
    gene2 <- dict_get PROBS_gene 2%nat ;;
    let gene_prob := gene_prob + gene2 * (1 - PROBS_mutation) in
    ret gene_prob
  else
    gene0 <- dict_get PROBS_gene 0%nat ;;
    let gene_prob := gene0 * (1 - PROBS_mutation) in
    gene1 <- dict_get PROBS_gene 1%nat ;;
    let gene_prob := gene_prob + gene1 * (0.5 * (1 - PROBS_mutation) + 0.5 * PROBS_mutation) in
    gene2 <- dict_get PROBS_gene 2%nat ;;
    let gene_prob := gene_prob + gene2 * PROBS_mutation in
    ret gene_prob.

(** [get_parent_gene_probability] *)
Definition get_parent_gene_probability
    (child_has_gene : bool) (parent : option string) (parent_genes : nat)
    : py (option float) :=
  match parent with
  | Some _ =>
      if child_has_gene then
        match parent_genes with
        | 0%nat => ret (Some PROBS_mutation)
        | 1%nat => ret (Some (0.5 * (1 - PROBS_mutation) + 0.5 * PROBS_mutation))
        | 2%nat => ret (Some (1 - PROBS_mutation))
        | _ => ret None
        end
      else
        match parent_genes with
        | 0%nat => ret (Some (1 - PROBS_mutation))
        | 1%nat => ret (Some (0.5 * (1 - PROBS_mutation) + 0.5 * PROBS_mutation))
        | 2%nat => ret (Some PROBS_mutation)
        | _ => ret None
        end
  | None =>
      gene_prob <- get_unknown_parent_gene_probability child_has_gene ;;
      ret (Some gene_prob)
  end.

(** [a * b] on the results of [get_parent_gene_probability]. *)
Definition py_mul (a b : option float) : py float :=
  match a, b with
  | Some x, Some y => ret (x * y)
  | _, _ => raise TypeError
  end.

(** The body of the loop of [joint_probability]. *)
Definition joint_probability_body (one_gene two_genes have_trait : gset string)
    (joint_p : float) (item : string * person) : py float :=
  let '(person, family) := item in
  let mother := p_mother family in
  let father := p_father family in
  let gene := gene_count (Some person) one_gene two_genes in
  let trait := bool_decide (person ∈ have_trait) in
  trait_prob <- (by_gene <- dict_get PROBS_trait gene ;; dict_get by_gene trait) ;;
  gene_prob <-
    match mother, father with
    | None, None => dict_get PROBS_gene gene
    | _, _ =>
        let mother_genes := gene_count mother one_gene two_genes in
        let father_genes := gene_count father one_gene two_genes in
        match gene with
        | 0%nat =>
            gene_prob_mother <- get_parent_gene_probability false mother mother_genes ;;
            gene_prob_father <- get_parent_gene_probability false father father_genes ;;
            py_mul gene_prob_mother gene_prob_father
        | 1%nat =>
            m1 <- get_parent_gene_probability true mother mother_genes ;;
            f0 <- get_parent_gene_probability false father father_genes ;;
            gene_prob_mother <- py_mul m1 f0 ;;
            m0 <- get_parent_gene_probability false mother mother_genes ;;
            f1 <- get_parent_gene_probability true father father_genes ;;
            gene_prob_father <- py_mul m0 f1 ;;
            ret (gene_prob_mother + gene_prob_father)
        | 2%nat =>
            gene_prob_mother <- get_parent_gene_probability true mother mother_genes ;;
            gene_prob_father <- get_parent_gene_probability true father father_genes ;;
            py_mul gene_prob_mother gene_prob_father
        | _ => ret 0
        end
    end ;;
  ret (joint_p * (gene_prob * trait_prob)).

(** [joint_probability] *)
Definition joint_probability (people : dict string person)
    (one_gene two_genes have_trait : gset string) : py float :=
  for_each people (joint_probability_body one_gene two_genes have_trait) 1.

(** [probabilities[person]] *)
Record features : Type := Features {
  f_gene : dict nat float;
  f_trait : dict bool float
}.

(** The body of the loop of [update]. *)
Definition update_body (one_gene two_genes have_trait : gset string) (p : float)
    (probabilities : dict string features) (person : string) : py (dict string features) :=
  let gene := gene_count (Some person) one_gene two_genes in
  let trait := bool_decide (person ∈ have_trait) in
  dict_modify (fun fs =>
    by_gene <- dict_modify (fun v => ret (v + p)) gene (f_gene fs) ;;
    by_trait <- dict_modify (fun v => ret (v + p)) trait (f_trait fs) ;;
    ret {| f_gene := by_gene; f_trait := by_trait |}) person probabilities.

(** [update] *)
Definition update (probabilities : dict string features)
    (one_gene two_genes have_trait : gset string) (p : float) : py (dict string features) :=
  for_each (keys probabilities) (update_body one_gene two_genes have_trait p) probabilities.

(** [sum(values)], adding from the left with one rounding for each
    addition, as CPython does up to version 3.11 (from 3.12 on [sum]
    compensates the rounding errors, which can change the last digit). *)
Definition sum (values : list float) : float := fold_left PrimFloat.add values 0.

(** [value / s]: Python raises where [s == 0]. *)
Definition py_div (value s : float) : py float :=
  if PrimFloat.eqb s 0 then raise ZeroDivisionError else ret (value / s).

Fixpoint normalize_items {K} (s : float) (items : dict K float) : py (dict K float) :=
  match items with
  | [] => ret []
  | (key, value) :: items' =>
      value' <- py_div value s ;;
      rest <- normalize_items s items' ;;
      ret ((key, value') :: rest)
  end.

Definition normalize_distribution {K} (distribution : dict K float) : py (dict K float) :=
  let s := sum (values distribution) in
  normalize_items s distribution.

(** [normalize] *)
Fixpoint normalize (probabilities : dict string features) : py (dict string features) :=
  match probabilities with
  | [] => ret []
  | (person, fs) :: probabilities' =>
      by_gene <- normalize_distribution (f_gene fs) ;;
      by_trait <- normalize_distribution (f_trait fs) ;;
      rest <- normalize probabilities' ;;
      ret ((person, {| f_gene := by_gene; f_trait := by_trait |}) :: rest)
  end.

(** The histograms [main] starts from. *)
Definition initial_features : features :=
  {| f_gene := [ (2%nat, 0); (1%nat, 0); (0%nat, 0) ];
     f_trait := [ (true, 0); (false, 0) ] |}.

(** The three nested loops of [main]. *)
Definition enumerate (people : dict string person)
    (probabilities : dict string features) : py (dict string features) :=
  let names : gset string := list_to_set (keys people) in
  for_each (powerset names) (fun probabilities have_trait =>
    fails_evidence <- any (contradicts people have_trait) (elements names) ;;
    if fails_evidence then ret probabilities
    else
      for_each (powerset names) (fun probabilities one_gene =>
        for_each (powerset (names ∖ one_gene)) (fun probabilities two_genes =>
          p <- joint_probability people one_gene two_genes have_trait ;;
          update probabilities one_gene two_genes have_trait p)
          probabilities)
        probabilities)
    probabilities.

(** [main], from the loaded [people] to the table that is then printed. *)
Definition main (people : dict string person) : py (dict string features) :=
  let probabilities := map (fun person => (person, initial_features)) (keys people) in
  probabilities <- enumerate people probabilities ;;
  normalize probabilities.

End Binary64.

(** ** Sample families *)

(** A child with both parents recorded; the parents' trait is known. *)
Definition family_of_three : dict string person :=
  [ ("Harry", Person "Harry" (Some "Lily") (Some "James") None);
    ("James", Person "James" None None (Some true));
    ("Lily", Person "Lily" None None (Some false)) ].

(** A child with only the mother recorded. *)
Definition family_one_parent : dict string person :=
  [ ("Harry", Person "Harry" (Some "Lily") None None);
    ("Lily", Person "Lily" None None None) ].

(** Rows whose parents are not rows of the file, a row with one parent,
    and a row whose trait is neither ["1"], ["0"] nor blank. *)
Definition rows_unknown_parents : list (dict string string) :=
  [ [ ("name", "Harry"); ("mother", "Lily"); ("father", "James"); ("trait", "") ] ].

Definition rows_one_parent : list (dict string string) :=
  [ [ ("name", "Harry"); ("mother", "Lily"); ("father", ""); ("trait", "") ];
    [ ("name", "Lily"); ("mother", ""); ("father", ""); ("trait", "") ] ].

Definition rows_malformed_trait : list (dict string string) :=
  [ [ ("name", "Harry"); ("mother", ""); ("father", ""); ("trait", "yes") ] ].

(** A table of raw counts. *)
Definition raw_table : dict string features :=
  [ ("Harry", {| f_gene := [ (2%nat, 1); (1%nat, 1); (0%nat, 2) ];
                 f_trait := [ (true, 1); (false, 3) ] |}) ].

(** Two unrelated founders without trait evidence. *)
Definition two_founders : dict string person :=
  [ ("James", Person "James" None None None);
    ("Lily", Person "Lily" None None None) ].

(** A founder alone, and three unrelated founders, all without trait
    evidence. *)
Definition lone_founder : dict string person :=
  [ ("Lily", Person "Lily" None None None) ].

Definition three_founders : dict string person :=
  [ ("James", Person "James" None None None);
    ("Lily", Person "Lily" None None None);
    ("Harry", Person "Harry" None None None) ].

(** [n] names of one letter each, and the dataset of founders with given
    names. *)
Definition numbered (n : nat) : list string :=
  map (fun i => String (Ascii.ascii_of_nat i) EmptyString) (seq 65 n).

Definition founders (names : list string) : dict string person :=
  map (fun name => (name, Person name None None None)) names.

(** A table of binary64 numbers that is not normalised. *)
Definition tenths : dict string Binary64.features :=
  [ ("Harry", {| Binary64.f_gene := [ (2%nat, 0.1%float); (1%nat, 0.2%float);
                                      (0%nat, 0.3%float) ];
                 Binary64.f_trait := [ (true, 0.5%float); (false, 0.5%float) ] |}) ].

(** ** Basic facts about [py] *)

Lemma bind_ret {A B} (a : A) (f : A -> py B) : bind (ret a) f = f a.
Proof. unfold bind, ret. by destruct (f a). Qed.

Lemma bind_value {A B} (m : py A) (f : A -> py B) l a :
  m = (l, inr a) -> bind m f = (l ++ calls (f a), outcome (f a)).
Proof. intros ->. unfold bind, calls, outcome. by destruct (f a). Qed.

(** A loop whose body always succeeds, adding the calls [lg x] to the log
    and keeping the invariant [I], succeeds, with the calls of all rounds. *)
Lemma for_each_inv {A S} (I : S -> Prop) (lg : A -> list call)
    (l : list A) (body : S -> A -> py S) :
  (forall s x, I s -> x ∈ l -> exists s', body s x = (lg x, inr s') /\ I s') ->
  forall s, I s ->
  exists s', for_each l body s = (flat_map lg l, inr s') /\ I s'.
Proof.
  induction l as [|x l IH]; intros Hbody s Hs; simpl.
  - by exists s.
  - destruct (Hbody s x Hs) as (s1 & E1 & H1); [left|].
    destruct IH with (s := s1) as (s2 & E2 & H2); [|done|].
    { intros s' y Hs' Hy. apply Hbody; [done|by right]. }
    exists s2. split; [|done].
    by rewrite (bind_value _ _ _ _ E1), E2.
Qed.

(** ** Facts about dictionaries *)

Section DictFacts.
Context {K : Type} `{EqDecision K} {V : Type}.
Implicit Types (d : dict K V) (k : K) (v : V).

Lemma dict_get_elem_of d k :
  k ∈ keys d -> exists v, dict_get d k = ret v /\ (k, v) ∈ d.
Proof.
  induction d as [|[k' v'] d IH]; simpl; intros Hk.
  - by apply elem_of_nil in Hk.
  - destruct (decide (k = k')) as [->|Hne].
    + exists v'. split; [done|left].
    + apply elem_of_cons in Hk as [?|Hk]; [done|].
      destruct (IH Hk) as (v & ? & ?). exists v. split; [done|by right].
Qed.

Lemma dict_get_NoDup d k v :
  NoDup (keys d) -> (k, v) ∈ d -> dict_get d k = ret v.
Proof.
  induction d as [|[k' v'] d IH]; simpl; intros Hnd Hin.
  - by apply elem_of_nil in Hin.
  - apply NoDup_cons in Hnd as [Hk' Hnd].
    apply elem_of_cons in Hin as [[= -> ->]|Hin].
    + by rewrite decide_True.
    + rewrite decide_False; [by apply IH|].
      intros ->. apply Hk'. unfold keys.
      apply list_elem_of_fmap. by exists (k', v).
Qed.

End DictFacts.

(** ** The transmission probabilities *)

(** C2: a recorded parent with 0, 1 or 2 copies transmits the gene with
    probability mu, 0.5*(1-mu) + 0.5*mu (the two-path formula, kept as the
    code computes it) and 1-mu, and does not transmit it with probability
    1-mu, 0.5*(1-mu) + 0.5*mu and mu, where mu is [PROBS_mutation] = 0.01;
    the value of the formula is 0.5. *)
Theorem transmission_probabilities (parent : string) :
  get_parent_gene_probability true (Some parent) 0 = ret (Some PROBS_mutation)
  /\ get_parent_gene_probability true (Some parent) 1
     = ret (Some (0.5 * (1 - PROBS_mutation) + 0.5 * PROBS_mutation))
  /\ get_parent_gene_probability true (Some parent) 2 = ret (Some (1 - PROBS_mutation))
  /\ get_parent_gene_probability false (Some parent) 0 = ret (Some (1 - PROBS_mutation))
  /\ get_parent_gene_probability false (Some parent) 1
     = ret (Some (0.5 * (1 - PROBS_mutation) + 0.5 * PROBS_mutation))
  /\ get_parent_gene_probability false (Some parent) 2 = ret (Some PROBS_mutation)
  /\ PROBS_mutation = 0.01
  /\ 0.5 * (1 - PROBS_mutation) + 0.5 * PROBS_mutation == 0.5.
Proof. repeat split. Qed.

(** C10: the probabilities of transmitting and of not transmitting add up
    to 1, for a recorded parent with 0, 1 or 2 copies and for an unrecorded
    parent, in exact arithmetic. *)
Theorem transmission_complementary (parent : option string) (g : nat) :
  (g <= 2)%nat ->
  (exists t n,
      outcome (get_parent_gene_probability true parent g) = inr (Some t)
      /\ outcome (get_parent_gene_probability false parent g) = inr (Some n)
      /\ t + n == 1)
  /\ (exists t n,
      outcome (get_unknown_parent_gene_probability true) = inr t
      /\ outcome (get_unknown_parent_gene_probability false) = inr n
      /\ t + n == 1).
Proof.
  intros Hg. split.
  - destruct parent as [p|]; [|by do 2 eexists].
    destruct g as [|[|[|g]]]; [by do 2 eexists..|lia].
  - by do 2 eexists.
Qed.

Lemma transmission_complementary_witness :
  (exists t n,
      outcome (get_parent_gene_probability true (Some "Lily") 1) = inr (Some t)
      /\ outcome (get_parent_gene_probability false (Some "Lily") 1) = inr (Some n)
      /\ t + n == 1)
  /\ (exists t n,
      outcome (get_unknown_parent_gene_probability true) = inr t
      /\ outcome (get_unknown_parent_gene_probability false) = inr n
      /\ t + n == 1).
Proof. apply (transmission_complementary (Some "Lily") 1). lia. Defined.

(** ** The joint probability *)

Ltac case_gene_count :=
  unfold gene_count; repeat case_decide; try case_bool_decide.

Ltac only_unknown_tac :=
  unfold only_unknown_parent_calls; simpl;
  repeat (apply Forall_cons_2; [reflexivity|]); apply Forall_nil_2.

(** One round of the loop of [joint_probability] never raises and
    multiplies [joint_p] by a factor; it calls nothing but, where exactly
    one parent is recorded, [get_unknown_parent_gene_probability]. With
    both parents or none, the factor is the specification's. *)

Lemma joint_probability_body_value one_gene two_genes have_trait joint_p person family :
  exists l x,
    joint_probability_body one_gene two_genes have_trait joint_p (person, family)
    = (l, inr (joint_p * x))
    /\ only_unknown_parent_calls l
    /\ (both_or_neither family ->
        l = [] /\ x == individual_term one_gene two_genes have_trait (person, family)).
Proof.
  destruct family as [n [m|] [f|] t];
    unfold joint_probability_body, both_or_neither, individual_term;
    simpl p_mother; simpl p_father.
  - case_gene_count;
      (do 2 eexists; split; [reflexivity|];
       split; [only_unknown_tac|]; intros _; split; [reflexivity|by vm_compute]).
  - case_gene_count;
      (do 2 eexists; split; [reflexivity|];
       split; [only_unknown_tac|]; intros [_ Hf]; by specialize (Hf eq_refl)).
  - case_gene_count;
      (do 2 eexists; split; [reflexivity|];
       split; [only_unknown_tac|]; intros [Hm _]; by specialize (Hm eq_refl)).
  - case_gene_count;
      (do 2 eexists; split; [reflexivity|];
       split; [only_unknown_tac|]; intros _; split; [reflexivity|by vm_compute]).
Qed.


Lemma only_unknown_parent_calls_app l1 l2 :
  only_unknown_parent_calls l1 -> only_unknown_parent_calls l2 -> only_unknown_parent_calls (l1 ++ l2).
Proof. apply Forall_app_2. Qed.

Lemma joint_probability_loop one_gene two_genes have_trait people :
  forall joint_p, exists l q,
    for_each people (joint_probability_body one_gene two_genes have_trait) joint_p
    = (l, inr q)
    /\ only_unknown_parent_calls l
    /\ (valid_parentage people ->
        l = []
        /\ q == joint_p * product (map (individual_term one_gene two_genes have_trait) people)).
Proof.
  induction people as [|[person family] people IH]; intros joint_p; simpl for_each.
  - exists [], joint_p. split; [done|]. split; [apply Forall_nil_2|].
    intros _. split; [done|]. simpl. ring.
  - destruct (joint_probability_body_value one_gene two_genes have_trait
                joint_p person family) as (l1 & x & E1 & Hl1 & Hx).
    destruct (IH (joint_p * x)) as (l2 & q & E2 & Hl2 & Hq).
    exists (l1 ++ l2), q. rewrite (bind_value _ _ _ _ E1), E2. simpl.
    split; [done|]. split; [by apply only_unknown_parent_calls_app|].
    intros Hvalid. apply Forall_cons in Hvalid as [Hfam Hvalid].
    destruct (Hx Hfam) as [-> Hx']. destruct (Hq Hvalid) as [-> Hq'].
    split; [done|]. rewrite Hq', Hx'. simpl. ring.
Qed.

(** [joint_probability] always returns a number; its log is its own call,
    followed by calls of [get_unknown_parent_gene_probability] only. *)
Lemma joint_probability_value people one_gene two_genes have_trait :
  exists l q,
    joint_probability people one_gene two_genes have_trait
    = (call_joint_probability one_gene two_genes have_trait :: l, inr q)
    /\ only_unknown_parent_calls l
    /\ (valid_parentage people ->
        l = []
        /\ q == product (map (individual_term one_gene two_genes have_trait) people)).
Proof.
  destruct (joint_probability_loop one_gene two_genes have_trait people 1)
    as (l & q & E & Hl & Hq).
  exists l, q. unfold joint_probability. simpl. rewrite E.
  split; [done|]. split; [done|].
  intros Hvalid. destruct (Hq Hvalid) as [-> Hq']. split; [done|].
  rewrite Hq'. ring.
Qed.

(** C1 (amended): in a family where every individual has both parents
    recorded or neither, [joint_probability] returns the product, over the
    individuals, of the gene-count term (the prior for a founder, the child
    gene distribution of the parents' gene counts otherwise) and the trait
    term. The sets need not be disjoint: [two_genes] takes precedence. *)
Theorem joint_probability_product people one_gene two_genes have_trait :
  valid_parentage people ->
  exists q,
    outcome (joint_probability people one_gene two_genes have_trait) = inr q
    /\ q == product (map (individual_term one_gene two_genes have_trait) people).
Proof.
  intros Hvalid.
  destruct (joint_probability_value people one_gene two_genes have_trait)
    as (l & q & E & _ & Hq).
  exists q. rewrite E. split; [done|]. by apply Hq.
Qed.

(** C8: in a family where every individual has both parents recorded or
    neither, [joint_probability] never calls
    [get_unknown_parent_gene_probability]: its log holds its own call and
    nothing else. *)
Theorem unknown_parent_never_called people one_gene two_genes have_trait :
  valid_parentage people ->
  calls (joint_probability people one_gene two_genes have_trait)
  = [call_joint_probability one_gene two_genes have_trait]
  /\ forall child_has_gene,
       call_get_unknown_parent_gene_probability child_has_gene
       ∉ calls (joint_probability people one_gene two_genes have_trait).
Proof.
  intros Hvalid.
  destruct (joint_probability_value people one_gene two_genes have_trait)
    as (l & q & E & _ & Hq).
  destruct (Hq Hvalid) as [-> _]. rewrite E. simpl.
  split; [done|]. intros b Hb. apply list_elem_of_singleton in Hb. discriminate.
Qed.

Ltac valid_parentage_tac :=
  unfold valid_parentage;
  repeat (apply Forall_cons_2; [split; intros; simpl in *; congruence|]);
  apply Forall_nil_2.

Lemma family_of_three_valid : valid_parentage family_of_three.
Proof. valid_parentage_tac. Defined.

Lemma joint_probability_product_witness :
  valid_parentage family_of_three
  /\ exists q,
      outcome (joint_probability family_of_three {["Harry"]} {["James"]} {["James"]}) = inr q
      /\ q == product (map (individual_term {["Harry"]} {["James"]} {["James"]})
                         family_of_three).
Proof.
  split; [exact family_of_three_valid|].
  apply (joint_probability_product family_of_three {["Harry"]} {["James"]} {["James"]}).
  exact family_of_three_valid.
Defined.

(** The value for this assignment, computed by hand:
    Harry (0.01 * 0.01 + 0.99 * 0.99) * 0.44, James 0.01 * 0.65,
    Lily 0.96 * 0.99. *)
Example joint_probability_family_of_three :
  exists q,
    joint_probability family_of_three {["Harry"]} {["James"]} {["James"]}
    = ([call_joint_probability {["Harry"]} {["James"]} {["James"]}], inr q)
    /\ q == 0.0026643247488.
Proof. eexists. split; [by vm_compute|by vm_compute]. Qed.

(** C1 as stated fails when exactly one parent is recorded: for Harry, whose
    mother Lily is recorded and whose father is not, with nobody carrying the
    gene or showing the trait, the code multiplies Lily's 0.99 by the
    unknown-parent average 0.9655, where the child gene distribution of the
    gene counts (0, 0) gives 0.99 * 0.99. *)
Lemma joint_probability_product_counterexample :
  (∅ : gset string) ## ∅
  /\ exists q,
      outcome (joint_probability family_one_parent ∅ ∅ ∅) = inr q
      /\ q == 0.89935073712
      /\ product (map (individual_term ∅ ∅ ∅) family_one_parent) == 0.9221721696
      /\ ~ q == product (map (individual_term ∅ ∅ ∅) family_one_parent).
Proof.
  split; [set_solver|]. eexists. split; [by vm_compute|].
  split; [by vm_compute|]. split; [by vm_compute|].
  vm_compute. discriminate.
Qed.

Lemma unknown_parent_never_called_witness :
  valid_parentage family_of_three
  /\ calls (joint_probability family_of_three {["Harry"]} ∅ {["James"]})
     = [call_joint_probability {["Harry"]} ∅ {["James"]}]
  /\ forall child_has_gene,
       call_get_unknown_parent_gene_probability child_has_gene
       ∉ calls (joint_probability family_of_three {["Harry"]} ∅ {["James"]}).
Proof.
  split; [exact family_of_three_valid|].
  apply (unknown_parent_never_called family_of_three {["Harry"]} ∅ {["James"]}).
  exact family_of_three_valid.
Defined.

(** With one parent missing, the unknown-parent path does run. *)
Example unknown_parent_called_one_parent :
  calls (joint_probability family_one_parent ∅ ∅ ∅)
  = [call_joint_probability ∅ ∅ ∅; call_get_unknown_parent_gene_probability false].
Proof. by vm_compute. Qed.

(** ** Subsets *)

Lemma flat_map_bind {A B} (f : A -> list B) l : flat_map f l = l ≫= f.
Proof. reflexivity. Qed.

Lemma map_fmap {A B} (f : A -> B) l : map f l = f <$> l.
Proof. reflexivity. Qed.

Lemma flat_map_nil {A B} (f : A -> list B) l :
  (forall x, x ∈ l -> f x = []) -> flat_map f l = [].
Proof.
  induction l as [|x l IH]; intros Hf; simpl; [done|].
  rewrite Hf by left. apply IH. intros y Hy. apply Hf. by right.
Qed.

Lemma flat_map_app_Permutation {A B} (f g : A -> list B) l :
  flat_map (fun x => f x ++ g x) l ≡ₚ flat_map f l ++ flat_map g l.
Proof.
  induction l as [|x l IH]; simpl; [done|].
  rewrite IH. solve_Permutation.
Qed.

Lemma flat_map_map {A B C} (f : B -> C) (g : A -> list B) l :
  flat_map (fun x => map f (g x)) l = map f (flat_map g l).
Proof.
  induction l as [|x l IH]; simpl; [done|]. by rewrite IH, map_app.
Qed.

Lemma flat_map_seq_S {B} (f : nat -> list B) n :
  flat_map f (seq 1 n) = flat_map (fun r => f (S r)) (seq 0 n).
Proof. rewrite <- seq_shift. rewrite !flat_map_bind, map_fmap. by rewrite list_fmap_bind. Qed.

(** All combinations of all sizes, as sets, are the subsets. *)
Lemma combinations_subsets (s : list string) n :
  (length s < n)%nat ->
  map list_to_set (flat_map (combinations s) (seq 0 n)) ≡ₚ subsets s.
Proof.
  revert n. induction s as [|x s IH]; intros n Hn; simpl in Hn.
  - destruct n as [|n]; [lia|]. rewrite <- cons_seq. simpl.
    rewrite flat_map_nil; [done|].
    intros r Hr. apply list_elem_of_In, in_seq in Hr. destruct r; [lia|done].
  - destruct n as [|n]; [lia|]. rewrite <- cons_seq.
    change (flat_map (combinations (x :: s)) (0%nat :: seq 1 n))
      with ([[]] ++ flat_map (combinations (x :: s)) (seq 1 n)).
    rewrite flat_map_seq_S.
    change (fun r => combinations (x :: s) (S r))
      with (fun r => map (cons x) (combinations s r) ++ combinations s (S r)).
    rewrite flat_map_app_Permutation.
    rewrite <- flat_map_seq_S.
    assert (E : [[]] ++ flat_map (fun r => map (cons x) (combinations s r)) (seq 0 n)
                    ++ flat_map (combinations s) (seq 1 n)
                ≡ₚ flat_map (combinations s) (seq 0 (S n))
                   ++ map (cons x) (flat_map (combinations s) (seq 0 n))).
    { rewrite <- cons_seq. simpl flat_map at 3.
      assert (E' : flat_map (fun r => map (cons x) (combinations s r)) (seq 0 n)
                   = map (cons x) (flat_map (combinations s) (seq 0 n))).
      { apply flat_map_map. }
      rewrite E'. destruct s; simpl; solve_Permutation. }
    rewrite E, map_app, IH by lia. simpl subsets.
    apply Permutation_app; [done|].
    rewrite <- (IH n) by lia. rewrite !map_map.
    apply Permutation_map. done.
Qed.

Lemma elem_of_subsets (l : list string) (X : gset string) :
  X ∈ subsets l <-> X ⊆ list_to_set l.
Proof.
  revert X. induction l as [|x l IH]; intros X; simpl.
  - rewrite list_elem_of_singleton. set_solver.
  - rewrite elem_of_app, IH. split.
    + intros [HX|HX]; [set_solver|].
      apply list_elem_of_fmap in HX as (Y & -> & HY). apply IH in HY. set_solver.
    + intros HX. destruct (decide (x ∈ X)) as [Hx|Hx].
      * right. apply list_elem_of_fmap. exists (X ∖ {[x]}). split.
        -- apply set_eq. intros y. rewrite elem_of_union, elem_of_difference,
             elem_of_singleton. destruct (decide (y = x)); naive_solver.
        -- apply IH. set_solver.
      * left. set_solver.
Qed.

Lemma NoDup_subsets (l : list string) : NoDup l -> NoDup (subsets l).
Proof.
  induction l as [|x l IH]; intros Hnd; simpl.
  - apply NoDup_singleton.
  - apply NoDup_cons in Hnd as [Hx Hnd]. specialize (IH Hnd).
    assert (Hfresh : forall X, X ∈ subsets l -> x ∉ X).
    { intros X HX%elem_of_subsets. set_solver. }
    apply NoDup_app. split; [done|]. split.
    + intros X HX HX'. apply list_elem_of_fmap in HX' as (Y & -> & HY).
      apply (Hfresh _ HX). set_solver.
    + apply NoDup_fmap_2_strong; [|done].
      intros X Y HX HY E. apply Hfresh in HX, HY. set_solver.
Qed.

(** [powerset s] lists every subset of [s], each one once. *)
Lemma powerset_Permutation (s : gset string) : powerset s ≡ₚ subsets (elements s).
Proof. unfold powerset. apply combinations_subsets. lia. Qed.

Lemma elem_of_powerset (s X : gset string) : X ∈ powerset s <-> X ⊆ s.
Proof.
  rewrite powerset_Permutation, elem_of_subsets. by rewrite list_to_set_elements_L.
Qed.

Lemma NoDup_powerset (s : gset string) : NoDup (powerset s).
Proof. rewrite powerset_Permutation. apply NoDup_subsets, NoDup_elements. Qed.

Lemma powerset_subsets (l : list string) :
  NoDup l -> powerset (list_to_set l) ≡ₚ subsets l.
Proof.
  intros Hnd. apply NoDup_Permutation.
  - apply NoDup_powerset.
  - by apply NoDup_subsets.
  - intros X. by rewrite elem_of_powerset, elem_of_subsets.
Qed.

(** ** Accumulation never fails *)

Section DictInv.
Context {K : Type} `{EqDecision K} {V : Type}.

Lemma dict_modify_inv (P : V -> Prop) (f : V -> py V) (d : dict K V) k :
  Forall (fun entry => P (snd entry)) d ->
  (forall v, P v -> exists v', f v = ret v' /\ P v') ->
  k ∈ keys d ->
  exists d', dict_modify f k d = ret d' /\ keys d' = keys d
             /\ Forall (fun entry => P (snd entry)) d'.
Proof.
  intros Hd Hf. induction Hd as [|[k' v] d Hv Hd IH]; simpl; intros Hk.
  - by apply elem_of_nil in Hk.
  - destruct (decide (k = k')) as [->|Hne].
    + destruct (Hf v Hv) as (v' & -> & Hv'). rewrite bind_ret.
      eexists. split; [done|]. split; [done|]. by apply Forall_cons_2.
    + apply elem_of_cons in Hk as [?|Hk]; [done|].
      destruct (IH Hk) as (d' & -> & Hkeys & Hd'). rewrite bind_ret.
      eexists. split; [done|]. split; [simpl; by rewrite Hkeys|].
      by apply Forall_cons_2.
Qed.

End DictInv.

Lemma dict_modify_add {K} `{EqDecision K} (d : dict K Q) k p :
  k ∈ keys d ->
  exists d', dict_modify (fun v => ret (v + p)) k d = ret d' /\ keys d' = keys d.
Proof.
  intros Hk.
  destruct (dict_modify_inv (fun _ => True) (fun v => ret (v + p)) d k)
    as (d' & E & Hkeys & _); [|by eauto|done|by eauto].
  by apply Forall_forall.
Qed.

Lemma gene_count_keys person one_gene two_genes :
  gene_count (Some person) one_gene two_genes ∈ [2; 1; 0]%nat.
Proof. unfold gene_count. repeat case_decide; set_solver. Qed.

Lemma trait_keys (b : bool) : b ∈ [true; false].
Proof. destruct b; set_solver. Qed.

Lemma update_body_total one_gene two_genes have_trait p probabilities person :
  well_shaped probabilities ->
  person ∈ keys probabilities ->
  exists probabilities',
    update_body one_gene two_genes have_trait p probabilities person = ret probabilities'
    /\ keys probabilities' = keys probabilities
    /\ well_shaped probabilities'.
Proof.
  intros Hshape Hperson. unfold update_body.
  apply dict_modify_inv
    with (P := fun fs => keys (f_gene fs) = [2; 1; 0]%nat /\ keys (f_trait fs) = [true; false]);
    [done| |done].
  intros fs [Hg Ht].
  destruct (dict_modify_add (f_gene fs) (gene_count (Some person) one_gene two_genes) p)
    as (by_gene & -> & Hg'); [rewrite Hg; apply gene_count_keys|].
  destruct (dict_modify_add (f_trait fs) (bool_decide (person ∈ have_trait)) p)
    as (by_trait & -> & Ht'); [rewrite Ht; apply trait_keys|].
  rewrite !bind_ret. eexists. split; [done|]. simpl. by rewrite Hg', Ht'.
Qed.

Lemma update_total probabilities one_gene two_genes have_trait p :
  well_shaped probabilities ->
  exists probabilities',
    update probabilities one_gene two_genes have_trait p
    = ([call_update one_gene two_genes have_trait p], inr probabilities')
    /\ keys probabilities' = keys probabilities
    /\ well_shaped probabilities'.
Proof.
  intros Hshape. unfold update.
  destruct (for_each_inv
              (fun t => keys t = keys probabilities /\ well_shaped t)
              (fun _ => []) (keys probabilities)
              (update_body one_gene two_genes have_trait p))
    with (s := probabilities) as (t & E & Hkeys & Ht); [|done|].
  - intros t person [Hkeys Ht] Hperson.
    destruct (update_body_total one_gene two_genes have_trait p t person)
      as (t' & E & Hkeys' & Ht'); [done|by rewrite Hkeys|].
    exists t'. split; [done|]. split; [congruence|done].
  - exists t. rewrite E. split; [|done].
    rewrite flat_map_nil by done. done.
Qed.

(** ** The evidence filter *)

Lemma any_value {A} (f : A -> py bool) (fb : A -> bool) l :
  (forall x, x ∈ l -> f x = ret (fb x)) -> any f l = ret (existsb fb l).
Proof.
  induction l as [|x l IH]; intros Hf; cbn [any existsb]; [done|].
  rewrite Hf by left. rewrite bind_ret. destruct (fb x); [done|].
  apply IH. intros y Hy. apply Hf. by right.
Qed.

Lemma evidence_fails_value people have_trait :
  any (contradicts people have_trait) (elements (names_of people))
  = ret (evidence_fails people have_trait).
Proof.
  apply any_value. intros person Hperson.
  apply elem_of_elements, elem_of_list_to_set in Hperson.
  destruct (dict_get_elem_of people person Hperson) as (family & E & _).
  unfold contradicts, evidence. rewrite E, bind_ret. cbn [outcome ret snd].
  destruct (p_trait family) as [t|] eqn:Et; [|done].
  by rewrite bind_ret, Et.
Qed.

Lemma evidence_fails_false people have_trait :
  evidence_fails people have_trait = false <-> respects_evidence people have_trait.
Proof.
  unfold evidence_fails, respects_evidence. split.
  - intros Hfalse person.
    destruct (evidence people person) as [t|] eqn:Et; [|done].
    assert (Hin : person ∈ elements (names_of people)).
    { apply elem_of_elements, elem_of_list_to_set. unfold evidence in Et.
      destruct (decide (person ∈ keys people)) as [|Hn]; [done|].
      exfalso. clear Hfalse. revert Et. induction people as [|[k v] people IH]; simpl; [done|].
      destruct (decide (person = k)) as [->|Hne]; [set_solver|].
      apply IH. set_solver. }
    assert (Hb : bool_decide (Some t ≠ Some (bool_decide (person ∈ have_trait))) = false).
    { destruct (bool_decide (Some t ≠ _)) eqn:Hb; [|done].
      rewrite <- Hfalse. symmetry. apply existsb_exists. exists person.
      split; [by apply list_elem_of_In|]. by rewrite Et. }
    apply bool_decide_eq_false in Hb. apply dec_stable in Hb. injection Hb as ->.
    split; intros [= Hd].
    + by apply bool_decide_eq_true in Hd.
    + by apply bool_decide_eq_false in Hd.
  - intros Hresp. apply not_true_is_false. intros Htrue.
    apply existsb_exists in Htrue as (person & _ & Hb).
    destruct (Hresp person) as [Ht Hf].
    destruct (evidence people person) as [[|]|]; [| |done].
    + apply bool_decide_eq_true in Hb. apply Hb. f_equal. symmetry.
      apply bool_decide_eq_true. by apply Ht.
    + apply bool_decide_eq_true in Hb. apply Hb. f_equal. symmetry.
      apply bool_decide_eq_false. by apply Hf.
Qed.

(** ** The enumeration never fails; its log *)

Lemma joint_value_eq people one_gene two_genes have_trait :
  exists l,
    joint_probability people one_gene two_genes have_trait
    = (l, inr (joint_value people one_gene two_genes have_trait)).
Proof.
  destruct (joint_probability_value people one_gene two_genes have_trait)
    as (l & q & E & _).
  eexists. unfold joint_value. by rewrite E.
Qed.

Lemma enumerate_value people probabilities :
  well_shaped probabilities ->
  exists probabilities',
    enumerate people probabilities = (enumerate_calls people, inr probabilities')
    /\ keys probabilities' = keys probabilities
    /\ well_shaped probabilities'.
Proof.
  intros Hshape. unfold enumerate, enumerate_calls. fold (names_of people).
  set (I := fun t => keys t = keys probabilities /\ well_shaped t).
  apply (for_each_inv I); [|done].
  intros t have_trait Ht _.
  rewrite evidence_fails_value, bind_ret.
  destruct (evidence_fails people have_trait); [by exists t|].
  apply (for_each_inv I); [|done].
  clear t Ht. intros t one_gene Ht _.
  apply (for_each_inv I); [|done].
  clear t Ht. intros t two_genes [Hkeys Ht] _.
  destruct (joint_value_eq people one_gene two_genes have_trait) as (l & E).
  destruct (update_total t one_gene two_genes have_trait
              (joint_value people one_gene two_genes have_trait))
    as (t' & Eu & Hkeys' & Ht'); [done|].
  exists t'. rewrite (bind_value _ _ _ _ E), Eu, E. simpl.
  split; [done|]. split; [congruence|done].
Qed.

Lemma assignments_evaluated_app l1 l2 :
  assignments_evaluated (l1 ++ l2) = assignments_evaluated l1 ++ assignments_evaluated l2.
Proof. apply flat_map_app. Qed.

Lemma assignments_evaluated_flat_map {A} (f : A -> list call) l :
  assignments_evaluated (flat_map f l) = flat_map (fun x => assignments_evaluated (f x)) l.
Proof.
  induction l as [|x l IH]; simpl; [done|].
  by rewrite assignments_evaluated_app, IH.
Qed.

Lemma assignments_evaluated_unknown_parent l :
  only_unknown_parent_calls l -> assignments_evaluated l = [].
Proof.
  induction 1 as [|c l Hc _ IH]; simpl; [done|].
  rewrite IH. by destruct c.
Qed.

Lemma assignments_evaluated_joint_probability people one_gene two_genes have_trait :
  assignments_evaluated (calls (joint_probability people one_gene two_genes have_trait))
  = [(one_gene, two_genes, have_trait)].
Proof.
  destruct (joint_probability_value people one_gene two_genes have_trait)
    as (l & q & E & Hl & _).
  rewrite E. simpl. by rewrite assignments_evaluated_unknown_parent.
Qed.

Lemma assignments_accumulated_app l1 l2 :
  assignments_accumulated (l1 ++ l2)
  = assignments_accumulated l1 ++ assignments_accumulated l2.
Proof. apply flat_map_app. Qed.

Lemma assignments_accumulated_flat_map {A} (f : A -> list call) l :
  assignments_accumulated (flat_map f l)
  = flat_map (fun x => assignments_accumulated (f x)) l.
Proof.
  induction l as [|x l IH]; simpl; [done|].
  by rewrite assignments_accumulated_app, IH.
Qed.

Lemma assignments_accumulated_unknown_parent l :
  only_unknown_parent_calls l -> assignments_accumulated l = [].
Proof.
  induction 1 as [|c l Hc _ IH]; simpl; [done|].
  rewrite IH. by destruct c.
Qed.

Lemma assignments_accumulated_joint_probability people one_gene two_genes have_trait :
  assignments_accumulated (calls (joint_probability people one_gene two_genes have_trait))
  = [].
Proof.
  destruct (joint_probability_value people one_gene two_genes have_trait)
    as (l & q & E & Hl & _).
  rewrite E. simpl. by rewrite assignments_accumulated_unknown_parent.
Qed.

(** The assignments of the three loops. *)
Lemma assignments_evaluated_enumerate people :
  assignments_evaluated (enumerate_calls people)
  = flat_map (fun have_trait =>
      if evidence_fails people have_trait then []
      else flat_map (fun one_gene =>
             map (fun two_genes => (one_gene, two_genes, have_trait))
                 (powerset (names_of people ∖ one_gene)))
             (powerset (names_of people)))
      (powerset (names_of people)).
Proof.
  unfold enumerate_calls. rewrite assignments_evaluated_flat_map.
  apply flat_map_ext. intros have_trait.
  destruct (evidence_fails people have_trait); [done|].
  rewrite assignments_evaluated_flat_map. apply flat_map_ext. intros one_gene.
  rewrite assignments_evaluated_flat_map.
  induction (powerset (names_of people ∖ one_gene)) as [|two_genes l IH]; simpl; [done|].
  by rewrite assignments_evaluated_app, assignments_evaluated_joint_probability, IH.
Qed.

(** [update] is called for the assignments that [joint_probability] is
    called for, in the same order, with the number it returned. *)
Lemma assignments_accumulated_enumerate people :
  assignments_accumulated (enumerate_calls people)
  = map (fun a => (a, joint_value people (fst (fst a)) (snd (fst a)) (snd a)))
        (assignments_evaluated (enumerate_calls people)).
Proof.
  unfold enumerate_calls.
  rewrite assignments_accumulated_flat_map, assignments_evaluated_flat_map.
  rewrite <- flat_map_map. apply flat_map_ext. intros have_trait.
  destruct (evidence_fails people have_trait); [done|].
  rewrite assignments_accumulated_flat_map, assignments_evaluated_flat_map.
  rewrite <- flat_map_map. apply flat_map_ext. intros one_gene.
  rewrite assignments_accumulated_flat_map, assignments_evaluated_flat_map.
  rewrite <- flat_map_map. apply flat_map_ext. intros two_genes.
  rewrite assignments_accumulated_app, assignments_evaluated_app.
  by rewrite assignments_accumulated_joint_probability,
    assignments_evaluated_joint_probability.
Qed.

Lemma elem_of_assignments_enumerate people one_gene two_genes have_trait :
  (one_gene, two_genes, have_trait) ∈ assignments_evaluated (enumerate_calls people)
  <-> have_trait ⊆ names_of people
      /\ respects_evidence people have_trait
      /\ one_gene ⊆ names_of people
      /\ two_genes ⊆ names_of people
      /\ one_gene ## two_genes.
Proof.
  rewrite assignments_evaluated_enumerate, flat_map_bind, list_elem_of_bind.
  split.
  - intros (ht & Hin & Hht). apply elem_of_powerset in Hht.
    destruct (evidence_fails people ht) eqn:Hfe; [by apply elem_of_nil in Hin|].
    apply evidence_fails_false in Hfe.
    rewrite flat_map_bind in Hin. apply list_elem_of_bind in Hin as (og & Hin & Hog).
    apply elem_of_powerset in Hog.
    apply list_elem_of_fmap in Hin as (tg & [= -> -> ->] & Htg).
    apply elem_of_powerset in Htg. set_solver.
  - intros (Hht & Hresp & Hog & Htg & Hdisj). exists have_trait.
    split; [|by apply elem_of_powerset].
    apply evidence_fails_false in Hresp. rewrite Hresp.
    rewrite flat_map_bind. apply list_elem_of_bind. exists one_gene.
    split; [|by apply elem_of_powerset].
    apply list_elem_of_fmap. exists two_genes. split; [done|].
    apply elem_of_powerset. set_solver.
Qed.

Lemma NoDup_assignments_enumerate people :
  NoDup (assignments_evaluated (enumerate_calls people)).
Proof.
  rewrite assignments_evaluated_enumerate, flat_map_bind. apply NoDup_bind.
  - intros ht1 ht2 [[og tg] ht] _ _ H1 H2.
    assert (Hht : forall ht', (og, tg, ht) ∈
              (if evidence_fails people ht' then []
               else flat_map (fun one_gene =>
                      map (fun two_genes => (one_gene, two_genes, ht'))
                          (powerset (names_of people ∖ one_gene)))
                      (powerset (names_of people))) -> ht = ht').
    { intros ht' Hin. destruct (evidence_fails people ht'); [by apply elem_of_nil in Hin|].
      rewrite flat_map_bind in Hin. apply list_elem_of_bind in Hin as (og' & Hin & _).
      by apply list_elem_of_fmap in Hin as (tg' & [= -> -> ->] & _). }
    by rewrite <- (Hht _ H1), <- (Hht _ H2).
  - intros ht _. destruct (evidence_fails people ht); [apply NoDup_nil_2|].
    rewrite flat_map_bind. apply NoDup_bind.
    + intros og1 og2 [[og tg] ht'] _ _ H1 H2.
      apply list_elem_of_fmap in H1 as (? & [= -> -> ->] & _).
      by apply list_elem_of_fmap in H2 as (? & [= -> _] & _).
    + intros og _. apply NoDup_fmap_2; [|apply NoDup_powerset].
      by intros tg1 tg2 [= ->].
    + apply NoDup_powerset.
  - apply NoDup_powerset.
Qed.

(** ** The log of [main] *)

Lemma bind_calls_nil {A B} (m : py A) (f : A -> py B) :
  calls m = [] -> (forall a, calls (f a) = []) -> calls (bind m f) = [].
Proof.
  destruct m as [l [e|a]]; simpl; intros ->; [done|].
  intros Hf. specialize (Hf a). destruct (f a). simpl in *. by subst.
Qed.

Lemma normalize_items_calls {K} s (items : dict K Q) : calls (normalize_items s items) = [].
Proof.
  induction items as [|[key value] items IH]; simpl; [done|].
  apply bind_calls_nil; [unfold py_div; by destruct (Qeq_bool s 0)|].
  intros v. apply bind_calls_nil; [done|]. done.
Qed.

Lemma normalize_calls probabilities : calls (normalize probabilities) = [].
Proof.
  induction probabilities as [|[person fs] probabilities IH]; simpl; [done|].
  apply bind_calls_nil; [apply normalize_items_calls|]. intros by_gene.
  apply bind_calls_nil; [apply normalize_items_calls|]. intros by_trait.
  apply bind_calls_nil; [done|]. done.
Qed.

Lemma initial_well_shaped (l : list string) :
  well_shaped (map (fun person => (person, initial_features)) l).
Proof. apply Forall_forall. intros [k fs] Hin%list_elem_of_fmap. by destruct Hin as (? & [= -> ->] & _). Qed.

Lemma main_calls people : calls (main people) = enumerate_calls people.
Proof.
  unfold main.
  destruct (enumerate_value people (map (fun person => (person, initial_features)) (keys people)))
    as (t & E & _); [apply initial_well_shaped|].
  rewrite (bind_value _ _ _ _ E). simpl. by rewrite normalize_calls, app_nil_r.
Qed.

(** C3: every assignment that [main] hands to [joint_probability] agrees
    with the recorded trait evidence, and [update] accumulates exactly these
    assignments, each with the number that [joint_probability] returned for
    it; a candidate subset that contradicts the evidence of some individual is
    never passed on to the gene loops; and nothing else is demanded of a
    candidate: every subset of the names that agrees with the recorded
    evidence is passed on. *)
Theorem evaluated_assignments_respect_evidence (people : dict string person) :
  (forall one_gene two_genes have_trait,
      (one_gene, two_genes, have_trait) ∈ assignments_evaluated (calls (main people)) ->
      respects_evidence people have_trait)
  /\ assignments_accumulated (calls (main people))
     = map (fun a => (a, joint_value people (fst (fst a)) (snd (fst a)) (snd a)))
           (assignments_evaluated (calls (main people)))
  /\ (forall have_trait,
      ~ respects_evidence people have_trait ->
      forall one_gene two_genes,
        (one_gene, two_genes, have_trait) ∉ assignments_evaluated (calls (main people)))
  /\ (forall have_trait,
      have_trait ⊆ names_of people ->
      respects_evidence people have_trait ->
      (∅, ∅, have_trait) ∈ assignments_evaluated (calls (main people))).
Proof.
  rewrite main_calls. split; [|split; [|split]].
  - intros og tg ht Hin. by apply elem_of_assignments_enumerate in Hin as (_ & ? & _).
  - apply assignments_accumulated_enumerate.
  - intros ht Hn og tg Hin. by apply elem_of_assignments_enumerate in Hin as (_ & ? & _).
  - intros ht Hsub Hresp. apply elem_of_assignments_enumerate. set_solver.
Qed.

Lemma powerset_empty : powerset ∅ = [∅].
Proof. unfold powerset. by rewrite elements_empty. Qed.

Lemma powerset_singleton (x : string) : powerset {[x]} = [∅; {[x]}].
Proof.
  unfold powerset. rewrite elements_singleton. simpl.
  by rewrite (right_id_L ∅ (∪)).
Qed.

(** C4: for every trait subset that survives the evidence filter, each pair
    of disjoint subsets of the names is handed to [joint_probability] once,
    as (one-copy group, two-copy group), and nothing else is; a dataset of one
    individual without trait evidence gives 6 calls. *)
Theorem enumeration_exhaustive (people : dict string person) :
  NoDup (assignments_evaluated (calls (main people)))
  /\ (forall one_gene two_genes have_trait,
      (one_gene, two_genes, have_trait) ∈ assignments_evaluated (calls (main people))
      <-> have_trait ⊆ names_of people
          /\ respects_evidence people have_trait
          /\ one_gene ⊆ names_of people
          /\ two_genes ⊆ names_of people
          /\ one_gene ## two_genes)
  /\ (forall person name mother father,
      length (assignments_evaluated
                (calls (main [(person, Person name mother father None)]))) = 6%nat).
Proof.
  split; [|split].
  - rewrite main_calls. apply NoDup_assignments_enumerate.
  - intros og tg ht. rewrite main_calls. apply elem_of_assignments_enumerate.
  - intros person name mother father.
    rewrite main_calls, assignments_evaluated_enumerate.
    assert (Hnames : names_of [(person, Person name mother father None)] = {[person]}).
    { unfold names_of. simpl. by rewrite (right_id_L ∅ (∪)). }
    rewrite Hnames, powerset_singleton.
    assert (Hfe : forall ht, evidence_fails [(person, Person name mother father None)] ht = false).
    { intros ht. unfold evidence_fails. rewrite Hnames, elements_singleton. simpl.
      unfold evidence. simpl. by rewrite decide_True. }
    simpl. rewrite !Hfe.
    rewrite (difference_diag_L {[person]}), (difference_empty_L {[person]}).
    by rewrite powerset_singleton, powerset_empty.
Qed.

(** ** Normalisation *)

Lemma fold_left_Qplus_acc (l : list Q) (a : Q) :
  fold_left Qplus l a == a + fold_left Qplus l 0.
Proof.
  revert a. induction l as [|x l IH]; intros a; simpl; [ring|].
  rewrite (IH (a + x)), (IH (0 + x)). ring.
Qed.

Lemma sum_cons (x : Q) (l : list Q) : sum (x :: l) == x + sum l.
Proof. unfold sum. simpl. rewrite fold_left_Qplus_acc. ring. Qed.

Lemma sum_scaled {K} (s : Q) (d : dict K Q) :
  sum (values (scaled s d)) == sum (values d) / s.
Proof.
  induction d as [|[k v] d IH]; simpl.
  - unfold sum. simpl. unfold Qdiv. ring.
  - change (values (scaled s ((k, v) :: d))) with (v / s :: values (scaled s d)).
    change (values ((k, v) :: d)) with (v :: values d).
    rewrite !sum_cons, IH. unfold Qdiv. ring.
Qed.

Lemma lookup_scaled {K} (s : Q) (d : dict K Q) (i : nat) :
  scaled s d !! i = (fun item => (fst item, snd item / s)) <$> d !! i.
Proof. apply list_lookup_fmap. Qed.

Lemma normalize_items_value {K} (s : Q) (items : dict K Q) :
  ~ s == 0 -> normalize_items s items = ret (scaled s items).
Proof.
  intros Hs. induction items as [|[key value] items IH]; simpl; [done|].
  unfold py_div. destruct (Qeq_bool s 0) eqn:E; [by apply Qeq_bool_iff in E|].
  by rewrite bind_ret, IH, bind_ret.
Qed.

Lemma normalize_items_raise {K} (s : Q) (items : dict K Q) :
  items <> [] -> s == 0 -> normalize_items s items = raise ZeroDivisionError.
Proof.
  intros Hne Hs. destruct items as [|[key value] items]; [done|]. simpl.
  unfold py_div. apply Qeq_bool_iff in Hs. by rewrite Hs.
Qed.

Lemma normalize_distribution_value {K} (d : dict K Q) :
  nonzero_sum d ->
  exists d', normalize_distribution d = ret d' /\ normalized_from d d'.
Proof.
  intros Hs. exists (scaled (sum (values d)) d). unfold normalize_distribution.
  split; [by apply normalize_items_value|].
  assert (Hone : sum (values (scaled (sum (values d)) d)) == 1).
  { rewrite sum_scaled. by field. }
  split; [done|]. split; [done|]. split.
  { rewrite Hone. by vm_compute. }
  intros i j k1 v1 k2 v2 k1' v1' k2' v2' Hi Hj Hi' Hj'.
  rewrite lookup_scaled in Hi', Hj'. rewrite Hi in Hi'. rewrite Hj in Hj'.
  simpl in *. injection Hi' as <- <-. injection Hj' as <- <-.
  split; [done|]. split; [done|]. by field.
Qed.

(** [normalize] on a table whose histograms have sums other than zero. *)
Lemma normalize_value (probabilities : dict string features) :
  Forall (fun entry => nonzero_sum (f_gene (snd entry))
                       /\ nonzero_sum (f_trait (snd entry))) probabilities ->
  exists probabilities',
    normalize probabilities = ret probabilities'
    /\ Forall2 (fun old new =>
                  fst new = fst old
                  /\ normalized_from (f_gene (snd old)) (f_gene (snd new))
                  /\ normalized_from (f_trait (snd old)) (f_trait (snd new)))
               probabilities probabilities'.
Proof.
  induction 1 as [|[person fs] probabilities [Hg Ht] _ (rest & E & Hrest)]; simpl.
  - exists []. split; [done|constructor].
  - destruct (normalize_distribution_value (f_gene fs) Hg) as (by_gene & -> & Hg').
    destruct (normalize_distribution_value (f_trait fs) Ht) as (by_trait & -> & Ht').
    rewrite !bind_ret, E, bind_ret. eexists. split; [done|].
    constructor; [|done]. done.
Qed.

(** C5: when the sum of every histogram is not zero, [normalize] succeeds
    and replaces every gene histogram and every trait histogram by the
    histogram with each bucket divided by that histogram's own sum, so that
    each sums to 1 (hence within 1e-9 of 1) and the proportions between its
    buckets are those of the old one. *)
Theorem normalize_sums_to_one (probabilities : dict string features) :
  Forall (fun entry => nonzero_sum (f_gene (snd entry))
                       /\ nonzero_sum (f_trait (snd entry))) probabilities ->
  exists probabilities',
    normalize probabilities = ret probabilities'
    /\ Forall2 (fun old new =>
                  fst new = fst old
                  /\ normalized_from (f_gene (snd old)) (f_gene (snd new))
                  /\ normalized_from (f_trait (snd old)) (f_trait (snd new)))
               probabilities probabilities'.
Proof. intros Hsums. by apply normalize_value. Qed.

Lemma normalize_sums_to_one_witness :
  exists probabilities',
    normalize raw_table = ret probabilities'
    /\ Forall2 (fun old new =>
                  fst new = fst old
                  /\ normalized_from (f_gene (snd old)) (f_gene (snd new))
                  /\ normalized_from (f_trait (snd old)) (f_trait (snd new)))
               raw_table probabilities'.
Proof.
  apply (normalize_sums_to_one raw_table).
  apply Forall_cons_2; [|apply Forall_nil_2].
  split; intros H; vm_compute in H; discriminate H.
Defined.

Lemma normalize_distribution_cases {K} (d : dict K Q) :
  (zero_sum d /\ normalize_distribution d = raise ZeroDivisionError)
  \/ (~ zero_sum d /\ exists d', normalize_distribution d = ret d').
Proof.
  unfold normalize_distribution, zero_sum.
  destruct d as [|item d]; [right; split; [by intros []|by exists []]|].
  destruct (Qeq_dec (sum (values (item :: d))) 0) as [Hs|Hs].
  - left. split; [done|]. by apply normalize_items_raise.
  - right. split; [by intros []|]. eexists. by apply normalize_items_value.
Qed.

(** C6 (amended): when some histogram with at least one bucket sums to
    zero, [normalize] raises [ZeroDivisionError]; it returns no table. *)
Theorem normalize_zero_sum_raises (probabilities : dict string features) :
  Exists (fun entry => zero_sum (f_gene (snd entry))
                       \/ zero_sum (f_trait (snd entry))) probabilities ->
  normalize probabilities = raise ZeroDivisionError.
Proof.
  induction probabilities as [|[person fs] probabilities IH]; intros Hex.
  - by apply Exists_nil in Hex.
  - simpl.
    destruct (normalize_distribution_cases (f_gene fs)) as [[_ ->]|[Hg (by_gene & ->)]];
      [done|].
    rewrite bind_ret.
    destruct (normalize_distribution_cases (f_trait fs)) as [[_ ->]|[Ht (by_trait & ->)]];
      [done|].
    rewrite bind_ret.
    apply Exists_cons in Hex as [[?|?]|Hex]; [done|done|].
    by rewrite (IH Hex).
Qed.

Lemma normalize_zero_sum_raises_witness :
  normalize [("Harry", initial_features)] = raise ZeroDivisionError.
Proof.
  apply (normalize_zero_sum_raises [("Harry", initial_features)]).
  apply Exists_cons_hd. left. split; [discriminate|reflexivity].
Defined.

(** C6 as stated fails: the exception carries nothing that tells the
    individuals apart. A table whose only individual is Harry and a table
    whose only individual is Lily fail with the same exception, so no reading
    of the exception gives the offending individual. *)
Lemma normalize_error_counterexample :
  normalize [("Harry", initial_features)] = raise ZeroDivisionError
  /\ normalize [("Lily", initial_features)] = raise ZeroDivisionError
  /\ ~ exists offender : exn -> string,
        forall person e,
          outcome (normalize [(person, initial_features)]) = inl e -> offender e = person.
Proof.
  split; [done|]. split; [done|]. intros (offender & H).
  pose proof (H "Harry" ZeroDivisionError eq_refl) as H1.
  pose proof (H "Lily" ZeroDivisionError eq_refl) as H2.
  rewrite H1 in H2. discriminate.
Qed.

(** ** Loading the data *)

Section DictSet.
Context {K : Type} `{EqDecision K} {V : Type}.
Implicit Types (d : dict K V) (k : K) (v : V).

Lemma dict_get_set_eq d k v : dict_get (dict_set k v d) k = ret v.
Proof.
  induction d as [|[k' v'] d IH]; simpl.
  - by rewrite decide_True.
  - destruct (decide (k = k')) as [->|Hne]; simpl.
    + by rewrite decide_True.
    + by rewrite decide_False.
Qed.

Lemma dict_get_set_ne d k k' v : k <> k' -> dict_get (dict_set k v d) k' = dict_get d k'.
Proof.
  intros Hne. induction d as [|[k0 v0] d IH]; simpl.
  - by rewrite decide_False.
  - destruct (decide (k = k0)) as [->|Hne0]; simpl.
    + by rewrite !decide_False.
    + destruct (decide (k' = k0)); [done|apply IH].
Qed.
End DictSet.

Lemma dict_get_cell (row : dict string string) column :
  column ∈ keys row -> dict_get row column = ret (cell row column).
Proof.
  intros Hc. destruct (dict_get_elem_of row column Hc) as (text & E & _).
  unfold cell. by rewrite E.
Qed.

(** One round of the loop of [load_data] stores the row under its name. *)
Lemma load_data_row (data : dict string person) (row : dict string string) :
  has_columns row ->
  load_data_body data row
  = ret (dict_set (cell row "name") (person_of_row row) data).
Proof.
  intros Hrow. unfold has_columns in Hrow. unfold load_data_body.
  rewrite !Forall_cons in Hrow. destruct Hrow as (Hn & Hm & Hf & Ht & _).
  rewrite !dict_get_cell by done. rewrite !bind_ret. unfold person_of_row.
  destruct (decide (cell row "trait" = "1")); rewrite !bind_ret; [done|].
  by destruct (decide (cell row "trait" = "0")).
Qed.

Lemma load_data_loop (reader : list (dict string string)) :
  Forall has_columns reader ->
  forall data0, exists data,
    for_each reader load_data_body data0 = ret data
    /\ (forall front row back,
          reader = front ++ row :: back ->
          cell row "name" ∉ map (fun r => cell r "name") back ->
          dict_get data (cell row "name") = ret (person_of_row row))
    /\ (forall name, name ∉ map (fun r => cell r "name") reader ->
          dict_get data name = dict_get data0 name).
Proof.
  induction 1 as [|row reader Hrow _ IH]; intros data0.
  - exists data0. split; [done|]. split; [|done].
    intros front row back E. by destruct front.
  - cbn [for_each]. rewrite (load_data_row data0 row Hrow), bind_ret.
    destruct (IH (dict_set (cell row "name") (person_of_row row) data0))
      as (data & E & Hlast & Hother).
    exists data. split; [done|]. split.
    + intros front row' back Ereader Hfresh. destruct front as [|r front].
      * injection Ereader as <- <-. rewrite (Hother _ Hfresh).
        apply dict_get_set_eq.
      * injection Ereader as <- ->. by apply (Hlast front row' back).
    + intros name Hname. simpl in Hname. apply not_elem_of_cons in Hname as [Hne Hname].
      rewrite (Hother _ Hname). by apply dict_get_set_ne.
Qed.

(** C7 (amended): [load_data] validates nothing. For rows that have the four
    columns it returns a dataset, in which the last row of each name is
    stored as it was read: a blank parent as no parent, any other parent
    text as that name, whether or not it is a row of the file and whether
    or not the other parent is blank; the trait ["1"] as true, ["0"] as
    false, and any other text as unknown. *)
Theorem load_data_no_validation (reader : list (dict string string)) :
  Forall has_columns reader ->
  exists data,
    load_data reader = ret data
    /\ forall front row back,
         reader = front ++ row :: back ->
         cell row "name" ∉ map (fun r => cell r "name") back ->
         dict_get data (cell row "name") = ret (person_of_row row).
Proof.
  intros Hreader. destruct (load_data_loop reader Hreader []) as (data & E & Hlast & _).
  exists data. split; [exact E|exact Hlast].
Qed.

Ltac has_columns_tac :=
  repeat (apply Forall_cons_2;
          [unfold has_columns; repeat (apply Forall_cons_2; [set_solver|]); apply Forall_nil_2|]);
  apply Forall_nil_2.

Lemma load_data_no_validation_witness :
  exists data,
    load_data rows_one_parent = ret data
    /\ forall front row back,
         rows_one_parent = front ++ row :: back ->
         cell row "name" ∉ map (fun r => cell r "name") back ->
         dict_get data (cell row "name") = ret (person_of_row row).
Proof.
  apply (load_data_no_validation rows_one_parent). has_columns_tac.
Defined.

(** C7 as stated fails: a row whose parents are no rows of the file, a row
    with one parent only, and a row whose trait is the text [yes] are all
    loaded, the last with an unknown trait. *)
Lemma load_data_counterexample :
  load_data rows_unknown_parents
  = ret [ ("Harry", Person "Harry" (Some "Lily") (Some "James") None) ]
  /\ load_data rows_one_parent = ret family_one_parent
  /\ load_data rows_malformed_trait = ret [ ("Harry", Person "Harry" None None None) ].
Proof. split; [|split]; by vm_compute. Qed.

(** ** What [load_data] returns is a dictionary *)

Lemma NoDup_keys_dict_set {K} `{EqDecision K} {V} (d : dict K V) k v :
  NoDup (keys d) -> NoDup (keys (dict_set k v d)).
Proof.
  induction d as [|[k' v'] d IH]; simpl; intros Hnd.
  - apply NoDup_singleton.
  - destruct (decide (k = k')) as [->|Hne]; [done|]. simpl.
    apply NoDup_cons in Hnd as [Hk' Hnd]. apply NoDup_cons. split; [|by apply IH].
    intros Hin. apply Hk'. clear -Hin Hne.
    induction d as [|[k0 v0] d IH]; simpl in *.
    + apply list_elem_of_singleton in Hin. congruence.
    + destruct (decide (k = k0)) as [->|Hne0]; [done|]. simpl in Hin.
      apply elem_of_cons in Hin as [->|Hin]; [left|right; by apply IH].
Qed.

Lemma dict_get_cases {K} `{EqDecision K} {V} (d : dict K V) k :
  dict_get d k = raise KeyError \/ exists v, dict_get d k = ret v.
Proof.
  induction d as [|[k' v'] d IH]; simpl; [by left|].
  destruct (decide (k = k')); [right; by eexists|done].
Qed.

Lemma load_data_body_cases (data : dict string person) (row : dict string string) :
  load_data_body data row = raise KeyError
  \/ exists name family, load_data_body data row = ret (dict_set name family data).
Proof.
  unfold load_data_body.
  destruct (dict_get_cases row "name") as [->|(name & ->)]; [by left|].
  destruct (dict_get_cases row "mother") as [->|(mother & ->)]; [by left|].
  destruct (dict_get_cases row "father") as [->|(father & ->)]; [by left|].
  destruct (dict_get_cases row "trait") as [->|(trait & ->)]; [by left|].
  rewrite !bind_ret. right. destruct (decide (trait = "1")); rewrite !bind_ret; by do 2 eexists.
Qed.

(** No name is a key of the loaded dataset twice. *)
Lemma load_data_NoDup (reader : list (dict string string)) (data : dict string person) :
  load_data reader = ret data -> NoDup (keys data).
Proof.
  unfold load_data.
  assert (H0 : NoDup (keys ([] : dict string person))) by apply NoDup_nil_2.
  revert H0. generalize ([] : dict string person) as data0.
  induction reader as [|row reader IH]; intros data0 H0; cbn [for_each].
  - by intros [= <-].
  - destruct (load_data_body_cases data0 row) as [->|(name & family & ->)]; [done|].
    rewrite bind_ret. apply IH. by apply NoDup_keys_dict_set.
Qed.

(** ** Sums and products over lists *)

Section SumProd.
Context {A : Type}.
Implicit Types (f g : A -> Q) (l : list A).

Lemma sum_over_ext f g l :
  (forall x, x ∈ l -> f x == g x) -> sum_over f l == sum_over g l.
Proof.
  induction l as [|x l IH]; intros Hfg; simpl; [reflexivity|].
  rewrite (Hfg x) by left. rewrite IH; [reflexivity|].
  intros y Hy. apply Hfg. by right.
Qed.

Lemma prod_over_ext f g l :
  (forall x, x ∈ l -> f x == g x) -> prod_over f l == prod_over g l.
Proof.
  induction l as [|x l IH]; intros Hfg; simpl; [reflexivity|].
  rewrite (Hfg x) by left. rewrite IH; [reflexivity|].
  intros y Hy. apply Hfg. by right.
Qed.

Lemma sum_over_app f l1 l2 :
  sum_over f (l1 ++ l2) == sum_over f l1 + sum_over f l2.
Proof. induction l1 as [|x l1 IH]; simpl; [ring|]. rewrite IH. ring. Qed.

Lemma sum_over_scal (c : Q) f l :
  sum_over (fun x => c * f x) l == c * sum_over f l.
Proof. induction l as [|x l IH]; simpl; [ring|]. rewrite IH. ring. Qed.

Lemma sum_over_Permutation f l1 l2 :
  l1 ≡ₚ l2 -> sum_over f l1 == sum_over f l2.
Proof.
  induction 1 as [|x l1 l2 _ IH|x y l|l1 l2 l3 _ IH1 _ IH2]; simpl.
  - reflexivity.
  - by rewrite IH.
  - ring.
  - by rewrite IH1.
Qed.
End SumProd.

Lemma sum_over_map {A B} (f : B -> Q) (g : A -> B) (l : list A) :
  sum_over f (map g l) = sum_over (fun x => f (g x)) l.
Proof. induction l as [|x l IH]; simpl; [done|]. by rewrite IH. Qed.

(** ** Summing a product over all subsets *)

Lemma subsets_fresh (x : string) (l : list string) (X : gset string) :
  x ∉ l -> X ∈ subsets l -> x ∉ X.
Proof. intros Hx HX%elem_of_subsets. set_solver. Qed.

(** The sum, over the subsets [X] of the items of [l] outside [A], of the
    product over [l] of a factor that depends on the membership in [X],
    is the product of the sums of the two factors, where an item of [A]
    has its non-member factor only. *)
Lemma sum_subsets_filter (A : gset string) (h : string -> bool -> Q) (l : list string) :
  NoDup l ->
  sum_over (fun X => prod_over (fun i => h i (bool_decide (i ∈ X))) l)
           (subsets (filter (fun i => i ∉ A) l))
  == prod_over (fun i => if decide (i ∈ A) then h i false
                         else h i false + h i true) l.
Proof.
  induction l as [|x l IH]; intros Hnd.
  - simpl. ring.
  - apply NoDup_cons in Hnd as [Hx Hnd]. specialize (IH Hnd).
    assert (Hx' : x ∉ filter (fun i => i ∉ A) l).
    { intros Hin%list_elem_of_filter. tauto. }
    assert (Hout : forall X, X ∈ subsets (filter (fun i => i ∉ A) l) ->
              prod_over (fun i => h i (bool_decide (i ∈ X))) (x :: l)
              == h x false * prod_over (fun i => h i (bool_decide (i ∈ X))) l).
    { intros X HX. simpl. rewrite bool_decide_eq_false_2; [reflexivity|].
      by apply (subsets_fresh x _ X Hx'). }
    assert (Hin : forall X, X ∈ subsets (filter (fun i => i ∉ A) l) ->
              prod_over (fun i => h i (bool_decide (i ∈ {[x]} ∪ X))) (x :: l)
              == h x true * prod_over (fun i => h i (bool_decide (i ∈ X))) l).
    { intros X HX. simpl. rewrite bool_decide_eq_true_2 by set_solver.
      apply Qmult_comp; [reflexivity|]. apply prod_over_ext. intros i Hi.
      assert (i <> x) by (intros ->; done).
      by rewrite (bool_decide_ext (i ∈ {[x]} ∪ X) (i ∈ X)) by set_solver. }
    cbn [prod_over fold_right]. fold (prod_over (fun i => if decide (i ∈ A) then h i false
                         else h i false + h i true) l).
    rewrite <- IH. destruct (decide (x ∈ A)) as [HA|HA].
    + rewrite filter_cons_False by tauto.
      rewrite (sum_over_ext _ _ _ Hout). apply sum_over_scal.
    + rewrite filter_cons_True by done. cbn [subsets].
      rewrite sum_over_app, sum_over_map.
      rewrite (sum_over_ext _ _ _ Hout), (sum_over_ext _ _ _ Hin).
      rewrite !sum_over_scal. ring.
Qed.

Lemma filter_outside (A : gset string) (l : list string) :
  (forall i, i ∈ l -> i ∉ A) -> filter (fun i => i ∉ A) l = l.
Proof.
  induction l as [|x l IH]; intros Hl; [done|].
  rewrite filter_cons_True by (apply Hl; left).
  rewrite IH; [done|]. intros i Hi. apply Hl. by right.
Qed.

Lemma sum_subsets (h : string -> bool -> Q) (l : list string) :
  NoDup l ->
  sum_over (fun X => prod_over (fun i => h i (bool_decide (i ∈ X))) l) (subsets l)
  == prod_over (fun i => h i false + h i true) l.
Proof.
  intros Hnd. pose proof (sum_subsets_filter ∅ h l Hnd) as H.
  rewrite (filter_outside ∅ l) in H by set_solver. rewrite H.
  apply prod_over_ext. intros i _. by rewrite decide_False by set_solver.
Qed.

Lemma powerset_difference_subsets (l : list string) (A : gset string) :
  NoDup l ->
  powerset (list_to_set l ∖ A) ≡ₚ subsets (filter (fun i => i ∉ A) l).
Proof.
  intros Hnd.
  assert (E : list_to_set l ∖ A = list_to_set (C := gset string) (filter (fun i => i ∉ A) l)).
  { apply set_eq. intros i.
    rewrite elem_of_difference, !elem_of_list_to_set, list_elem_of_filter. tauto. }
  rewrite E. apply powerset_subsets. by apply NoDup_filter.
Qed.

(** The sum over all the assignments that [main] enumerates without
    evidence, of a product over the individuals of a factor that depends on
    the individual's gene count and trait, is the product over the
    individuals of the sum of the six factors. *)
Lemma sum_assignments (h : string -> nat -> bool -> Q) (l : list string) :
  NoDup l ->
  sum_over (fun have_trait =>
    sum_over (fun one_gene =>
      sum_over (fun two_genes =>
        prod_over (fun i => h i (gene_count (Some i) one_gene two_genes)
                              (bool_decide (i ∈ have_trait))) l)
        (powerset (list_to_set l ∖ one_gene)))
      (powerset (list_to_set l)))
    (powerset (list_to_set l))
  == prod_over (fun i => (h i 0%nat false + h i 2%nat false + h i 1%nat false)
                         + (h i 0%nat true + h i 2%nat true + h i 1%nat true)) l.
Proof.
  intros Hnd.
  rewrite (sum_over_Permutation _ _ _ (powerset_subsets l Hnd)).
  rewrite <- (sum_subsets (fun i t => h i 0%nat t + h i 2%nat t + h i 1%nat t) l Hnd).
  apply sum_over_ext. intros ht _.
  rewrite (sum_over_Permutation _ _ _ (powerset_subsets l Hnd)).
  rewrite <- (sum_subsets
                (fun i b => if b then h i 1%nat (bool_decide (i ∈ ht))
                            else h i 0%nat (bool_decide (i ∈ ht))
                                 + h i 2%nat (bool_decide (i ∈ ht))) l Hnd).
  apply sum_over_ext. intros og _.
  rewrite (sum_over_Permutation _ _ _ (powerset_difference_subsets l og Hnd)).
  set (k := fun (i : string) (b : bool) =>
              if b then h i 2%nat (bool_decide (i ∈ ht))
              else if decide (i ∈ og) then h i 1%nat (bool_decide (i ∈ ht))
                   else h i 0%nat (bool_decide (i ∈ ht))).
  rewrite (sum_over_ext _ (fun tg => prod_over (fun i => k i (bool_decide (i ∈ tg))) l)).
  - rewrite sum_subsets_filter by done. apply prod_over_ext. intros i _. unfold k.
    destruct (decide (i ∈ og)) as [Hi|Hi].
    + rewrite (bool_decide_eq_true_2 (i ∈ og)) by done. ring.
    + rewrite (bool_decide_eq_false_2 (i ∈ og)) by done. ring.
  - intros tg _. apply prod_over_ext. intros i _. unfold gene_count, k.
    destruct (decide (i ∈ tg)) as [Hi|Hi].
    + rewrite (bool_decide_eq_true_2 (i ∈ tg)) by done. ring.
    + rewrite (bool_decide_eq_false_2 (i ∈ tg)) by done.
      destruct (decide (i ∈ og)); ring.
Qed.

(** ** The mass that [update] adds *)

Lemma dict_modify_get {K} `{EqDecision K} {V} (f : V -> py V) (d : dict K V) k v v' :
  dict_get d k = ret v ->
  f v = ret v' ->
  exists d', dict_modify f k d = ret d'
    /\ keys d' = keys d
    /\ dict_get d' k = ret v'
    /\ forall k', k' <> k -> dict_get d' k' = dict_get d k'.
Proof.
  intros Hget Hf. revert Hget.
  induction d as [|[k0 v0] d IH]; simpl; intros Hget; [discriminate Hget|].
  destruct (decide (k = k0)) as [->|Hne].
  - injection Hget as ->. rewrite Hf, bind_ret. eexists. split; [done|].
    split; [done|]. simpl. rewrite decide_True by done. split; [done|].
    intros k' Hk'. by destruct (decide (k' = k0)).
  - destruct (IH Hget) as (d' & -> & Hkeys & Hk & Hother). rewrite bind_ret.
    eexists. split; [done|]. simpl. rewrite Hkeys. split; [done|].
    rewrite decide_False by done. split; [done|].
    intros k' Hk'. destruct (decide (k' = k0)); [done|]. by apply Hother.
Qed.

Lemma bucket_add {K} `{EqDecision K} (d : dict K Q) k p :
  k ∈ keys d ->
  exists d', dict_modify (fun v => ret (v + p)) k d = ret d'
    /\ keys d' = keys d
    /\ forall k', bucket d' k' = if decide (k' = k) then bucket d k' + p else bucket d k'.
Proof.
  intros Hk. destruct (dict_get_elem_of d k Hk) as (v & Hget & _).
  destruct (dict_modify_get (fun v => ret (v + p)) d k v (v + p) Hget eq_refl)
    as (d' & E & Hkeys & Hk' & Hother).
  exists d'. split; [done|]. split; [done|]. intros k'. unfold bucket.
  destruct (decide (k' = k)) as [->|Hne].
  - by rewrite Hk', Hget.
  - by rewrite Hother.
Qed.

Lemma update_body_mass one_gene two_genes have_trait p probabilities person :
  well_shaped probabilities ->
  person ∈ keys probabilities ->
  exists probabilities',
    update_body one_gene two_genes have_trait p probabilities person = ret probabilities'
    /\ keys probabilities' = keys probabilities
    /\ well_shaped probabilities'
    /\ forall k b,
         mass probabilities' k b
         = if decide (k = person) then
             if hits one_gene two_genes have_trait k b
             then mass probabilities k b + p else mass probabilities k b
           else mass probabilities k b.
Proof.
  intros Hshape Hperson.
  destruct (update_body_total one_gene two_genes have_trait p probabilities person
              Hshape Hperson) as (t' & E & Hkeys & Hshape').
  exists t'. split; [done|]. split; [done|]. split; [done|].
  destruct (dict_get_elem_of probabilities person Hperson) as (fs & Hget & Hin).
  assert (Hfs : keys (f_gene fs) = [2; 1; 0]%nat /\ keys (f_trait fs) = [true; false]).
  { unfold well_shaped in Hshape. rewrite Forall_forall in Hshape. apply (Hshape _ Hin). }
  destruct Hfs as [Hg Ht].
  destruct (bucket_add (f_gene fs) (gene_count (Some person) one_gene two_genes) p)
    as (by_gene & Eg & _ & Hbg); [rewrite Hg; apply gene_count_keys|].
  destruct (bucket_add (f_trait fs) (bool_decide (person ∈ have_trait)) p)
    as (by_trait & Et & _ & Hbt); [rewrite Ht; apply trait_keys|].
  unfold update_body in E.
  edestruct (dict_modify_get
              (fun fs => by_gene <- dict_modify (fun v => ret (v + p))
                                      (gene_count (Some person) one_gene two_genes) (f_gene fs) ;;
                         by_trait <- dict_modify (fun v => ret (v + p))
                                       (bool_decide (person ∈ have_trait)) (f_trait fs) ;;
                         ret {| f_gene := by_gene; f_trait := by_trait |})
              probabilities person fs) as (t'' & E'' & _ & Hk & Hother); [done| |].
  { rewrite Eg, bind_ret, Et, bind_ret. reflexivity. }
  rewrite E in E''. injection E'' as <-.
  intros k b. unfold mass. destruct (decide (k = person)) as [->|Hne].
  - rewrite Hk, Hget. simpl. unfold hits, in_bucket. destruct b as [g|t].
    + rewrite Hbg. set (gc := gene_count (Some person) one_gene two_genes).
      destruct (decide (g = gc)) as [->|Hn].
      * by rewrite (bool_decide_eq_true_2 (gc = gc)).
      * by rewrite (bool_decide_eq_false_2 (gc = g)).
    + rewrite Hbt. by destruct (bool_decide (person ∈ have_trait)), t.
  - by rewrite Hother.
Qed.

Lemma update_loop_mass one_gene two_genes have_trait p (ks : list string) :
  NoDup ks ->
  forall probabilities,
    well_shaped probabilities ->
    (forall k, k ∈ ks -> k ∈ keys probabilities) ->
    exists probabilities',
      for_each ks (update_body one_gene two_genes have_trait p) probabilities
      = ret probabilities'
      /\ keys probabilities' = keys probabilities
      /\ well_shaped probabilities'
      /\ forall k b,
           mass probabilities' k b
           = if decide (k ∈ ks) then
               if hits one_gene two_genes have_trait k b
               then mass probabilities k b + p else mass probabilities k b
             else mass probabilities k b.
Proof.
  induction 1 as [|person ks Hperson Hnd IH]; intros t Hshape Hks.
  - exists t. split; [done|]. split; [done|]. split; [done|].
    intros k b. by rewrite decide_False by apply not_elem_of_nil.
  - destruct (update_body_mass one_gene two_genes have_trait p t person Hshape)
      as (t1 & E1 & Hkeys1 & Hshape1 & Hmass1); [apply Hks; left|].
    destruct (IH t1 Hshape1) as (t2 & E2 & Hkeys2 & Hshape2 & Hmass2).
    { intros k Hk. rewrite Hkeys1. apply Hks. by right. }
    exists t2. cbn [for_each]. rewrite E1, bind_ret. split; [done|].
    split; [congruence|]. split; [done|].
    intros k b. rewrite Hmass2, Hmass1.
    destruct (decide (k = person)) as [->|Hne].
    + rewrite (decide_False (P := person ∈ ks)) by done.
      by rewrite decide_True by left.
    + destruct (decide (k ∈ ks)) as [Hk|Hk].
      * by rewrite decide_True by (by right).
      * rewrite decide_False; [done|]. by intros [?|?]%elem_of_cons.
Qed.

(** On a table without duplicate names, [update] adds [p] to the bucket of
    each individual that the assignment puts there, and to no other. *)
Lemma update_mass probabilities one_gene two_genes have_trait p :
  NoDup (keys probabilities) ->
  well_shaped probabilities ->
  exists probabilities',
    outcome (update probabilities one_gene two_genes have_trait p) = inr probabilities'
    /\ keys probabilities' = keys probabilities
    /\ well_shaped probabilities'
    /\ forall k b,
         k ∈ keys probabilities ->
         mass probabilities' k b
         == mass probabilities k b
            + (if hits one_gene two_genes have_trait k b then p else 0).
Proof.
  intros Hnd Hshape.
  destruct (update_loop_mass one_gene two_genes have_trait p (keys probabilities) Hnd
              probabilities Hshape) as (t' & E & Hkeys & Hshape' & Hmass); [done|].
  exists t'. split; [unfold update; by rewrite E|]. split; [done|]. split; [done|].
  intros k b Hk. rewrite Hmass, decide_True by done.
  destruct (hits one_gene two_genes have_trait k b); ring.
Qed.

(** ** The mass that the enumeration accumulates *)

Lemma outcome_bind {A B} (m : py A) (f : A -> py B) a :
  outcome m = inr a -> outcome (bind m f) = outcome (f a).
Proof. destruct m as [l [e|a']]; simpl; [done|]. intros [= ->]. by destruct (f a). Qed.

(** A loop whose body always succeeds, keeps [I] and adds [c x] to the
    measure [m] of the state, adds the sum of the [c x]. *)
Lemma for_each_mass {A S} (I : S -> Prop) (m : S -> Q) (c : A -> Q)
    (l : list A) (body : S -> A -> py S) :
  (forall s x, I s -> x ∈ l ->
     exists s', outcome (body s x) = inr s' /\ I s' /\ m s' == m s + c x) ->
  forall s, I s ->
  exists s', outcome (for_each l body s) = inr s' /\ I s'
             /\ m s' == m s + sum_over c l.
Proof.
  induction l as [|x l IH]; intros Hbody s Hs; cbn [for_each sum_over fold_right].
  - exists s. split; [done|]. split; [done|]. ring.
  - destruct (Hbody s x Hs) as (s1 & E1 & H1 & Hm1); [left|].
    destruct IH with (s := s1) as (s2 & E2 & H2 & Hm2); [|done|].
    { intros s' y Hs' Hy. apply Hbody; [done|by right]. }
    exists s2. rewrite (outcome_bind _ _ _ E1). split; [done|]. split; [done|].
    fold (sum_over c l). rewrite Hm2, Hm1. ring.
Qed.

(** The mass in the bucket [b] of the individual [k] after the three loops
    of [main]. *)
Lemma enumerate_mass people probabilities k b :
  NoDup (keys probabilities) ->
  well_shaped probabilities ->
  k ∈ keys probabilities ->
  exists probabilities',
    outcome (enumerate people probabilities) = inr probabilities'
    /\ mass probabilities' k b
       == mass probabilities k b
          + sum_over (fun have_trait =>
              if evidence_fails people have_trait then 0
              else sum_over (fun one_gene =>
                     sum_over (fun two_genes =>
                       if hits one_gene two_genes have_trait k b
                       then joint_value people one_gene two_genes have_trait else 0)
                       (powerset (names_of people ∖ one_gene)))
                     (powerset (names_of people)))
              (powerset (names_of people)).
Proof.
  intros Hnd Hshape Hk. unfold enumerate. fold (names_of people).
  set (I := fun t => keys t = keys probabilities /\ well_shaped t).
  destruct (for_each_mass I (fun t => mass t k b)
    (fun have_trait =>
       if evidence_fails people have_trait then 0
       else sum_over (fun one_gene =>
              sum_over (fun two_genes =>
                if hits one_gene two_genes have_trait k b
                then joint_value people one_gene two_genes have_trait else 0)
                (powerset (names_of people ∖ one_gene)))
              (powerset (names_of people)))
    (powerset (names_of people))
    (fun probabilities have_trait =>
       fails_evidence <- any (contradicts people have_trait) (elements (names_of people)) ;;
       if fails_evidence then ret probabilities
       else
         for_each (powerset (names_of people)) (fun probabilities one_gene =>
           for_each (powerset (names_of people ∖ one_gene)) (fun probabilities two_genes =>
             p <- joint_probability people one_gene two_genes have_trait ;;
             update probabilities one_gene two_genes have_trait p)
             probabilities)
           probabilities)) with (s := probabilities) as (t & E & _ & Hm); [|done|by exists t].
  intros t have_trait Ht _.
  rewrite evidence_fails_value, bind_ret.
  destruct (evidence_fails people have_trait).
  { exists t. split; [done|]. split; [done|]. ring. }
  apply (for_each_mass I (fun t => mass t k b)); [|done].
  clear t Ht. intros t one_gene Ht _.
  apply (for_each_mass I (fun t => mass t k b)); [|done].
  clear t Ht. intros t two_genes [Hkeys Ht] _.
  destruct (joint_value_eq people one_gene two_genes have_trait) as (l & E).
  rewrite (bind_value _ _ _ _ E). cbn [outcome snd].
  destruct (update_mass t one_gene two_genes have_trait
              (joint_value people one_gene two_genes have_trait))
    as (t' & Eu & Hkeys' & Ht' & Hm); [by rewrite Hkeys|done|].
  exists t'. rewrite Eu. split; [done|]. split; [split; [congruence|done]|].
  apply Hm. by rewrite Hkeys.
Qed.

(** ** Founders without evidence *)

Lemma prod_over_zero {A} (f : A -> Q) (l : list A) k :
  k ∈ l -> f k == 0 -> prod_over f l == 0.
Proof.
  induction l as [|x l IH]; intros Hk H0; [by apply elem_of_nil in Hk|].
  simpl. apply elem_of_cons in Hk as [<-|Hk].
  - rewrite H0. ring.
  - rewrite IH by done. ring.
Qed.

Lemma prod_over_single {A} (f : A -> Q) (l : list A) k :
  NoDup l -> k ∈ l -> (forall i, i ∈ l -> i <> k -> f i == 1) ->
  prod_over f l == f k.
Proof.
  induction 1 as [|x l Hx Hnd IH]; intros Hk Hone; [by apply elem_of_nil in Hk|].
  simpl. apply elem_of_cons in Hk as [->|Hk].
  - assert (E : prod_over f l == 1).
    { transitivity (prod_over (fun _ : A => 1) l).
      - apply prod_over_ext. intros i Hi. apply Hone; [by right|]. by intros ->.
      - clear. induction l as [|y l IH]; simpl; [reflexivity|]. rewrite IH. ring. }
    rewrite E. ring.
  - rewrite IH; [|done|intros i Hi; apply Hone; by right].
    rewrite (Hone x); [ring|left|]. by intros ->.
Qed.

Lemma founders_valid people : founders_without_evidence people -> valid_parentage people.
Proof.
  intros H. eapply Forall_impl; [exact H|].
  intros [person family] (Hm & Hf & _). by split.
Qed.

Lemma founders_evidence people person :
  founders_without_evidence people -> evidence people person = None.
Proof.
  unfold evidence. induction 1 as [|[k family] people (_ & _ & Ht) _ IH]; simpl; [done|].
  by destruct (decide (person = k)).
Qed.

Lemma founders_evidence_fails people have_trait :
  founders_without_evidence people -> evidence_fails people have_trait = false.
Proof.
  intros Hf. apply evidence_fails_false. intros person.
  by rewrite (founders_evidence people person Hf).
Qed.

Lemma founders_joint_value people one_gene two_genes have_trait :
  founders_without_evidence people ->
  joint_value people one_gene two_genes have_trait
  == prod_over (fun i => founder_weight (gene_count (Some i) one_gene two_genes)
                                        (bool_decide (i ∈ have_trait)))
               (keys people).
Proof.
  intros Hf.
  destruct (joint_probability_value people one_gene two_genes have_trait)
    as (l & q & E & _ & Hq).
  destruct (Hq (founders_valid people Hf)) as [_ Hq'].
  unfold joint_value. rewrite E. cbn [outcome snd]. rewrite Hq'. clear -Hf.
  induction Hf as [|[person family] people (Hm & Hfa & _) _ IH]; simpl; [reflexivity|].
  simpl in Hm, Hfa. rewrite Hm, Hfa, IH. reflexivity.
Qed.

Lemma founders_hit_value people one_gene two_genes have_trait k b :
  founders_without_evidence people ->
  k ∈ keys people ->
  (if hits one_gene two_genes have_trait k b
   then joint_value people one_gene two_genes have_trait else 0)
  == prod_over (fun i => restricted_weight k b i (gene_count (Some i) one_gene two_genes)
                                           (bool_decide (i ∈ have_trait)))
               (keys people).
Proof.
  intros Hf Hk. destruct (hits one_gene two_genes have_trait k b) eqn:Hhit.
  - rewrite founders_joint_value by done. apply prod_over_ext. intros i _.
    unfold restricted_weight. destruct (decide (i = k)) as [->|]; [|reflexivity].
    unfold hits in Hhit. rewrite Hhit. reflexivity.
  - symmetry. apply (prod_over_zero _ _ k); [done|].
    unfold restricted_weight. rewrite decide_True by done.
    unfold hits in Hhit. rewrite Hhit. reflexivity.
Qed.

(** The mass that the enumeration gives the bucket [b] of a founder. *)
Lemma founders_mass_sum people k b :
  NoDup (keys people) ->
  founders_without_evidence people ->
  k ∈ keys people ->
  sum_over (fun have_trait =>
    if evidence_fails people have_trait then 0
    else sum_over (fun one_gene =>
           sum_over (fun two_genes =>
             if hits one_gene two_genes have_trait k b
             then joint_value people one_gene two_genes have_trait else 0)
             (powerset (names_of people ∖ one_gene)))
           (powerset (names_of people)))
    (powerset (names_of people))
  == founder_marginal b.
Proof.
  intros Hnd Hf Hk.
  rewrite (sum_over_ext _
    (fun have_trait =>
       sum_over (fun one_gene =>
         sum_over (fun two_genes =>
           prod_over (fun i => restricted_weight k b i
                                 (gene_count (Some i) one_gene two_genes)
                                 (bool_decide (i ∈ have_trait)))
                     (keys people))
           (powerset (names_of people ∖ one_gene)))
         (powerset (names_of people)))).
  - unfold names_of. rewrite (sum_assignments (restricted_weight k b) (keys people) Hnd).
    rewrite (prod_over_single _ _ k Hnd Hk).
    + unfold restricted_weight, founder_marginal. simpl.
      destruct (decide (k = k)) as [_|?]; [ring|done].
    + intros i _ Hi. unfold restricted_weight.
      destruct (decide (i = k)) as [?|_]; [done|]. by vm_compute.
  - intros ht _. rewrite founders_evidence_fails by done.
    apply sum_over_ext. intros og _. apply sum_over_ext. intros tg _.
    by apply founders_hit_value.
Qed.

(** ** The posterior of founders without evidence *)

Lemma initial_keys (l : list string) :
  keys (map (fun person => (person, initial_features)) l) = l.
Proof. unfold keys. rewrite map_map. simpl. apply map_id. Qed.

Lemma initial_mass (l : list string) k b :
  mass (map (fun person => (person, initial_features)) l) k b = 0.
Proof.
  unfold mass. induction l as [|x l IH]; simpl; [done|].
  destruct (decide (k = x)); [|done]. simpl.
  destruct b as [g|[|]]; [|done..]. by destruct g as [|[|[|g]]].
Qed.

(** The mass of every bucket of every founder after the three loops. *)
Lemma founders_enumerate people :
  NoDup (keys people) ->
  founders_without_evidence people ->
  exists probabilities,
    outcome (enumerate people (map (fun person => (person, initial_features)) (keys people)))
    = inr probabilities
    /\ keys probabilities = keys people
    /\ well_shaped probabilities
    /\ forall k b, k ∈ keys people -> mass probabilities k b == founder_marginal b.
Proof.
  intros Hnd Hf.
  set (t0 := map (fun person => (person, initial_features)) (keys people)).
  destruct (enumerate_value people t0) as (t & E & Hkeys & Hshape);
    [apply initial_well_shaped|].
  exists t. rewrite E. split; [done|]. unfold t0 in Hkeys. rewrite initial_keys in Hkeys.
  split; [done|]. split; [done|]. intros k b Hk.
  destruct (enumerate_mass people t0 k b) as (t' & E' & Hm).
  - unfold t0. by rewrite initial_keys.
  - apply initial_well_shaped.
  - unfold t0. by rewrite initial_keys.
  - rewrite E in E'. injection E' as <-.
    rewrite Hm. unfold t0. rewrite initial_mass.
    rewrite founders_mass_sum by done. ring.
Qed.

Lemma founder_marginal_values :
  founder_marginal (gene_bucket 2) == 0.01
  /\ founder_marginal (gene_bucket 1) == 0.03
  /\ founder_marginal (gene_bucket 0) == 0.96
  /\ founder_marginal (trait_bucket true) == 0.0329
  /\ founder_marginal (trait_bucket false) == 0.9671.
Proof. repeat split; by vm_compute. Qed.

(** The two histograms of a founder before normalisation. *)
Lemma founders_histograms (probabilities : dict string features) person fs :
  NoDup (keys probabilities) ->
  well_shaped probabilities ->
  (forall b, mass probabilities person b == founder_marginal b) ->
  (person, fs) ∈ probabilities ->
  exists q2 q1 q0 qt qf,
    f_gene fs = [(2%nat, q2); (1%nat, q1); (0%nat, q0)]
    /\ f_trait fs = [(true, qt); (false, qf)]
    /\ q2 == 0.01 /\ q1 == 0.03 /\ q0 == 0.96
    /\ qt == 0.0329 /\ qf == 0.9671.
Proof.
  intros Hnd Hshape Hmass Hin.
  pose proof (dict_get_NoDup probabilities person fs Hnd Hin) as Hget.
  unfold well_shaped in Hshape. rewrite Forall_forall in Hshape.
  destruct (Hshape _ Hin) as [Hg Ht]. simpl in Hg, Ht.
  destruct (f_gene fs) as [|[g2 q2] [|[g1 q1] [|[g0 q0] [|]]]] eqn:Eg; try discriminate Hg.
  destruct (f_trait fs) as [|[tt qt] [|[tf qf] [|]]] eqn:Et; try discriminate Ht.
  simpl in Hg, Ht. injection Hg as -> -> ->. injection Ht as -> ->.
  exists q2, q1, q0, qt, qf. split; [done|]. split; [done|].
  destruct founder_marginal_values as (H2 & H1 & H0 & HT & HF).
  pose proof (Hmass (gene_bucket 2)) as M2. pose proof (Hmass (gene_bucket 1)) as M1.
  pose proof (Hmass (gene_bucket 0)) as M0. pose proof (Hmass (trait_bucket true)) as MT.
  pose proof (Hmass (trait_bucket false)) as MF.
  unfold mass in M2, M1, M0, MT, MF. rewrite Hget in M2, M1, M0, MT, MF.
  cbn [outcome snd ret] in M2, M1, M0, MT, MF. rewrite Eg in M2, M1, M0. rewrite Et in MT, MF.
  change (bucket [(2%nat, q2); (1%nat, q1); (0%nat, q0)] 2%nat) with q2 in M2.
  change (bucket [(2%nat, q2); (1%nat, q1); (0%nat, q0)] 1%nat) with q1 in M1.
  change (bucket [(2%nat, q2); (1%nat, q1); (0%nat, q0)] 0%nat) with q0 in M0.
  change (bucket [(true, qt); (false, qf)] true) with qt in MT.
  change (bucket [(true, qt); (false, qf)] false) with qf in MF.
  rewrite M2, M1, M0, MT, MF. done.
Qed.

(** C9 (amended): in exact rational arithmetic, in a dataset of founders
    without trait evidence, [main] gives every founder the gene-count
    distribution 0.01 (2 copies), 0.03 (1 copy), 0.96 (no copy), the prior,
    however many founders the dataset has. *)
Theorem founders_posterior_is_prior (people : dict string person) :
  NoDup (keys people) ->
  founders_without_evidence people ->
  exists probabilities,
    outcome (main people) = inr probabilities
    /\ keys probabilities = keys people
    /\ forall person fs,
         (person, fs) ∈ probabilities ->
         exists q2 q1 q0,
           f_gene fs = [(2%nat, q2); (1%nat, q1); (0%nat, q0)]
           /\ q2 == 0.01 /\ q1 == 0.03 /\ q0 == 0.96.
Proof.
  intros Hnd Hf.
  destruct (founders_enumerate people Hnd Hf) as (t & E & Hkeys & Hshape & Hmass).
  assert (Hhist : forall person fs, (person, fs) ∈ t ->
            exists q2 q1 q0 qt qf,
              f_gene fs = [(2%nat, q2); (1%nat, q1); (0%nat, q0)]
              /\ f_trait fs = [(true, qt); (false, qf)]
              /\ q2 == 0.01 /\ q1 == 0.03 /\ q0 == 0.96
              /\ qt == 0.0329 /\ qf == 0.9671).
  { intros person fs Hin. apply (founders_histograms t person fs); [by rewrite Hkeys|done| |done].
    intros b. apply Hmass. rewrite <- Hkeys. apply list_elem_of_fmap. by exists (person, fs). }
  destruct (normalize_value t) as (t' & En & Hn).
  { apply Forall_forall. intros [person fs] Hin.
    destruct (Hhist person fs Hin) as (q2 & q1 & q0 & qt & qf & Eg & Et & H2 & H1 & H0 & HT & HF).
    unfold nonzero_sum. simpl. rewrite Eg, Et. unfold sum. simpl.
    rewrite H2, H1, H0, HT, HF. split; by vm_compute. }
  exists t'. unfold main. rewrite (outcome_bind _ _ _ E), En. split; [done|].
  split.
  { rewrite <- Hkeys. clear -Hn. induction Hn as [|old new t t' (Hfst & _) _ IH]; [done|].
    simpl. by rewrite Hfst, IH. }
  intros person fs' Hin'.
  apply list_elem_of_lookup in Hin' as (i & Hi').
  destruct (Forall2_lookup_r _ _ _ _ _ Hn Hi') as ([person0 fs] & Hi & Hfst & (Hscaled & _) & _).
  simpl in Hfst, Hscaled. subst person0.
  destruct (Hhist person fs) as (q2 & q1 & q0 & qt & qf & Eg & Et & H2 & H1 & H0 & HT & HF).
  { apply list_elem_of_lookup. by exists i. }
  rewrite Hscaled, Eg. unfold scaled, sum. simpl.
  do 3 eexists. split; [reflexivity|].
  rewrite H2, H1, H0. repeat split; by vm_compute.
Qed.

Lemma founders_posterior_is_prior_witness :
  exists probabilities,
    outcome (main two_founders) = inr probabilities
    /\ keys probabilities = keys two_founders
    /\ forall person fs,
         (person, fs) ∈ probabilities ->
         exists q2 q1 q0,
           f_gene fs = [(2%nat, q2); (1%nat, q1); (0%nat, q0)]
           /\ q2 == 0.01 /\ q1 == 0.03 /\ q0 == 0.96.
Proof.
  apply (founders_posterior_is_prior two_founders).
  - apply (bool_decide_unpack _). vm_compute. exact I.
  - repeat (apply Forall_cons_2; [repeat split|]). apply Forall_nil_2.
Defined.

(** C9 as stated fails for the program as it runs, in binary64: for a
    founder alone and without evidence, the two products 0.03 * 0.44 and
    0.03 * 0.56 that [update] adds up give 0.030000000000000002, the sum of
    the histogram is 1.0, and so [main] returns 0.030000000000000002 for one
    copy, which is not the prior 0.03. *)
Lemma founders_posterior_is_prior_counterexample :
  NoDup (keys lone_founder)
  /\ founders_without_evidence lone_founder
  /\ exists fs,
      Binary64.main lone_founder = ret [("Lily", fs)]
      /\ Binary64.f_gene fs
         = [ (2%nat, 0.01%float); (1%nat, 0.030000000000000002%float);
             (0%nat, 0.96%float) ]
      /\ PrimFloat.eqb 0.030000000000000002 0.03 = false.
Proof.
  split; [apply NoDup_singleton|].
  split; [repeat (apply Forall_cons_2; [repeat split|]); apply Forall_nil_2|].
  eexists. split; [vm_compute; reflexivity|]. split; reflexivity.
Qed.


(** ** The range of the joint probability *)

(** One round of the loop of [joint_probability] multiplies [joint_p] by a
    factor that is above 0 and at most 1, whatever parents are recorded. *)
Lemma joint_probability_body_range one_gene two_genes have_trait joint_p person family :
  exists l x,
    joint_probability_body one_gene two_genes have_trait joint_p (person, family)
    = (l, inr (joint_p * x))
    /\ 0 < x /\ x <= 1.
Proof.
  destruct family as [n [m|] [f|] t]; unfold joint_probability_body;
    simpl p_mother; simpl p_father;
    case_gene_count;
    (do 2 eexists; split; [reflexivity|]; split; by vm_compute).
Qed.

Lemma joint_probability_loop_range one_gene two_genes have_trait people :
  forall joint_p, 0 < joint_p ->
  exists l q,
    for_each people (joint_probability_body one_gene two_genes have_trait) joint_p
    = (l, inr q)
    /\ 0 < q /\ q <= joint_p.
Proof.
  induction people as [|[person family] people IH]; intros joint_p Hp; simpl for_each.
  - exists [], joint_p. split; [done|]. split; [done|]. apply Qle_refl.
  - destruct (joint_probability_body_range one_gene two_genes have_trait
                joint_p person family) as (l1 & x & E1 & Hx0 & Hx1).
    assert (H1 : 0 < joint_p * x) by (apply Qmult_lt_0_compat; done).
    assert (H2 : joint_p * x <= joint_p).
    { rewrite <- (Qmult_1_r joint_p) at 2. apply Qmult_le_l; done. }
    destruct (IH (joint_p * x) H1) as (l2 & q & E2 & Hq0 & Hq1).
    exists (l1 ++ l2), q. rewrite (bind_value _ _ _ _ E1), E2. simpl.
    split; [done|]. split; [done|]. by apply Qle_trans with (joint_p * x).
Qed.

Lemma joint_value_range people one_gene two_genes have_trait :
  0 < joint_value people one_gene two_genes have_trait
  /\ joint_value people one_gene two_genes have_trait <= 1.
Proof.
  destruct (joint_probability_loop_range one_gene two_genes have_trait people 1)
    as (l & q & E & Hq); [done|].
  unfold joint_value, joint_probability. simpl. by rewrite E.
Qed.

(** ** The mass that [main] accumulates for any dataset *)

Lemma sum_over_nonneg {A} (f : A -> Q) (l : list A) :
  (forall x, x ∈ l -> 0 <= f x) -> 0 <= sum_over f l.
Proof.
  induction l as [|x l IH]; intros Hf; simpl; [apply Qle_refl|].
  rewrite <- (Qplus_0_r 0). apply Qplus_le_compat; [apply Hf; left|].
  apply IH. intros y Hy. apply Hf. by right.
Qed.

Lemma sum_over_term_le {A} (f : A -> Q) (l : list A) x :
  x ∈ l -> (forall y, y ∈ l -> 0 <= f y) -> f x <= sum_over f l.
Proof.
  induction l as [|y l IH]; intros Hx Hf; [by apply elem_of_nil in Hx|]. simpl.
  assert (Hl : 0 <= sum_over f l).
  { apply sum_over_nonneg. intros z Hz. apply Hf. by right. }
  apply elem_of_cons in Hx as [->|Hx].
  - rewrite <- (Qplus_0_r (f y)) at 1. by apply Qplus_le_compat; [apply Qle_refl|].
  - rewrite <- (Qplus_0_l (f x)). apply Qplus_le_compat; [apply Hf; left|].
    apply IH; [done|]. intros z Hz. apply Hf. by right.
Qed.

Lemma sum_over_all_zero {A} (f : A -> Q) (l : list A) :
  (forall x, x ∈ l -> f x == 0) -> sum_over f l == 0.
Proof.
  induction l as [|x l IH]; intros Hf; simpl; [reflexivity|].
  rewrite (Hf x) by left. rewrite IH; [ring|]. intros y Hy. apply Hf. by right.
Qed.

Lemma hit_value_nonneg people one_gene two_genes have_trait k b :
  0 <= (if hits one_gene two_genes have_trait k b
        then joint_value people one_gene two_genes have_trait else 0).
Proof.
  destruct (hits one_gene two_genes have_trait k b); [|apply Qle_refl].
  apply Qlt_le_weak, joint_value_range.
Qed.

Lemma accumulated_nonneg people k b : 0 <= accumulated people k b.
Proof.
  unfold accumulated. apply sum_over_nonneg. intros ht _.
  destruct (evidence_fails people ht); [apply Qle_refl|].
  apply sum_over_nonneg. intros og _. apply sum_over_nonneg. intros tg _.
  apply hit_value_nonneg.
Qed.

(** An enumerated assignment that puts [k] in [b] contributes its joint
    probability to the accumulated mass. *)
Lemma accumulated_lower people k b one_gene two_genes have_trait :
  have_trait ⊆ names_of people ->
  respects_evidence people have_trait ->
  one_gene ⊆ names_of people ->
  two_genes ⊆ names_of people ∖ one_gene ->
  hits one_gene two_genes have_trait k b = true ->
  joint_value people one_gene two_genes have_trait <= accumulated people k b.
Proof.
  intros Hht Hresp Hog Htg Hhit. unfold accumulated.
  apply evidence_fails_false in Hresp.
  eapply Qle_trans; [|apply (sum_over_term_le _ _ have_trait)].
  - cbv beta. rewrite Hresp.
    eapply Qle_trans; [|apply (sum_over_term_le _ _ one_gene)].
    + cbv beta. eapply Qle_trans; [|apply (sum_over_term_le _ _ two_genes)].
      * cbv beta. rewrite Hhit. apply Qle_refl.
      * by apply elem_of_powerset.
      * intros tg _. apply hit_value_nonneg.
    + by apply elem_of_powerset.
    + intros og _. apply sum_over_nonneg. intros tg _. apply hit_value_nonneg.
  - by apply elem_of_powerset.
  - intros ht _. destruct (evidence_fails people ht); [apply Qle_refl|].
    apply sum_over_nonneg. intros og _. apply sum_over_nonneg. intros tg _.
    apply hit_value_nonneg.
Qed.

Lemma evidence_Some_keys people person t :
  evidence people person = Some t -> person ∈ keys people.
Proof.
  unfold evidence. induction people as [|[k family] people IH]; simpl; [done|].
  destruct (decide (person = k)) as [->|Hne]; [intros _; left|].
  intros H. right. by apply IH.
Qed.

Lemma known_to_have_trait_subseteq people : known_to_have_trait people ⊆ names_of people.
Proof.
  unfold known_to_have_trait, names_of. intros x.
  rewrite !elem_of_list_to_set, list_elem_of_filter. tauto.
Qed.

Lemma known_to_have_trait_respects people :
  respects_evidence people (known_to_have_trait people).
Proof.
  intros person. unfold known_to_have_trait. rewrite elem_of_list_to_set, list_elem_of_filter.
  split.
  - intros H. split; [done|]. by apply evidence_Some_keys in H.
  - intros H [H' _]. congruence.
Qed.

(** Every individual has mass above 0 in the bucket of no copy and in one
    of the two trait buckets: the assignment in which nobody has the gene and
    the trait is where it is recorded is always enumerated. *)
Lemma accumulated_positive people k :
  0 < accumulated people k (gene_bucket 0)
  /\ 0 < accumulated people k
           (trait_bucket (bool_decide (k ∈ known_to_have_trait people))).
Proof.
  split.
  - eapply Qlt_le_trans; [apply (joint_value_range people ∅ ∅ (known_to_have_trait people))|].
    apply accumulated_lower; [apply known_to_have_trait_subseteq
                             |apply known_to_have_trait_respects|set_solver..|].
    unfold hits, in_bucket, gene_count.
    rewrite !decide_False by set_solver. by apply bool_decide_eq_true_2.
  - eapply Qlt_le_trans; [apply (joint_value_range people ∅ ∅ (known_to_have_trait people))|].
    apply accumulated_lower; [apply known_to_have_trait_subseteq
                             |apply known_to_have_trait_respects|set_solver..|].
    unfold hits, in_bucket. by apply bool_decide_eq_true_2.
Qed.

(** With evidence for [k], no enumerated assignment puts [k] in the other
    trait bucket. *)
Lemma accumulated_against_evidence people k t :
  evidence people k = Some t ->
  accumulated people k (trait_bucket (negb t)) == 0.
Proof.
  intros Hev. unfold accumulated. apply sum_over_all_zero. intros ht _.
  destruct (evidence_fails people ht) eqn:Hfe; [reflexivity|].
  apply evidence_fails_false in Hfe. destruct (Hfe k) as [Htrue Hfalse].
  apply sum_over_all_zero. intros og _. apply sum_over_all_zero. intros tg _.
  assert (Hhit : hits og tg ht k (trait_bucket (negb t)) = false).
  { unfold hits, in_bucket. apply bool_decide_eq_false_2. destruct t; simpl.
    - rewrite bool_decide_eq_true_2 by auto. done.
    - rewrite bool_decide_eq_false_2 by auto. done. }
  rewrite Hhit. reflexivity.
Qed.

(** ** The table that [main] returns *)

Lemma enumerate_accumulated people :
  NoDup (keys people) ->
  exists probabilities,
    outcome (enumerate people (map (fun person => (person, initial_features)) (keys people)))
    = inr probabilities
    /\ keys probabilities = keys people
    /\ well_shaped probabilities
    /\ forall k b, k ∈ keys people -> mass probabilities k b == accumulated people k b.
Proof.
  intros Hnd.
  set (t0 := map (fun person => (person, initial_features)) (keys people)).
  destruct (enumerate_value people t0) as (t & E & Hkeys & Hshape);
    [apply initial_well_shaped|].
  exists t. rewrite E. split; [done|]. unfold t0 in Hkeys. rewrite initial_keys in Hkeys.
  split; [done|]. split; [done|]. intros k b Hk.
  destruct (enumerate_mass people t0 k b) as (t' & E' & Hm).
  - unfold t0. by rewrite initial_keys.
  - apply initial_well_shaped.
  - unfold t0. by rewrite initial_keys.
  - rewrite E in E'. injection E' as <-.
    rewrite Hm. unfold t0. rewrite initial_mass. unfold accumulated. ring.
Qed.

(** In a well-shaped table without duplicate names, the histograms of an
    individual hold its masses. *)
Lemma histograms_of_mass (probabilities : dict string features) person fs :
  NoDup (keys probabilities) ->
  well_shaped probabilities ->
  (person, fs) ∈ probabilities ->
  f_gene fs = [ (2%nat, mass probabilities person (gene_bucket 2));
                (1%nat, mass probabilities person (gene_bucket 1));
                (0%nat, mass probabilities person (gene_bucket 0)) ]
  /\ f_trait fs = [ (true, mass probabilities person (trait_bucket true));
                    (false, mass probabilities person (trait_bucket false)) ].
Proof.
  intros Hnd Hshape Hin.
  pose proof (dict_get_NoDup probabilities person fs Hnd Hin) as Hget.
  unfold well_shaped in Hshape. rewrite Forall_forall in Hshape.
  destruct (Hshape _ Hin) as [Hg Ht]. simpl in Hg, Ht.
  destruct (f_gene fs) as [|[g2 q2] [|[g1 q1] [|[g0 q0] [|]]]] eqn:Eg; try discriminate Hg.
  destruct (f_trait fs) as [|[tt qt] [|[tf qf] [|]]] eqn:Et; try discriminate Ht.
  simpl in Hg, Ht. injection Hg as -> -> ->. injection Ht as -> ->.
  unfold mass. rewrite Hget. cbn [outcome snd ret]. rewrite Eg, Et. done.
Qed.

Lemma sum_three (a b c : Q) : sum [a; b; c] == a + b + c.
Proof. unfold sum. simpl. ring. Qed.

Lemma sum_two (a b : Q) : sum [a; b] == a + b.
Proof. unfold sum. simpl. ring. Qed.

(** What [main] computes, for a dataset without duplicate names: the table
    of accumulated masses, then the same table normalised. *)
Lemma main_value people :
  NoDup (keys people) ->
  exists raw probabilities,
    outcome (main people) = inr probabilities
    /\ keys raw = keys people
    /\ well_shaped raw
    /\ (forall k b, k ∈ keys people -> mass raw k b == accumulated people k b)
    /\ Forall2 (fun old new =>
                  fst new = fst old
                  /\ normalized_from (f_gene (snd old)) (f_gene (snd new))
                  /\ normalized_from (f_trait (snd old)) (f_trait (snd new)))
               raw probabilities.
Proof.
  intros Hnd.
  destruct (enumerate_accumulated people Hnd) as (t & E & Hkeys & Hshape & Hmass).
  destruct (normalize_value t) as (t' & En & Hn).
  { apply Forall_forall. intros [person fs] Hin.
    assert (Hperson : person ∈ keys people).
    { rewrite <- Hkeys. apply list_elem_of_fmap. by exists (person, fs). }
    destruct (histograms_of_mass t person fs) as [Eg Et]; [by rewrite Hkeys|done|done|].
    destruct (accumulated_positive people person) as [Hg0 Htr].
    unfold nonzero_sum. simpl. rewrite Eg, Et. simpl.
    rewrite sum_three, sum_two, !Hmass by done.
    pose proof (accumulated_nonneg people person (gene_bucket 2)) as H2.
    pose proof (accumulated_nonneg people person (gene_bucket 1)) as H1.
    pose proof (accumulated_nonneg people person (trait_bucket true)) as HT.
    pose proof (accumulated_nonneg people person (trait_bucket false)) as HF.
    split; intros Hz.
    - apply (Qlt_irrefl 0). rewrite <- Hz at 2.
      eapply Qlt_le_trans; [exact Hg0|].
      rewrite <- (Qplus_0_l (accumulated people person (gene_bucket 0))) at 1.
      apply Qplus_le_compat; [|apply Qle_refl].
      rewrite <- (Qplus_0_l 0). by apply Qplus_le_compat.
    - apply (Qlt_irrefl 0). rewrite <- Hz at 2.
      destruct (bool_decide (person ∈ known_to_have_trait people)).
      + eapply Qlt_le_trans; [exact Htr|].
        rewrite <- (Qplus_0_r (accumulated people person (trait_bucket true))) at 1.
        by apply Qplus_le_compat; [apply Qle_refl|].
      + eapply Qlt_le_trans; [exact Htr|].
        rewrite <- (Qplus_0_l (accumulated people person (trait_bucket false))) at 1.
        by apply Qplus_le_compat; [|apply Qle_refl]. }
  exists t, t'. unfold main. rewrite (outcome_bind _ _ _ E), En. done.
Qed.

(** The histograms of one individual in the table that [main] returns:
    the accumulated masses, each divided by the sum of its histogram. *)
Lemma main_entries people :
  NoDup (keys people) ->
  exists probabilities,
    outcome (main people) = inr probabilities
    /\ keys probabilities = keys people
    /\ forall person fs,
         (person, fs) ∈ probabilities ->
         exists a2 a1 a0 at_ af,
           a2 == accumulated people person (gene_bucket 2)
           /\ a1 == accumulated people person (gene_bucket 1)
           /\ a0 == accumulated people person (gene_bucket 0)
           /\ at_ == accumulated people person (trait_bucket true)
           /\ af == accumulated people person (trait_bucket false)
           /\ 0 < a2 + a1 + a0
           /\ 0 < at_ + af
           /\ f_gene fs = [ (2%nat, a2 / sum [a2; a1; a0]);
                            (1%nat, a1 / sum [a2; a1; a0]);
                            (0%nat, a0 / sum [a2; a1; a0]) ]
           /\ f_trait fs = [ (true, at_ / sum [at_; af]);
                             (false, af / sum [at_; af]) ].
Proof.
  intros Hnd.
  destruct (main_value people Hnd) as (t & t' & E & Hkeys & Hshape & Hmass & Hn).
  exists t'. split; [done|]. split.
  { rewrite <- Hkeys. clear -Hn. induction Hn as [|old new t t' (Hfst & _) _ IH]; [done|].
    simpl. by rewrite Hfst, IH. }
  intros person fs' Hin'.
  apply list_elem_of_lookup in Hin' as (i & Hi').
  destruct (Forall2_lookup_r _ _ _ _ _ Hn Hi')
    as ([person0 fs] & Hi & Hfst & (Hg & _) & (Ht & _)).
  simpl in Hfst, Hg, Ht. subst person0.
  assert (Hin : (person, fs) ∈ t) by (apply list_elem_of_lookup; by exists i).
  assert (Hperson : person ∈ keys people).
  { rewrite <- Hkeys. apply list_elem_of_fmap. by exists (person, fs). }
  destruct (histograms_of_mass t person fs) as [Eg Et]; [by rewrite Hkeys|done|done|].
  exists (mass t person (gene_bucket 2)), (mass t person (gene_bucket 1)),
    (mass t person (gene_bucket 0)), (mass t person (trait_bucket true)),
    (mass t person (trait_bucket false)).
  pose proof (Hmass person (gene_bucket 2) Hperson) as M2.
  pose proof (Hmass person (gene_bucket 1) Hperson) as M1.
  pose proof (Hmass person (gene_bucket 0) Hperson) as M0.
  pose proof (Hmass person (trait_bucket true) Hperson) as MT.
  pose proof (Hmass person (trait_bucket false) Hperson) as MF.
  destruct (accumulated_positive people person) as [Hg0 Htr].
  pose proof (accumulated_nonneg people person (gene_bucket 2)) as H2.
  pose proof (accumulated_nonneg people person (gene_bucket 1)) as H1.
  pose proof (accumulated_nonneg people person (trait_bucket true)) as HT.
  pose proof (accumulated_nonneg people person (trait_bucket false)) as HF.
  do 5 (split; [assumption|]). split; [|split].
  - rewrite M2, M1, M0. eapply Qlt_le_trans; [exact Hg0|].
    rewrite <- (Qplus_0_l (accumulated people person (gene_bucket 0))) at 1.
    apply Qplus_le_compat; [|apply Qle_refl].
    rewrite <- (Qplus_0_l 0). by apply Qplus_le_compat.
  - rewrite MT, MF. destruct (bool_decide (person ∈ known_to_have_trait people)).
    + eapply Qlt_le_trans; [exact Htr|].
      rewrite <- (Qplus_0_r (accumulated people person (trait_bucket true))) at 1.
      by apply Qplus_le_compat; [apply Qle_refl|].
    + eapply Qlt_le_trans; [exact Htr|].
      rewrite <- (Qplus_0_l (accumulated people person (trait_bucket false))) at 1.
      by apply Qplus_le_compat; [|apply Qle_refl].
  - rewrite Hg, Ht, Eg, Et. done.
Qed.

Lemma Qdiv_nonneg (a s : Q) : 0 <= a -> 0 < s -> 0 <= a / s.
Proof.
  intros Ha Hs. unfold Qdiv. apply Qmult_le_0_compat; [done|].
  apply Qlt_le_weak, Qinv_lt_0_compat. done.
Qed.

(** X1: for every dataset without duplicate names [main] returns a table: it
    never raises. The table has the names of the dataset in order, and for
    each a gene histogram with the keys 2, 1, 0 and a trait histogram with
    the keys True, False, whose numbers are not negative and sum to 1. *)
Theorem main_returns_distributions (people : dict string person) :
  NoDup (keys people) ->
  exists probabilities,
    outcome (main people) = inr probabilities
    /\ keys probabilities = keys people
    /\ forall person fs,
         (person, fs) ∈ probabilities ->
         keys (f_gene fs) = [2; 1; 0]%nat
         /\ keys (f_trait fs) = [true; false]
         /\ Forall (fun v => 0 <= v) (values (f_gene fs))
         /\ Forall (fun v => 0 <= v) (values (f_trait fs))
         /\ sum (values (f_gene fs)) == 1
         /\ sum (values (f_trait fs)) == 1.
Proof.
  intros Hnd. destruct (main_entries people Hnd) as (t & E & Hkeys & Hentries).
  exists t. split; [done|]. split; [done|]. intros person fs Hin.
  destruct (Hentries person fs Hin)
    as (a2 & a1 & a0 & at_ & af & H2 & H1 & H0 & HT & HF & Hsg & Hst & -> & ->).
  pose proof (accumulated_nonneg people person (gene_bucket 2)) as N2.
  pose proof (accumulated_nonneg people person (gene_bucket 1)) as N1.
  pose proof (accumulated_nonneg people person (gene_bucket 0)) as N0.
  pose proof (accumulated_nonneg people person (trait_bucket true)) as NT.
  pose proof (accumulated_nonneg people person (trait_bucket false)) as NF.
  rewrite <- H2 in N2. rewrite <- H1 in N1. rewrite <- H0 in N0.
  rewrite <- HT in NT. rewrite <- HF in NF.
  assert (Hsg' : 0 < sum [a2; a1; a0]) by (by rewrite sum_three).
  assert (Hst' : 0 < sum [at_; af]) by (by rewrite sum_two).
  split; [done|]. split; [done|]. simpl.
  split; [repeat (apply Forall_cons_2; [by apply Qdiv_nonneg|]); apply Forall_nil_2|].
  split; [repeat (apply Forall_cons_2; [by apply Qdiv_nonneg|]); apply Forall_nil_2|].
  split.
  - rewrite sum_three. rewrite sum_three in Hsg' |- *. field.
    intros Hz. rewrite Hz in Hsg'. by apply Qlt_irrefl in Hsg'.
  - rewrite sum_two. rewrite sum_two in Hst' |- *. field.
    intros Hz. rewrite Hz in Hst'. by apply Qlt_irrefl in Hst'.
Qed.

(** X2: what [main] returns is the posterior. For every individual, each
    number of the gene histogram, times the total mass of the enumerated
    assignments, is the mass of the enumerated assignments that give the
    individual that gene count; likewise for the trait histogram. The
    enumerated assignments are those that agree with the evidence, each with
    its joint probability, and their total mass is above 0. *)
Theorem main_posterior (people : dict string person) :
  NoDup (keys people) ->
  exists probabilities,
    outcome (main people) = inr probabilities
    /\ forall person fs,
         (person, fs) ∈ probabilities ->
         let total_gene := accumulated people person (gene_bucket 2)
                           + accumulated people person (gene_bucket 1)
                           + accumulated people person (gene_bucket 0) in
         let total_trait := accumulated people person (trait_bucket true)
                            + accumulated people person (trait_bucket false) in
         0 < total_gene /\ 0 < total_trait
         /\ (forall g, g ∈ [2; 1; 0]%nat ->
               bucket (f_gene fs) g * total_gene
               == accumulated people person (gene_bucket g))
         /\ (forall t,
               bucket (f_trait fs) t * total_trait
               == accumulated people person (trait_bucket t)).
Proof.
  intros Hnd. destruct (main_entries people Hnd) as (t & E & Hkeys & Hentries).
  exists t. split; [done|]. intros person fs Hin.
  destruct (Hentries person fs Hin)
    as (a2 & a1 & a0 & at_ & af & H2 & H1 & H0 & HT & HF & Hsg & Hst & Eg & Et).
  cbv zeta.
  assert (Hg : ~ a2 + a1 + a0 == 0).
  { intros Hz. rewrite Hz in Hsg. by apply Qlt_irrefl in Hsg. }
  assert (Ht : ~ at_ + af == 0).
  { intros Hz. rewrite Hz in Hst. by apply Qlt_irrefl in Hst. }
  split; [by rewrite <- H2, <- H1, <- H0|]. split; [by rewrite <- HT, <- HF|].
  split.
  - intros g Hgin. rewrite Eg, <- H2, <- H1, <- H0.
    repeat (apply elem_of_cons in Hgin as [->|Hgin]);
      [..|by apply elem_of_nil in Hgin].
    + change (bucket _ 2%nat) with (a2 / sum [a2; a1; a0]).
      rewrite sum_three, <- H2. by field.
    + change (bucket _ 1%nat) with (a1 / sum [a2; a1; a0]).
      rewrite sum_three, <- H1. by field.
    + change (bucket _ 0%nat) with (a0 / sum [a2; a1; a0]).
      rewrite sum_three, <- H0. by field.
  - intros b. rewrite Et, <- HT, <- HF. destruct b.
    + change (bucket _ true) with (at_ / sum [at_; af]).
      rewrite sum_two, <- HT. by field.
    + change (bucket _ false) with (af / sum [at_; af]).
      rewrite sum_two, <- HF. by field.
Qed.

(** X3: the table that [main] returns respects the evidence: an individual
    whose trait is recorded has probability 1 for the recorded value and 0
    for the other. *)
Theorem main_respects_evidence (people : dict string person) :
  NoDup (keys people) ->
  exists probabilities,
    outcome (main people) = inr probabilities
    /\ forall person fs t,
         (person, fs) ∈ probabilities ->
         evidence people person = Some t ->
         bucket (f_trait fs) t == 1 /\ bucket (f_trait fs) (negb t) == 0.
Proof.
  intros Hnd. destruct (main_entries people Hnd) as (tbl & E & Hkeys & Hentries).
  exists tbl. split; [done|]. intros person fs t Hin Hev.
  destruct (Hentries person fs Hin)
    as (a2 & a1 & a0 & at_ & af & H2 & H1 & H0 & HT & HF & Hsg & Hst & Eg & Et).
  pose proof (accumulated_against_evidence people person t Hev) as Hzero.
  rewrite Et. destruct t; simpl negb in *.
  - rewrite <- HF in Hzero.
    change (bucket _ true) with (at_ / sum [at_; af]).
    change (bucket _ false) with (af / sum [at_; af]).
    rewrite sum_two. rewrite Hzero in Hst |- *.
    assert (~ at_ == 0).
    { intros Hz. rewrite Hz in Hst. by apply Qlt_irrefl in Hst. }
    split; by field.
  - rewrite <- HT in Hzero.
    change (bucket _ true) with (at_ / sum [at_; af]).
    change (bucket _ false) with (af / sum [at_; af]).
    rewrite sum_two. rewrite Hzero in Hst |- *.
    assert (~ af == 0).
    { intros Hz. rewrite Hz in Hst. by apply Qlt_irrefl in Hst. }
    split; by field.
Qed.

Lemma family_of_three_NoDup : NoDup (keys family_of_three).
Proof. apply (bool_decide_unpack _). vm_compute. exact I. Defined.

Lemma main_returns_distributions_witness :
  exists probabilities,
    outcome (main family_of_three) = inr probabilities
    /\ keys probabilities = keys family_of_three
    /\ forall person fs,
         (person, fs) ∈ probabilities ->
         keys (f_gene fs) = [2; 1; 0]%nat
         /\ keys (f_trait fs) = [true; false]
         /\ Forall (fun v => 0 <= v) (values (f_gene fs))
         /\ Forall (fun v => 0 <= v) (values (f_trait fs))
         /\ sum (values (f_gene fs)) == 1
         /\ sum (values (f_trait fs)) == 1.
Proof. apply (main_returns_distributions family_of_three). exact family_of_three_NoDup. Defined.

Lemma main_posterior_witness :
  exists probabilities,
    outcome (main family_of_three) = inr probabilities
    /\ forall person fs,
         (person, fs) ∈ probabilities ->
         let total_gene := accumulated family_of_three person (gene_bucket 2)
                           + accumulated family_of_three person (gene_bucket 1)
                           + accumulated family_of_three person (gene_bucket 0) in
         let total_trait := accumulated family_of_three person (trait_bucket true)
                            + accumulated family_of_three person (trait_bucket false) in
         0 < total_gene /\ 0 < total_trait
         /\ (forall g, g ∈ [2; 1; 0]%nat ->
               bucket (f_gene fs) g * total_gene
               == accumulated family_of_three person (gene_bucket g))
         /\ (forall t,
               bucket (f_trait fs) t * total_trait
               == accumulated family_of_three person (trait_bucket t)).
Proof. apply (main_posterior family_of_three). exact family_of_three_NoDup. Defined.

Lemma main_respects_evidence_witness :
  exists probabilities,
    outcome (main family_of_three) = inr probabilities
    /\ forall person fs t,
         (person, fs) ∈ probabilities ->
         evidence family_of_three person = Some t ->
         bucket (f_trait fs) t == 1 /\ bucket (f_trait fs) (negb t) == 0.
Proof. apply (main_respects_evidence family_of_three). exact family_of_three_NoDup. Defined.

(** ** The same program in binary64 *)

Lemma binary64_joint_probability_body_value one_gene two_genes have_trait
    joint_p person family :
  exists x,
    Binary64.joint_probability_body one_gene two_genes have_trait joint_p (person, family)
    = ret x.
Proof.
  destruct family as [n [m|] [f|] t]; unfold Binary64.joint_probability_body;
    simpl p_mother; simpl p_father;
    case_gene_count; (eexists; reflexivity).
Qed.

Lemma binary64_joint_probability_value people one_gene two_genes have_trait :
  exists x, Binary64.joint_probability people one_gene two_genes have_trait = ret x.
Proof.
  unfold Binary64.joint_probability. generalize 1%float as joint_p.
  induction people as [|[person family] people IH]; intros joint_p; cbn [for_each].
  - by exists joint_p.
  - destruct (binary64_joint_probability_body_value one_gene two_genes have_trait
                joint_p person family) as (x & ->).
    rewrite bind_ret. apply IH.
Qed.

(** In binary64 the product of [joint_probability] underflows: for 160
    founders who all show the trait and carry no copy it is the subnormal
    number 1.5e-323, and for 161 it is 0.0. *)
Lemma binary64_joint_probability_underflow :
  NoDup (numbered 161)
  /\ Binary64.joint_probability (founders (numbered 160)) ∅ ∅ (list_to_set (numbered 160))
     = ret 1.5e-323%float
  /\ Binary64.joint_probability (founders (numbered 161)) ∅ ∅ (list_to_set (numbered 161))
     = ret 0%float.
Proof.
  split; [apply (bool_decide_unpack _); vm_compute; exact I|].
  split; vm_compute; reflexivity.
Qed.

(** In binary64 the table that [main] returns for a founder alone: the
    numbers are the prior and the averaged trait likelihood up to the last
    digits. Before [normalize] the gene histogram sums to 1.0 and the trait
    histogram to 0.9999999999999999. *)
Lemma binary64_lone_founder :
  Binary64.main lone_founder
  = ret [ ("Lily",
           {| Binary64.f_gene := [ (2%nat, 0.01%float);
                                   (1%nat, 0.030000000000000002%float);
                                   (0%nat, 0.96%float) ];
              Binary64.f_trait := [ (true, 0.032900000000000006%float);
                                    (false, 0.96709999999999996%float) ] |}) ]
  /\ exists fs,
      Binary64.enumerate lone_founder [("Lily", Binary64.initial_features)]
      = ret [("Lily", fs)]
      /\ Binary64.sum (values (Binary64.f_gene fs)) = 1%float
      /\ Binary64.sum (values (Binary64.f_trait fs)) = 0.99999999999999989%float.
Proof.
  split; [vm_compute; reflexivity|].
  eexists. split; [vm_compute; reflexivity|]. split; vm_compute; reflexivity.
Qed.

(** In binary64 [normalize] is not idempotent: the second division changes
    the last digit. *)
Lemma binary64_normalize_twice :
  exists once twice,
    Binary64.normalize tenths = ret [("Harry", once)]
    /\ Binary64.normalize [("Harry", once)] = ret [("Harry", twice)]
    /\ Binary64.f_gene once
       = [ (2%nat, 0.16666666666666666%float); (1%nat, 0.33333333333333331%float);
           (0%nat, 0.49999999999999989%float) ]
    /\ Binary64.f_gene twice
       = [ (2%nat, 0.16666666666666669%float); (1%nat, 0.33333333333333337%float);
           (0%nat, 0.49999999999999994%float) ].
Proof.
  do 2 eexists. split; [vm_compute; reflexivity|].
  split; [vm_compute; reflexivity|]. split; reflexivity.
Qed.

(** In binary64 the product of [joint_probability] depends on how it is
    grouped: the joint probability of three founders is not the product of
    that of the first and that of the other two. *)
Lemma binary64_joint_probability_grouping :
  Binary64.joint_probability three_founders ∅ {["Harry"]} ∅
  = ret 0.0031614105599999994%float
  /\ exists x1 x2,
      Binary64.joint_probability (take 1 three_founders) ∅ {["Harry"]} ∅ = ret x1
      /\ Binary64.joint_probability (drop 1 three_founders) ∅ {["Harry"]} ∅ = ret x2
      /\ (x1 * x2 = 0.003161410559999999)%float.
Proof.
  split; [vm_compute; reflexivity|].
  do 2 eexists. split; [vm_compute; reflexivity|].
  split; [vm_compute; reflexivity|]. vm_compute. reflexivity.
Qed.

(** X4: [joint_probability] never raises, whatever the family and the three
    sets are (parents missing, unknown names, overlapping sets), in exact
    arithmetic and in binary64 alike: it never multiplies the [None] that
    [get_parent_gene_probability] returns for a gene count other than
    0, 1, 2. In exact rational arithmetic the number it returns is above 0
    and at most 1; in binary64 the product can be 0.0, by underflow
    ([binary64_joint_probability_underflow]). *)
Theorem joint_probability_is_probability (people : dict string person)
    (one_gene two_genes have_trait : gset string) :
  (exists q,
      outcome (joint_probability people one_gene two_genes have_trait) = inr q
      /\ 0 < q /\ q <= 1)
  /\ exists x,
      outcome (Binary64.joint_probability people one_gene two_genes have_trait) = inr x.
Proof.
  split.
  - destruct (joint_probability_loop_range one_gene two_genes have_trait people 1)
      as (l & q & E & Hq); [done|].
    exists q. unfold joint_probability. simpl. by rewrite E.
  - destruct (binary64_joint_probability_value people one_gene two_genes have_trait)
      as (x & ->).
    by exists x.
Qed.

(** ** When [normalize] fails *)

Lemma normalize_cases (probabilities : dict string features) :
  (Exists (fun entry => zero_sum (f_gene (snd entry))
                        \/ zero_sum (f_trait (snd entry))) probabilities
   /\ normalize probabilities = raise ZeroDivisionError)
  \/ (~ Exists (fun entry => zero_sum (f_gene (snd entry))
                             \/ zero_sum (f_trait (snd entry))) probabilities
      /\ exists probabilities', normalize probabilities = ret probabilities').
Proof.
  induction probabilities as [|[person fs] probabilities IH].
  - right. split; [by intros ?%Exists_nil|by exists []].
  - simpl.
    destruct (normalize_distribution_cases (f_gene fs)) as [[Hg ->]|[Hg (by_gene & ->)]].
    { left. split; [|done]. apply Exists_cons_hd. by left. }
    rewrite bind_ret.
    destruct (normalize_distribution_cases (f_trait fs)) as [[Ht ->]|[Ht (by_trait & ->)]].
    { left. split; [|done]. apply Exists_cons_hd. by right. }
    rewrite bind_ret.
    destruct IH as [[Hex ->]|[Hex (rest & ->)]].
    + left. split; [|done]. by apply Exists_cons_tl.
    + right. rewrite bind_ret. split; [|by eexists].
      intros [[?|?]|?]%Exists_cons; done.
Qed.

(** X5: [normalize] fails exactly when some histogram with at least one
    bucket sums to zero; the failure is [ZeroDivisionError] and nothing
    else, and a histogram without buckets is passed over. *)
Theorem normalize_fails_iff (probabilities : dict string features) :
  (outcome (normalize probabilities) = inl ZeroDivisionError
   <-> Exists (fun entry => zero_sum (f_gene (snd entry))
                            \/ zero_sum (f_trait (snd entry))) probabilities)
  /\ (forall e, outcome (normalize probabilities) = inl e -> e = ZeroDivisionError).
Proof.
  destruct (normalize_cases probabilities) as [[Hex E]|[Hex (t & E)]]; rewrite E; simpl.
  - split; [done|]. by intros e [= <-].
  - split; [|done]. split; [done|]. intros H. by destruct Hex.
Qed.

(** ** Normalising twice *)

Lemma same_histogram_refl {K} (d : dict K Q) : same_histogram d d.
Proof. induction d; constructor; [split; reflexivity|done]. Qed.

Lemma scaled_one {K} (s : Q) (d : dict K Q) :
  s == 1 -> same_histogram d (scaled s d).
Proof.
  intros Hs. induction d as [|[k v] d IH]; constructor; [|done]. simpl.
  split; [done|]. rewrite Hs. field.
Qed.

Lemma normalize_distribution_twice {K} (d d' : dict K Q) :
  normalize_distribution d = ret d' ->
  exists d'', normalize_distribution d' = ret d'' /\ same_histogram d' d''.
Proof.
  intros E. unfold normalize_distribution in *.
  destruct d as [|item d].
  { injection E as <-. exists []. split; [done|constructor]. }
  destruct (Qeq_dec (sum (values (item :: d))) 0) as [Hs|Hs].
  { rewrite normalize_items_raise in E by done. discriminate E. }
  rewrite normalize_items_value in E by done. injection E as <-.
  assert (Hone : sum (values (scaled (sum (values (item :: d))) (item :: d))) == 1).
  { rewrite sum_scaled. by field. }
  eexists. split.
  - apply normalize_items_value. rewrite Hone. by vm_compute.
  - by apply scaled_one.
Qed.

(** X6: in exact rational arithmetic [normalize] changes nothing the second
    time: on the table it returned it succeeds again and returns the same
    names, keys and numbers. In binary64 the second division can change the
    last digit ([binary64_normalize_twice]). *)
Theorem normalize_idempotent (probabilities probabilities' : dict string features) :
  normalize probabilities = ret probabilities' ->
  exists probabilities'',
    normalize probabilities' = ret probabilities''
    /\ Forall2 (fun once twice =>
                  fst twice = fst once
                  /\ same_histogram (f_gene (snd once)) (f_gene (snd twice))
                  /\ same_histogram (f_trait (snd once)) (f_trait (snd twice)))
               probabilities' probabilities''.
Proof.
  revert probabilities'.
  induction probabilities as [|[person fs] probabilities IH]; intros t' E; simpl in E.
  - injection E as <-. exists []. split; [done|constructor].
  - destruct (normalize_distribution_cases (f_gene fs)) as [[_ Eg]|[_ (by_gene & Eg)]];
      rewrite Eg in E; [discriminate E|]. rewrite bind_ret in E.
    destruct (normalize_distribution_cases (f_trait fs)) as [[_ Et]|[_ (by_trait & Et)]];
      rewrite Et in E; [discriminate E|]. rewrite bind_ret in E.
    destruct (normalize_cases probabilities) as [[_ Er]|[_ (rest & Er)]];
      rewrite Er in E; [discriminate E|]. rewrite bind_ret in E. injection E as <-.
    destruct (IH rest Er) as (rest' & Er' & Hrest).
    destruct (normalize_distribution_twice _ _ Eg) as (g' & Eg' & Hg).
    destruct (normalize_distribution_twice _ _ Et) as (t' & Et' & Ht).
    simpl. rewrite Eg', bind_ret, Et', bind_ret, Er', bind_ret.
    eexists. split; [done|]. constructor; [|done]. done.
Qed.

Lemma normalize_idempotent_witness :
  exists probabilities' probabilities'',
    normalize raw_table = ret probabilities'
    /\ normalize probabilities' = ret probabilities''
    /\ Forall2 (fun once twice =>
                  fst twice = fst once
                  /\ same_histogram (f_gene (snd once)) (f_gene (snd twice))
                  /\ same_histogram (f_trait (snd once)) (f_trait (snd twice)))
               probabilities' probabilities''.
Proof.
  eexists.
  assert (E : normalize raw_table = ret _) by (vm_compute; reflexivity).
  destruct (normalize_idempotent raw_table _ E) as (t'' & E'' & H).
  exists t''. split; [exact E|]. split; [exact E''|exact H].
Defined.

(** ** The dataset that [load_data] builds *)

Section DictSetFacts.
Context {K : Type} `{EqDecision K} {V : Type}.
Implicit Types (d : dict K V) (k : K) (v : V).

Lemma elem_of_keys_dict_set d k v k' :
  k' ∈ keys (dict_set k v d) <-> k' = k \/ k' ∈ keys d.
Proof.
  induction d as [|[k0 v0] d IH]; simpl.
  - rewrite list_elem_of_singleton. split; [by left|]. intros [?|H']; [done|].
    by apply elem_of_nil in H'.
  - destruct (decide (k = k0)) as [->|Hne]; simpl.
    + rewrite elem_of_cons. tauto.
    + rewrite !elem_of_cons, IH. tauto.
Qed.

Lemma elem_of_dict_set d k v k' v' :
  (k', v') ∈ dict_set k v d -> (k' = k /\ v' = v) \/ (k', v') ∈ d.
Proof.
  induction d as [|[k0 v0] d IH]; simpl.
  - intros [= -> ->]%list_elem_of_singleton. by left.
  - destruct (decide (k = k0)) as [->|Hne].
    + intros [[= -> ->]|Hin]%elem_of_cons; [by left|]. right. by right.
    + intros [[= -> ->]|Hin]%elem_of_cons; [right; left|].
      destruct (IH Hin) as [?|?]; [by left|]. right. by right.
Qed.

Lemma dict_get_missing d k : k ∉ keys d -> dict_get d k = raise KeyError.
Proof.
  induction d as [|[k0 v0] d IH]; simpl; intros Hk; [done|].
  apply not_elem_of_cons in Hk as [Hne Hk]. rewrite decide_False by done. by apply IH.
Qed.
End DictSetFacts.

Lemma load_data_loop_keys (reader : list (dict string string)) :
  Forall has_columns reader ->
  forall data0,
    NoDup (keys data0) ->
    (forall name family, (name, family) ∈ data0 -> p_name family = name) ->
    exists data,
      for_each reader load_data_body data0 = ret data
      /\ NoDup (keys data)
      /\ (forall name, name ∈ keys data
                       <-> name ∈ keys data0 \/ name ∈ map (fun r => cell r "name") reader)
      /\ (forall name family, (name, family) ∈ data -> p_name family = name).
Proof.
  induction 1 as [|row reader Hrow _ IH]; intros data0 Hnd Hnames.
  - exists data0. split; [done|]. split; [done|]. split; [|done].
    intros name. simpl. rewrite elem_of_nil. tauto.
  - cbn [for_each]. rewrite (load_data_row data0 row Hrow), bind_ret.
    destruct (IH (dict_set (cell row "name") (person_of_row row) data0))
      as (data & E & Hnd' & Hkeys & Hnames').
    + by apply NoDup_keys_dict_set.
    + intros name family [[-> ->]|Hin]%elem_of_dict_set; [done|by apply Hnames].
    + exists data. split; [done|]. split; [done|]. split; [|done].
      intros name. rewrite Hkeys, elem_of_keys_dict_set. simpl. rewrite elem_of_cons. tauto.
Qed.

(** X7: for rows that have the four columns, [load_data] returns a
    dictionary in which no name is a key twice, the keys are exactly the
    names that occur in the rows, and every record carries its own key as
    its name. *)
Theorem load_data_keys (reader : list (dict string string)) :
  Forall has_columns reader ->
  exists data,
    load_data reader = ret data
    /\ NoDup (keys data)
    /\ (forall name, name ∈ keys data <-> name ∈ map (fun r => cell r "name") reader)
    /\ (forall name family, (name, family) ∈ data -> p_name family = name).
Proof.
  intros Hreader.
  destruct (load_data_loop_keys reader Hreader []) as (data & E & Hnd & Hkeys & Hnames).
  - apply NoDup_nil_2.
  - intros name family Hin. by apply elem_of_nil in Hin.
  - exists data. split; [done|]. split; [done|]. split; [|done].
    intros name. rewrite Hkeys. simpl. rewrite elem_of_nil. tauto.
Qed.

Lemma load_data_keys_witness :
  exists data,
    load_data rows_one_parent = ret data
    /\ NoDup (keys data)
    /\ (forall name, name ∈ keys data <-> name ∈ map (fun r => cell r "name") rows_one_parent)
    /\ (forall name family, (name, family) ∈ data -> p_name family = name).
Proof. apply (load_data_keys rows_one_parent). has_columns_tac. Defined.

Lemma load_data_body_missing_column (data : dict string person) (row : dict string string) :
  ~ has_columns row -> load_data_body data row = raise KeyError.
Proof.
  intros Hrow. unfold load_data_body.
  destruct (decide ("name" ∈ keys row)) as [Hn|Hn];
    [|by rewrite (dict_get_missing row "name")].
  rewrite (dict_get_cell row "name") by done. rewrite bind_ret.
  destruct (decide ("mother" ∈ keys row)) as [Hm|Hm];
    [|by rewrite (dict_get_missing row "mother")].
  rewrite (dict_get_cell row "mother") by done. rewrite bind_ret.
  destruct (decide ("father" ∈ keys row)) as [Hf|Hf];
    [|by rewrite (dict_get_missing row "father")].
  rewrite (dict_get_cell row "father") by done. rewrite bind_ret.
  destruct (decide ("trait" ∈ keys row)) as [Ht|Ht];
    [|by rewrite (dict_get_missing row "trait")].
  exfalso. apply Hrow. unfold has_columns.
  repeat (apply Forall_cons_2; [done|]). apply Forall_nil_2.
Qed.

(** X8: when some row lacks one of the columns name, mother, father, trait,
    [load_data] raises [KeyError] and returns no dataset, whatever the other
    rows are. *)
Theorem load_data_missing_column (reader : list (dict string string)) :
  Exists (fun row => ~ has_columns row) reader ->
  load_data reader = raise KeyError.
Proof.
  unfold load_data. generalize ([] : dict string person) as data0.
  induction reader as [|row reader IH]; intros data0 Hex.
  - by apply Exists_nil in Hex.
  - cbn [for_each].
    destruct (load_data_body_cases data0 row) as [->|(name & family & E)]; [done|].
    apply Exists_cons in Hex as [Hrow|Hex].
    + rewrite (load_data_body_missing_column data0 row Hrow) in E. discriminate E.
    + rewrite E, bind_ret. by apply IH.
Qed.

Lemma load_data_missing_column_witness :
  load_data [ [ ("name", "Harry"); ("mother", ""); ("father", "") ] ] = raise KeyError.
Proof.
  apply (load_data_missing_column [ [ ("name", "Harry"); ("mother", ""); ("father", "") ] ]).
  apply Exists_cons_hd. unfold has_columns. rewrite !Forall_cons.
  intros (_ & _ & _ & Ht & _). simpl in Ht.
  rewrite !elem_of_cons in Ht. rewrite elem_of_nil in Ht.
  destruct Ht as [Ht|[Ht|[Ht|Ht]]]; [discriminate Ht..|exact Ht].
Defined.

(** ** What [powerset] returns *)

Lemma length_subsets (l : list string) : length (subsets l) = (2 ^ length l)%nat.
Proof.
  induction l as [|x l IH]; simpl; [done|].
  rewrite length_app, length_map, IH. lia.
Qed.

(** A combination of [r] items of [s] has [r] items, in the order of [s]. *)
Lemma elem_of_combinations {A} (s : list A) (r : nat) (c : list A) :
  c ∈ combinations s r -> length c = r /\ c `sublist_of` s.
Proof.
  revert r c. induction s as [|x s IH]; intros [|r] c; simpl.
  - intros ->%list_elem_of_singleton. split; [done|constructor].
  - by intros ?%elem_of_nil.
  - intros ->%list_elem_of_singleton. split; [done|apply sublist_nil_l].
  - intros [Hin|Hin]%elem_of_app.
    + apply list_elem_of_fmap in Hin as (c' & -> & Hc'). destruct (IH _ _ Hc') as [<- Hsub].
      split; [done|by apply sublist_skip].
    + destruct (IH _ _ Hin) as [Hlen Hsub]. split; [done|by apply sublist_cons].
Qed.

Lemma size_combination (s : list string) (r : nat) (c : list string) :
  NoDup s -> c ∈ combinations s r -> size (list_to_set c : gset string) = r.
Proof.
  intros Hnd Hc. destruct (elem_of_combinations s r c Hc) as [<- Hsub].
  apply size_list_to_set. by apply (sublist_NoDup c s).
Qed.

Lemma combinations_by_size (s : list string) (start n : nat) :
  NoDup s ->
  StronglySorted (fun X Y : gset string => (size X <= size Y)%nat)
    (map list_to_set (flat_map (combinations s) (seq start n)))
  /\ forall X : gset string,
       X ∈ map list_to_set (flat_map (combinations s) (seq start n)) ->
       (start <= size X)%nat.
Proof.
  intros Hnd. revert start. induction n as [|n IH]; intros start; simpl.
  - split; [constructor|]. by intros X ?%elem_of_nil.
  - destruct (IH (S start)) as [Hsorted Hlow].
    assert (Hblock : forall X : gset string,
              X ∈ map list_to_set (combinations s start) -> size X = start).
    { intros X (c & -> & Hc)%list_elem_of_fmap. by apply (size_combination s). }
    rewrite map_app. split.
    + apply StronglySorted_app_2; [| |done].
      * intros X Y HX HY. rewrite (Hblock X HX). apply Hlow in HY. lia.
      * clear -Hblock. induction (map list_to_set (combinations s start)) as [|X l IH];
          [constructor|].
        constructor; [apply IH; intros Y HY; apply Hblock; by right|].
        apply Forall_forall. intros Y HY.
        rewrite (Hblock X) by left. rewrite (Hblock Y) by (by right). done.
    + intros X [HX|HX]%elem_of_app; [by rewrite (Hblock X HX)|].
      apply Hlow in HX. lia.
Qed.

(** X9: [powerset s] lists every subset of [s] and nothing else, each subset
    once, [2 ^ n] sets for [n] names, smaller sets before larger ones; the
    first is the empty set. *)
Theorem powerset_lists_subsets (s : gset string) :
  NoDup (powerset s)
  /\ (forall X, X ∈ powerset s <-> X ⊆ s)
  /\ length (powerset s) = (2 ^ size s)%nat
  /\ StronglySorted (fun X Y : gset string => (size X <= size Y)%nat) (powerset s)
  /\ head (powerset s) = Some ∅.
Proof.
  split; [apply NoDup_powerset|]. split; [apply elem_of_powerset|]. split; [|split].
  - rewrite powerset_Permutation, length_subsets. done.
  - unfold powerset. apply combinations_by_size, NoDup_elements.
  - unfold powerset. cbv zeta. rewrite Nat.add_1_r, <- cons_seq.
    destruct (elements s); reflexivity.
Qed.

(** ** The number of assignments that [main] evaluates *)

Lemma length_flat_map {A B} (f : A -> list B) (l : list A) :
  length (flat_map f l) = sum_list_with (fun x => length (f x)) l.
Proof. induction l as [|x l IH]; simpl; [done|]. by rewrite length_app, IH. Qed.

Lemma sum_list_with_ext_in {A} (f g : A -> nat) (l : list A) :
  (forall x, x ∈ l -> f x = g x) -> sum_list_with f l = sum_list_with g l.
Proof.
  induction l as [|x l IH]; intros Hfg; simpl; [done|].
  rewrite (Hfg x) by left. rewrite IH; [done|]. intros y Hy. apply Hfg. by right.
Qed.

Lemma sum_list_with_map {A B} (f : B -> nat) (g : A -> B) (l : list A) :
  sum_list_with f (map g l) = sum_list_with (fun x => f (g x)) l.
Proof. induction l as [|x l IH]; simpl; [done|]. by rewrite IH. Qed.

Lemma sum_list_with_scal {A} (c : nat) (f : A -> nat) (l : list A) :
  sum_list_with (fun x => c * f x)%nat l = (c * sum_list_with f l)%nat.
Proof. induction l as [|x l IH]; simpl; [lia|]. rewrite IH. lia. Qed.

Lemma filter_union_fresh (x : string) (A : gset string) (l : list string) :
  x ∉ l -> filter (fun i => i ∉ {[x]} ∪ A) l = filter (fun i => i ∉ A) l.
Proof.
  induction l as [|y l IH]; intros Hx; [done|].
  apply not_elem_of_cons in Hx as [Hne Hx]. specialize (IH Hx).
  destruct (decide (y ∈ A)) as [Hy|Hy].
  - rewrite !filter_cons_False by set_solver. done.
  - rewrite !filter_cons_True by set_solver. by rewrite IH.
Qed.

(** Choosing the one-copy group and then the two-copy group among the rest
    gives [3 ^ n] pairs. *)
Lemma sum_subsets_rest (l : list string) :
  NoDup l ->
  sum_list_with (fun A : gset string => 2 ^ length (filter (fun i => i ∉ A) l))%nat
                (subsets l)
  = (3 ^ length l)%nat.
Proof.
  induction l as [|x l IH]; intros Hnd; [done|].
  apply NoDup_cons in Hnd as [Hx Hnd]. specialize (IH Hnd).
  cbn [subsets]. rewrite sum_list_with_app, sum_list_with_map.
  rewrite (sum_list_with_ext_in _
             (fun A : gset string => 2 * 2 ^ length (filter (fun i => i ∉ A) l))%nat).
  2:{ intros A HA. rewrite filter_cons_True by (by apply (subsets_fresh x l A)). done. }
  rewrite (sum_list_with_ext_in (fun A : gset string => _ ^ length (filter _ (x :: l)))%nat
             (fun A : gset string => 2 ^ length (filter (fun i => i ∉ A) l))%nat).
  2:{ intros A HA. rewrite filter_cons_False by set_solver.
      by rewrite filter_union_fresh. }
  rewrite sum_list_with_scal, IH. simpl. lia.
Qed.

Lemma length_powerset (s : gset string) : length (powerset s) = (2 ^ size s)%nat.
Proof. by rewrite powerset_Permutation, length_subsets. Qed.

Lemma gene_pairs_count (names : gset string) :
  sum_list_with (fun one_gene => length (powerset (names ∖ one_gene))) (powerset names)
  = (3 ^ size names)%nat.
Proof.
  rewrite powerset_Permutation.
  etrans; [|exact (sum_subsets_rest (elements names) (NoDup_elements names))].
  apply sum_list_with_ext_in. intros A _.
  rewrite <- (list_to_set_elements_L names) at 1.
  rewrite (powerset_difference_subsets (elements names) A) by apply NoDup_elements.
  apply length_subsets.
Qed.

Lemma length_filter_Permutation {A} (f : A -> bool) (l l' : list A) :
  l ≡ₚ l' -> length (List.filter f l) = length (List.filter f l').
Proof.
  induction 1 as [|x l1 l2 _ IH|x y l|l1 l2 l3 _ IH1 _ IH2]; simpl.
  - done.
  - destruct (f x); simpl; by rewrite IH.
  - by destruct (f x), (f y).
  - by rewrite IH1.
Qed.

Lemma length_filter_ext_in {A} (f g : A -> bool) (l : list A) :
  (forall x, x ∈ l -> f x = g x) ->
  length (List.filter f l) = length (List.filter g l).
Proof.
  induction l as [|x l IH]; intros Hfg; simpl; [done|].
  rewrite (Hfg x) by left.
  assert (IH' : length (List.filter f l) = length (List.filter g l)).
  { apply IH. intros y Hy. apply Hfg. by right. }
  destruct (g x); simpl; by rewrite IH'.
Qed.

Lemma length_filter_map {A B} (f : B -> bool) (g : A -> B) (l : list A) :
  length (List.filter f (map g l)) = length (List.filter (fun x => f (g x)) l).
Proof.
  induction l as [|x l IH]; simpl; [done|]. destruct (f (g x)); simpl; by rewrite IH.
Qed.

Lemma existsb_ext_in {A} (f g : A -> bool) (l : list A) :
  (forall x, x ∈ l -> f x = g x) -> existsb f l = existsb g l.
Proof.
  induction l as [|x l IH]; intros Hfg; simpl; [done|].
  rewrite (Hfg x) by left. rewrite IH; [done|]. intros y Hy. apply Hfg. by right.
Qed.

Lemma contradicts_recorded (t b : bool) : bool_decide (Some t ≠ Some b) = xorb t b.
Proof. by destruct t, b. Qed.

Lemma length_filter_none {A} (l : list A) :
  length (List.filter (fun _ => false) l) = 0%nat.
Proof. by induction l. Qed.

(** Among the subsets of the names of a list, those that contradict no
    recorded trait are as many as the subsets of the names without a
    recorded trait. *)
Lemma surviving_count (c : string -> option bool) (l : list string) :
  NoDup l ->
  length (List.filter
            (fun A : gset string =>
               negb (existsb (fun x => match c x with
                                       | Some t => bool_decide (Some t ≠ Some (bool_decide (x ∈ A)))
                                       | None => false
                                       end) l))
            (subsets l))
  = (2 ^ length (List.filter (fun x => match c x with None => true | Some _ => false end) l))%nat.
Proof.
  induction l as [|x l IH]; intros Hnd; [done|].
  apply NoDup_cons in Hnd as [Hx Hnd]. specialize (IH Hnd).
  cbn [subsets]. rewrite List.filter_app, length_app, length_filter_map.
  pose (g := fun (A : gset string) (y : string) =>
               match c y with
               | Some t => bool_decide (Some t ≠ Some (bool_decide (y ∈ A)))
               | None => false
               end).
  change (length (List.filter (fun A => negb (existsb (g A) l)) (subsets l))
          = (2 ^ length (List.filter
                           (fun x => match c x with None => true | Some _ => false end) l))%nat)
    in IH.
  change ((length (List.filter (fun A => negb (existsb (g A) (x :: l))) (subsets l))
           + length (List.filter (fun A => negb (existsb (g ({[x]} ∪ A)) (x :: l)))
                                 (subsets l)))%nat
          = (2 ^ length (List.filter
                           (fun x => match c x with None => true | Some _ => false end)
                           (x :: l)))%nat).
  rewrite (length_filter_ext_in (fun A => negb (existsb (g A) (x :: l)))
             (fun A => negb (match c x with Some true => true | _ => false end)
                       && negb (existsb (g A) l))).
  2:{ intros A HA. pose proof (subsets_fresh x l A Hx HA) as HxA. cbn [existsb].
      rewrite negb_orb.
      assert (g A x = match c x with Some true => true | _ => false end) as ->; [|done].
      unfold g. destruct (c x) as [t|]; [|done].
      rewrite contradicts_recorded, (bool_decide_eq_false_2 (x ∈ A)) by done.
      by destruct t. }
  rewrite (length_filter_ext_in (fun A => negb (existsb (g ({[x]} ∪ A)) (x :: l)))
             (fun A => negb (match c x with Some false => true | _ => false end)
                       && negb (existsb (g A) l))).
  2:{ intros A HA. cbn [existsb]. rewrite negb_orb.
      assert (g ({[x]} ∪ A) x = match c x with Some false => true | _ => false end) as ->.
      { unfold g. destruct (c x) as [t|]; [|done].
        rewrite contradicts_recorded, (bool_decide_eq_true_2 (x ∈ {[x]} ∪ A)) by set_solver.
        by destruct t. }
      do 2 f_equal. apply existsb_ext_in. intros y Hy. unfold g.
      destruct (c y) as [t|]; [|done].
      assert (y <> x) by (by intros ->).
      rewrite !contradicts_recorded. f_equal. apply bool_decide_ext. set_solver. }
  cbn [List.filter]. destruct (c x) as [[|]|]; simpl.
  - rewrite IH, length_filter_none. lia.
  - rewrite IH, length_filter_none. lia.
  - rewrite IH. lia.
Qed.

Lemma surviving_trait_subsets_count people :
  length (surviving_trait_subsets people) = (2 ^ length (without_evidence people))%nat.
Proof.
  unfold surviving_trait_subsets, without_evidence.
  rewrite (length_filter_Permutation _ _ _ (powerset_Permutation (names_of people))).
  apply (surviving_count (evidence people) (elements (names_of people))).
  apply NoDup_elements.
Qed.

(** X10: of the candidate trait subsets, those that pass the evidence filter
    are as many as the subsets of the individuals without a recorded
    trait, and for each of them [main] calls [joint_probability] [3 ^ n]
    times, [n] being the number of names: [2 ^ u * 3 ^ n] calls, with [u]
    individuals without a recorded trait. *)
Theorem evaluations_count (people : dict string person) :
  length (surviving_trait_subsets people) = (2 ^ length (without_evidence people))%nat
  /\ length (assignments_evaluated (calls (main people)))
     = (2 ^ length (without_evidence people) * 3 ^ size (names_of people))%nat.
Proof.
  split; [apply surviving_trait_subsets_count|].
  assert (Hcount : forall l : list (gset string),
    length (flat_map (fun have_trait =>
              if evidence_fails people have_trait then []
              else flat_map (fun one_gene =>
                     map (fun two_genes => (one_gene, two_genes, have_trait))
                         (powerset (names_of people ∖ one_gene)))
                     (powerset (names_of people))) l)
    = (length (List.filter (fun have_trait => negb (evidence_fails people have_trait)) l)
       * 3 ^ size (names_of people))%nat).
  { induction l as [|ht l IH]; [done|]. cbn [flat_map List.filter].
    rewrite length_app, IH. destruct (evidence_fails people ht); simpl; [done|].
    rewrite length_flat_map.
    rewrite (sum_list_with_ext_in _
               (fun one_gene => length (powerset (names_of people ∖ one_gene))))
      by (intros og _; apply length_map).
    by rewrite gene_pairs_count. }
  rewrite main_calls, assignments_evaluated_enumerate, Hcount.
  f_equal. apply surviving_trait_subsets_count.
Qed.

(** ** Overlapping sets *)

Lemma for_each_ext {A S} (l : list A) (body1 body2 : S -> A -> py S) :
  (forall s x, body1 s x = body2 s x) ->
  forall s, for_each l body1 s = for_each l body2 s.
Proof.
  intros Hbody. induction l as [|x l IH]; intros s; simpl; [done|].
  rewrite Hbody. destruct (body2 s x) as [lg [e|s']]; simpl; [done|]. by rewrite IH.
Qed.

Lemma gene_count_difference x (one_gene two_genes : gset string) :
  gene_count x (one_gene ∖ two_genes) two_genes = gene_count x one_gene two_genes.
Proof.
  destruct x as [n|]; [|done]. unfold gene_count.
  repeat case_decide; try done; set_solver.
Qed.

(** X11: a name in both [one_gene] and [two_genes] counts as having two
    copies: [joint_probability] and [update] give what they give when the
    name is taken out of [one_gene]. *)
Theorem two_genes_takes_precedence (people : dict string person)
    (probabilities : dict string features)
    (one_gene two_genes have_trait : gset string) (p : Q) :
  outcome (joint_probability people one_gene two_genes have_trait)
  = outcome (joint_probability people (one_gene ∖ two_genes) two_genes have_trait)
  /\ outcome (update probabilities one_gene two_genes have_trait p)
     = outcome (update probabilities (one_gene ∖ two_genes) two_genes have_trait p).
Proof.
  split.
  - unfold joint_probability.
    rewrite (for_each_ext people
               (joint_probability_body (one_gene ∖ two_genes) two_genes have_trait)
               (joint_probability_body one_gene two_genes have_trait)).
    + simpl. by destruct (for_each _ _ _).
    + intros joint_p [person family]. unfold joint_probability_body.
      by rewrite !gene_count_difference.
  - unfold update.
    rewrite (for_each_ext (keys probabilities)
               (update_body (one_gene ∖ two_genes) two_genes have_trait p)
               (update_body one_gene two_genes have_trait p)).
    + simpl. by destruct (for_each _ _ _).
    + intros t person. unfold update_body. by rewrite !gene_count_difference.
Qed.

(** ** Exchanging mother and father *)

Lemma joint_probability_body_swap one_gene two_genes have_trait person family :
  exists l l' x x',
    (forall joint_p,
        joint_probability_body one_gene two_genes have_trait joint_p (person, family)
        = (l, inr (joint_p * x)))
    /\ (forall joint_p,
        joint_probability_body one_gene two_genes have_trait joint_p
          (person, swap_parents family)
        = (l', inr (joint_p * x')))
    /\ x == x'.
Proof.
  destruct family as [n [m|] [f|] t]; unfold joint_probability_body, swap_parents;
    simpl p_mother; simpl p_father;
    case_gene_count;
    (do 4 eexists; split; [intros joint_p; reflexivity|];
     split; [intros joint_p; reflexivity|by vm_compute]).
Qed.

Lemma joint_probability_loop_swap one_gene two_genes have_trait people :
  forall joint_p joint_p', joint_p == joint_p' ->
  exists l l' q q',
    for_each people (joint_probability_body one_gene two_genes have_trait) joint_p
    = (l, inr q)
    /\ for_each (swap_all_parents people)
         (joint_probability_body one_gene two_genes have_trait) joint_p'
       = (l', inr q')
    /\ q == q'.
Proof.
  induction people as [|[person family] people IH]; intros joint_p joint_p' Hp;
    simpl for_each.
  - by exists [], [], joint_p, joint_p'.
  - destruct (joint_probability_body_swap one_gene two_genes have_trait person family)
      as (l1 & l1' & x & x' & E1 & E1' & Hx).
    destruct (IH (joint_p * x) (joint_p' * x')) as (l2 & l2' & q & q' & E2 & E2' & Hq).
    { by rewrite Hp, Hx. }
    exists (l1 ++ l2), (l1' ++ l2'), q, q'.
    rewrite (bind_value _ _ _ _ (E1 joint_p)), E2.
    simpl fst. simpl snd. rewrite (bind_value _ _ _ _ (E1' joint_p')), E2'. done.
Qed.

(** X12: [joint_probability] does not tell mother from father: with the two
    parents of every individual exchanged it returns the same number, also
    where only one parent is recorded. *)
Theorem joint_probability_parent_symmetry (people : dict string person)
    (one_gene two_genes have_trait : gset string) :
  exists q q',
    outcome (joint_probability people one_gene two_genes have_trait) = inr q
    /\ outcome (joint_probability (swap_all_parents people) one_gene two_genes have_trait)
       = inr q'
    /\ q == q'.
Proof.
  destruct (joint_probability_loop_swap one_gene two_genes have_trait people 1 1)
    as (l & l' & q & q' & E & E' & Hq); [done|].
  exists q, q'. unfold joint_probability. simpl. by rewrite E, E'.
Qed.

(** ** The order and the grouping of the individuals *)

Lemma joint_probability_body_factor one_gene two_genes have_trait person family :
  exists l x,
    forall joint_p,
      joint_probability_body one_gene two_genes have_trait joint_p (person, family)
      = (l, inr (joint_p * x)).
Proof.
  destruct (joint_probability_body_swap one_gene two_genes have_trait person family)
    as (l & _ & x & _ & E & _). by exists l, x.
Qed.

(** The loop of [joint_probability] is linear in the number it starts
    from. *)
Lemma joint_probability_loop_linear one_gene two_genes have_trait people :
  forall joint_p joint_p' c, joint_p == c * joint_p' ->
  exists l q q',
    for_each people (joint_probability_body one_gene two_genes have_trait) joint_p
    = (l, inr q)
    /\ for_each people (joint_probability_body one_gene two_genes have_trait) joint_p'
       = (l, inr q')
    /\ q == c * q'.
Proof.
  induction people as [|[person family] people IH]; intros joint_p joint_p' c Hp;
    simpl for_each.
  - by exists [], joint_p, joint_p'.
  - destruct (joint_probability_body_factor one_gene two_genes have_trait person family)
      as (l1 & x & E1).
    destruct (IH (joint_p * x) (joint_p' * x) c) as (l2 & q & q' & E2 & E2' & Hq).
    { rewrite Hp. ring. }
    exists (l1 ++ l2), q, q'.
    rewrite (bind_value _ _ _ _ (E1 joint_p)), E2.
    simpl fst. simpl snd. rewrite (bind_value _ _ _ _ (E1 joint_p')), E2'. done.
Qed.

Lemma for_each_app {A S} (l1 l2 : list A) (body : S -> A -> py S) s :
  for_each (l1 ++ l2) body s = (s' <- for_each l1 body s ;; for_each l2 body s').
Proof.
  revert s. induction l1 as [|x l1 IH]; intros s.
  - symmetry. apply bind_ret.
  - simpl. destruct (body s x) as [lg [e|s1]]; simpl; [done|]. rewrite IH.
    destruct (for_each l1 body s1) as [lg1 [e|s2]]; simpl; [done|].
    destruct (for_each l2 body s2) as [lg2 r]. by rewrite app_assoc.
Qed.

Lemma outcome_joint_probability people one_gene two_genes have_trait :
  outcome (joint_probability people one_gene two_genes have_trait)
  = outcome (for_each people (joint_probability_body one_gene two_genes have_trait) 1).
Proof. unfold joint_probability. simpl. by destruct (for_each _ _ _). Qed.

Lemma joint_value_app people1 people2 one_gene two_genes have_trait :
  joint_value (people1 ++ people2) one_gene two_genes have_trait
  == joint_value people1 one_gene two_genes have_trait
     * joint_value people2 one_gene two_genes have_trait.
Proof.
  unfold joint_value. rewrite !outcome_joint_probability, for_each_app.
  destruct (joint_probability_loop_linear one_gene two_genes have_trait people1 1 1 1)
    as (l1 & q1 & _ & E1 & _ & _); [done|].
  destruct (joint_probability_loop_linear one_gene two_genes have_trait people2 q1 1 q1)
    as (l2 & q & q2 & E2 & E2' & Hq); [ring|].
  rewrite (bind_value _ _ _ _ E1), E1, E2, E2'. exact Hq.
Qed.

(** X13: in exact rational arithmetic the joint probability of a dataset
    written as two parts is the product of the joint probabilities of the
    parts: each individual contributes a factor that depends on the three
    sets only, the gene counts of the parents being read from the sets and
    not from the records of the parents. In binary64 the two groupings of
    the product can differ in the last digit
    ([binary64_joint_probability_grouping]). *)
Theorem joint_probability_multiplicative (people1 people2 : dict string person)
    (one_gene two_genes have_trait : gset string) :
  exists q q1 q2,
    outcome (joint_probability (people1 ++ people2) one_gene two_genes have_trait) = inr q
    /\ outcome (joint_probability people1 one_gene two_genes have_trait) = inr q1
    /\ outcome (joint_probability people2 one_gene two_genes have_trait) = inr q2
    /\ q == q1 * q2.
Proof.
  pose proof (joint_value_app people1 people2 one_gene two_genes have_trait) as Happ.
  unfold joint_value in Happ.
  destruct (joint_probability_value (people1 ++ people2) one_gene two_genes have_trait)
    as (l & q & E & _).
  destruct (joint_probability_value people1 one_gene two_genes have_trait)
    as (l1 & q1 & E1 & _).
  destruct (joint_probability_value people2 one_gene two_genes have_trait)
    as (l2 & q2 & E2 & _).
  rewrite E, E1, E2 in Happ. exists q, q1, q2. by rewrite E, E1, E2.
Qed.

Lemma joint_probability_loop_Permutation one_gene two_genes have_trait people people' :
  people ≡ₚ people' ->
  forall joint_p joint_p', joint_p == joint_p' ->
  exists l l' q q',
    for_each people (joint_probability_body one_gene two_genes have_trait) joint_p
    = (l, inr q)
    /\ for_each people' (joint_probability_body one_gene two_genes have_trait) joint_p'
       = (l', inr q')
    /\ q == q'.
Proof.
  induction 1 as [|[person family] people people' _ IH
                  |[person1 family1] [person2 family2] people
                  |people1 people2 people3 _ IH1 _ IH2];
    intros joint_p joint_p' Hp.
  - by exists [], [], joint_p, joint_p'.
  - destruct (joint_probability_body_factor one_gene two_genes have_trait person family)
      as (l1 & x & E1).
    destruct (IH (joint_p * x) (joint_p' * x)) as (l2 & l2' & q & q' & E2 & E2' & Hq).
    { by rewrite Hp. }
    exists (l1 ++ l2), (l1 ++ l2'), q, q'. simpl for_each.
    rewrite (bind_value _ _ _ _ (E1 joint_p)), E2.
    simpl fst. simpl snd. rewrite (bind_value _ _ _ _ (E1 joint_p')), E2'. done.
  - destruct (joint_probability_body_factor one_gene two_genes have_trait person1 family1)
      as (l1 & x1 & E1).
    destruct (joint_probability_body_factor one_gene two_genes have_trait person2 family2)
      as (l2 & x2 & E2).
    destruct (joint_probability_loop_linear one_gene two_genes have_trait people
                (joint_p * x2 * x1) (joint_p' * x1 * x2) 1)
      as (l & q & q' & E & E' & Hq).
    { rewrite Hp. ring. }
    exists (l2 ++ l1 ++ l), (l1 ++ l2 ++ l), q, q'. simpl for_each.
    rewrite (bind_value _ _ _ _ (E2 joint_p)). simpl fst. simpl snd.
    rewrite (bind_value _ _ _ _ (E1 (joint_p * x2))), E.
    rewrite (bind_value _ _ _ _ (E1 joint_p')). simpl fst. simpl snd.
    rewrite (bind_value _ _ _ _ (E2 (joint_p' * x1))), E'.
    simpl. split; [done|]. split; [done|]. rewrite Hq. ring.
  - destruct (IH1 joint_p joint_p' Hp) as (l1 & l2 & q1 & q2 & E1 & E2 & H12).
    destruct (IH2 joint_p' joint_p') as (l2' & l3 & q2' & q3 & E2' & E3 & H23); [done|].
    rewrite E2 in E2'. injection E2' as <- <-.
    exists l1, l3, q1, q3. split; [done|]. split; [done|]. by rewrite H12.
Qed.

(** X14: the order of the individuals in the dataset does not matter to
    [joint_probability]. *)
Theorem joint_probability_order (people people' : dict string person)
    (one_gene two_genes have_trait : gset string) :
  people ≡ₚ people' ->
  exists q q',
    outcome (joint_probability people one_gene two_genes have_trait) = inr q
    /\ outcome (joint_probability people' one_gene two_genes have_trait) = inr q'
    /\ q == q'.
Proof.
  intros Hperm.
  destruct (joint_probability_loop_Permutation one_gene two_genes have_trait
              people people' Hperm 1 1) as (l & l' & q & q' & E & E' & Hq); [done|].
  exists q, q'. unfold joint_probability. simpl. by rewrite E, E'.
Qed.

Lemma joint_probability_order_witness :
  exists q q',
    outcome (joint_probability family_of_three {["Harry"]} {["James"]} {["James"]}) = inr q
    /\ outcome (joint_probability (rev family_of_three) {["Harry"]} {["James"]} {["James"]})
       = inr q'
    /\ q == q'.
Proof.
  apply (joint_probability_order family_of_three (rev family_of_three)).
  apply Permutation_rev.
Defined.

(** ** What [update] does to a table *)

(** X15: on a table without duplicate names whose histograms have the keys
    [main] gave them, [update] never raises and calls nothing; it keeps the
    names and the keys of the histograms, adds [p] to the gene bucket and to
    the trait bucket that the assignment gives each individual, and leaves
    every other bucket as it was. *)
Theorem update_adds_to_hit_buckets (probabilities : dict string features)
    (one_gene two_genes have_trait : gset string) (p : Q) :
  NoDup (keys probabilities) ->
  well_shaped probabilities ->
  exists probabilities',
    update probabilities one_gene two_genes have_trait p
    = ([call_update one_gene two_genes have_trait p], inr probabilities')
    /\ keys probabilities' = keys probabilities
    /\ well_shaped probabilities'
    /\ forall k b,
         k ∈ keys probabilities ->
         mass probabilities' k b
         == mass probabilities k b
            + (if hits one_gene two_genes have_trait k b then p else 0).
Proof.
  intros Hnd Hshape.
  destruct (update_total probabilities one_gene two_genes have_trait p Hshape)
    as (t & E & _).
  destruct (update_mass probabilities one_gene two_genes have_trait p Hnd Hshape)
    as (t' & E' & Hkeys & Hshape' & Hmass).
  rewrite E in E'. injection E' as <-. by exists t.
Qed.

Lemma update_adds_to_hit_buckets_witness :
  exists probabilities',
    update raw_table {["Harry"]} ∅ ∅ 0.5
    = ([call_update {["Harry"]} ∅ ∅ 0.5], inr probabilities')
    /\ keys probabilities' = keys raw_table
    /\ well_shaped probabilities'
    /\ forall k b,
         k ∈ keys raw_table ->
         mass probabilities' k b
         == mass raw_table k b + (if hits {["Harry"]} ∅ ∅ k b then 0.5 else 0).
Proof.
  apply (update_adds_to_hit_buckets raw_table {["Harry"]} ∅ ∅ 0.5).
  - apply NoDup_singleton.
  - apply Forall_cons_2; [by split|apply Forall_nil_2].
Defined.

(** ** [update] on a table that lacks a bucket *)

Section DictModifyFacts.
Context {K : Type} `{EqDecision K} {V : Type}.
Implicit Types (d : dict K V) (k : K) (v : V).

Lemma dict_modify_missing (f : V -> py V) d k :
  k ∉ keys d -> dict_modify f k d = raise KeyError.
Proof.
  induction d as [|[k0 v0] d IH]; simpl; intros Hk; [done|].
  apply not_elem_of_cons in Hk as [Hne Hk]. rewrite decide_False by done.
  by rewrite IH.
Qed.

Lemma dict_modify_raise (f : V -> py V) d k v :
  dict_get d k = ret v -> f v = raise KeyError -> dict_modify f k d = raise KeyError.
Proof.
  intros Hget Hf. revert Hget.
  induction d as [|[k0 v0] d IH]; simpl; intros Hget; [done|].
  destruct (decide (k = k0)) as [->|Hne].
  - injection Hget as ->. by rewrite Hf.
  - by rewrite IH.
Qed.

Lemma dict_modify_cases (f : V -> py V) d k :
  (forall v, f v = raise KeyError \/ exists v', f v = ret v') ->
  dict_modify f k d = raise KeyError
  \/ exists d', dict_modify f k d = ret d'
       /\ forall k', k' <> k -> dict_get d' k' = dict_get d k'.
Proof.
  intros Hf. induction d as [|[k0 v0] d IH]; simpl; [by left|].
  destruct (decide (k = k0)) as [->|Hne].
  - destruct (Hf v0) as [->|[v' ->]]; [by left|]. right. rewrite bind_ret.
    eexists. split; [done|]. intros k' Hk'. simpl. by rewrite !decide_False.
  - destruct IH as [->|(d' & -> & Hd')]; [by left|]. right. rewrite bind_ret.
    eexists. split; [done|]. intros k' Hk'. simpl.
    destruct (decide (k' = k0)); [done|]. by apply Hd'.
Qed.
End DictModifyFacts.

Lemma add_cases {K} `{EqDecision K} (d : dict K Q) k p :
  dict_modify (fun v => ret (v + p)) k d = raise KeyError
  \/ exists d', dict_modify (fun v => ret (v + p)) k d = ret d'.
Proof.
  destruct (dict_modify_cases (fun v => ret (v + p)) d k) as [?|(d' & ? & _)];
    [intros v; right; by eexists|by left|right; by exists d'].
Qed.

Lemma update_body_cases one_gene two_genes have_trait p probabilities person :
  update_body one_gene two_genes have_trait p probabilities person = raise KeyError
  \/ exists probabilities',
       update_body one_gene two_genes have_trait p probabilities person = ret probabilities'
       /\ forall k, k <> person -> dict_get probabilities' k = dict_get probabilities k.
Proof.
  unfold update_body. apply dict_modify_cases. intros fs.
  destruct (add_cases (f_gene fs) (gene_count (Some person) one_gene two_genes) p)
    as [->|[by_gene ->]]; [by left|]. rewrite bind_ret.
  destruct (add_cases (f_trait fs) (bool_decide (person ∈ have_trait)) p)
    as [->|[by_trait ->]]; [by left|]. rewrite bind_ret. right. by eexists.
Qed.

Lemma update_body_missing_bucket one_gene two_genes have_trait p probabilities person fs :
  dict_get probabilities person = ret fs ->
  gene_count (Some person) one_gene two_genes ∉ keys (f_gene fs)
  \/ bool_decide (person ∈ have_trait) ∉ keys (f_trait fs) ->
  update_body one_gene two_genes have_trait p probabilities person = raise KeyError.
Proof.
  intros Hget Hmissing. unfold update_body.
  apply (dict_modify_raise _ probabilities person fs Hget).
  destruct Hmissing as [Hg|Ht].
  - by rewrite (dict_modify_missing _ (f_gene fs)).
  - destruct (add_cases (f_gene fs) (gene_count (Some person) one_gene two_genes) p)
      as [->|[by_gene ->]]; [done|]. rewrite bind_ret.
    by rewrite (dict_modify_missing _ (f_trait fs)).
Qed.

Lemma update_loop_missing_bucket one_gene two_genes have_trait p person fs
    (ks : list string) :
  person ∈ ks ->
  gene_count (Some person) one_gene two_genes ∉ keys (f_gene fs)
  \/ bool_decide (person ∈ have_trait) ∉ keys (f_trait fs) ->
  forall probabilities,
    dict_get probabilities person = ret fs ->
    for_each ks (update_body one_gene two_genes have_trait p) probabilities
    = raise KeyError.
Proof.
  intros Hin Hmissing. induction ks as [|k ks IH]; intros t Hget;
    [by apply elem_of_nil in Hin|].
  cbn [for_each]. destruct (decide (k = person)) as [->|Hne].
  - by rewrite (update_body_missing_bucket _ _ _ _ t person fs Hget Hmissing).
  - apply elem_of_cons in Hin as [?|Hin]; [done|].
    destruct (update_body_cases one_gene two_genes have_trait p t k)
      as [->|(t' & -> & Hother)]; [done|].
    rewrite bind_ret. apply IH; [done|]. rewrite Hother; [done|]. by intros ->.
Qed.

(** X16: [update] relies on the shape of the table: where the gene histogram
    of some individual has no bucket for the gene count that the assignment
    gives that individual, or the trait histogram has none for the trait
    value, [update] raises [KeyError]. *)
Theorem update_missing_bucket (probabilities : dict string features)
    (one_gene two_genes have_trait : gset string) (p : Q) person fs :
  dict_get probabilities person = ret fs ->
  gene_count (Some person) one_gene two_genes ∉ keys (f_gene fs)
  \/ bool_decide (person ∈ have_trait) ∉ keys (f_trait fs) ->
  outcome (update probabilities one_gene two_genes have_trait p) = inl KeyError.
Proof.
  intros Hget Hmissing. unfold update.
  rewrite (update_loop_missing_bucket one_gene two_genes have_trait p person fs
             (keys probabilities)); [done| |done|done].
  destruct (decide (person ∈ keys probabilities)) as [Hk|Hk]; [done|].
  rewrite (dict_get_missing probabilities person Hk) in Hget. discriminate Hget.
Qed.

Lemma update_missing_bucket_witness :
  outcome (update [ ("Harry", {| f_gene := [ (1%nat, 0); (0%nat, 0) ];
                                 f_trait := [ (true, 0); (false, 0) ] |}) ]
                  ∅ {["Harry"]} ∅ 0.5)
  = inl KeyError.
Proof.
  apply (update_missing_bucket _ ∅ {["Harry"]} ∅ 0.5 "Harry"
           {| f_gene := [ (1%nat, 0); (0%nat, 0) ];
              f_trait := [ (true, 0); (false, 0) ] |}).
  - reflexivity.
  - left. simpl. rewrite decide_True by set_solver.
    rewrite !not_elem_of_cons. repeat split; try lia. apply not_elem_of_nil.
Defined.

(** ** The total of every histogram before normalisation *)

Lemma sum_over_plus {A} (f g : A -> Q) (l : list A) :
  sum_over (fun x => f x + g x) l == sum_over f l + sum_over g l.
Proof. induction l as [|x l IH]; simpl; [ring|]. rewrite IH. ring. Qed.

Lemma hits_gene_total one_gene two_genes have_trait k (v : Q) :
  (if hits one_gene two_genes have_trait k (gene_bucket 2) then v else 0)
  + (if hits one_gene two_genes have_trait k (gene_bucket 1) then v else 0)
  + (if hits one_gene two_genes have_trait k (gene_bucket 0) then v else 0)
  == v.
Proof.
  unfold hits, in_bucket, gene_count.
  repeat case_decide; repeat case_bool_decide; try lia; ring.
Qed.

Lemma hits_trait_total one_gene two_genes have_trait k (v : Q) :
  (if hits one_gene two_genes have_trait k (trait_bucket true) then v else 0)
  + (if hits one_gene two_genes have_trait k (trait_bucket false) then v else 0)
  == v.
Proof.
  unfold hits, in_bucket.
  repeat case_bool_decide; try done; ring.
Qed.

Lemma accumulated_gene_total people k :
  accumulated people k (gene_bucket 2) + accumulated people k (gene_bucket 1)
  + accumulated people k (gene_bucket 0)
  == evidence_mass people.
Proof.
  unfold accumulated, evidence_mass. rewrite <- !sum_over_plus.
  apply sum_over_ext. intros ht _.
  destruct (evidence_fails people ht); [ring|].
  rewrite <- !sum_over_plus. apply sum_over_ext. intros og _.
  rewrite <- !sum_over_plus. apply sum_over_ext. intros tg _.
  apply hits_gene_total.
Qed.

Lemma accumulated_trait_total people k :
  accumulated people k (trait_bucket true) + accumulated people k (trait_bucket false)
  == evidence_mass people.
Proof.
  unfold accumulated, evidence_mass. rewrite <- !sum_over_plus.
  apply sum_over_ext. intros ht _.
  destruct (evidence_fails people ht); [ring|].
  rewrite <- !sum_over_plus. apply sum_over_ext. intros og _.
  rewrite <- !sum_over_plus. apply sum_over_ext. intros tg _.
  apply hits_trait_total.
Qed.

(** X17: in exact rational arithmetic, when the three loops of [main] end,
    every histogram of the table, gene or trait, of whatever individual, has
    the same sum: the total of the joint probabilities of the enumerated
    assignments. So in exact arithmetic [normalize] divides every bucket of
    the table by one and the same number. In binary64 the sums can differ
    in the last digit ([binary64_lone_founder]). *)
Theorem histograms_share_total (people : dict string person) :
  NoDup (keys people) ->
  exists probabilities,
    outcome (enumerate people (map (fun person => (person, initial_features)) (keys people)))
    = inr probabilities
    /\ keys probabilities = keys people
    /\ 0 < evidence_mass people
    /\ forall person fs,
         (person, fs) ∈ probabilities ->
         sum (values (f_gene fs)) == evidence_mass people
         /\ sum (values (f_trait fs)) == evidence_mass people.
Proof.
  intros Hnd.
  destruct (enumerate_accumulated people Hnd) as (t & E & Hkeys & Hshape & Hmass).
  exists t. split; [done|]. split; [done|]. split.
  { destruct (joint_value_range people ∅ ∅ (known_to_have_trait people)) as [Hpos _].
    eapply Qlt_le_trans; [exact Hpos|].
    rewrite <- (accumulated_gene_total people "").
    pose proof (accumulated_nonneg people "" (gene_bucket 2)) as H2.
    pose proof (accumulated_nonneg people "" (gene_bucket 1)) as H1.
    assert (H0 : joint_value people ∅ ∅ (known_to_have_trait people)
                 <= accumulated people "" (gene_bucket 0)).
    { apply accumulated_lower; [apply known_to_have_trait_subseteq
                               |apply known_to_have_trait_respects|set_solver..|].
      unfold hits, in_bucket, gene_count. by repeat case_decide; try set_solver. }
    rewrite <- (Qplus_0_l (joint_value _ _ _ _)).
    apply Qplus_le_compat; [|done].
    rewrite <- (Qplus_0_l 0). by apply Qplus_le_compat. }
  intros person fs Hin.
  assert (Hperson : person ∈ keys people).
  { rewrite <- Hkeys. apply list_elem_of_fmap. by exists (person, fs). }
  destruct (histograms_of_mass t person fs) as [Eg Et]; [by rewrite Hkeys|done|done|].
  rewrite Eg, Et. simpl. rewrite sum_three, sum_two, !Hmass by done.
  split; [apply accumulated_gene_total|apply accumulated_trait_total].
Qed.

Lemma histograms_share_total_witness :
  exists probabilities,
    outcome (enumerate two_founders
               (map (fun person => (person, initial_features)) (keys two_founders)))
    = inr probabilities
    /\ keys probabilities = keys two_founders
    /\ 0 < evidence_mass two_founders
    /\ forall person fs,
         (person, fs) ∈ probabilities ->
         sum (values (f_gene fs)) == evidence_mass two_founders
         /\ sum (values (f_trait fs)) == evidence_mass two_founders.
Proof.
  apply (histograms_share_total two_founders).
  apply (bool_decide_unpack _). vm_compute. exact I.
Defined.

(** ** Names that occur in several rows *)

Lemma keys_dict_set {V} (d : dict string V) k v :
  keys (dict_set k v d) = if decide (k ∈ keys d) then keys d else keys d ++ [k].
Proof.
  induction d as [|[k0 v0] d IH].
  - destruct (decide (k ∈ keys [])) as [Hk|Hk]; [by apply elem_of_nil in Hk|done].
  - simpl. destruct (decide (k = k0)) as [->|Hne]; simpl.
    + by rewrite decide_True by left.
    + rewrite IH. destruct (decide (k ∈ keys d)) as [Hk|Hk].
      * by rewrite decide_True by (by right).
      * rewrite decide_False; [done|]. by intros [?|?]%elem_of_cons.
Qed.

Lemma load_data_loop_order (reader : list (dict string string)) :
  Forall has_columns reader ->
  forall data0, exists data,
    for_each reader load_data_body data0 = ret data
    /\ keys data
       = keys data0
         ++ first_occurrences (list_to_set (keys data0))
              (map (fun r => cell r "name") reader).
Proof.
  induction 1 as [|row reader Hrow _ IH]; intros data0.
  - exists data0. split; [done|]. simpl. by rewrite app_nil_r.
  - cbn [for_each]. rewrite (load_data_row data0 row Hrow), bind_ret.
    destruct (IH (dict_set (cell row "name") (person_of_row row) data0))
      as (data & E & Hkeys).
    exists data. split; [done|]. rewrite Hkeys, keys_dict_set. simpl.
    destruct (decide (cell row "name" ∈ keys data0)) as [Hk|Hk].
    + by rewrite decide_True by (by apply elem_of_list_to_set).
    + rewrite decide_False by (by rewrite elem_of_list_to_set).
      rewrite <- app_assoc. simpl. do 3 f_equal.
      rewrite list_to_set_app_L. simpl. set_solver.
Qed.

(** X18: a name that occurs in several rows is a key once: it keeps the
    place of its first row, and holds the record of its last row. *)
Theorem load_data_repeated_names (reader : list (dict string string)) :
  Forall has_columns reader ->
  exists data,
    load_data reader = ret data
    /\ keys data = first_occurrences ∅ (map (fun r => cell r "name") reader)
    /\ forall front row back,
         reader = front ++ row :: back ->
         cell row "name" ∉ map (fun r => cell r "name") back ->
         dict_get data (cell row "name") = ret (person_of_row row).
Proof.
  intros Hreader.
  destruct (load_data_loop_order reader Hreader []) as (data & E & Hkeys).
  destruct (load_data_loop reader Hreader []) as (data' & E' & Hlast & _).
  rewrite E in E'. injection E' as <-.
  exists data. split; [done|]. split; [|done]. by rewrite Hkeys.
Qed.

Lemma load_data_repeated_names_witness :
  exists data,
    load_data (rows_one_parent ++ rows_unknown_parents) = ret data
    /\ keys data
       = first_occurrences ∅
           (map (fun r => cell r "name") (rows_one_parent ++ rows_unknown_parents))
    /\ forall front row back,
         rows_one_parent ++ rows_unknown_parents = front ++ row :: back ->
         cell row "name" ∉ map (fun r => cell r "name") back ->
         dict_get data (cell row "name") = ret (person_of_row row).
Proof.
  apply (load_data_repeated_names (rows_one_parent ++ rows_unknown_parents)).
  simpl. has_columns_tac.
Defined.

(** ** From the rows of the file to the table *)

(** X19: [main] runs on whatever [load_data] returns: for rows that have the
    four columns the two together never raise, whether or not the parents
    named in a row are rows of the file, and the table has the names of the
    rows in the order in which they occur first. *)
Theorem load_data_then_main (reader : list (dict string string)) :
  Forall has_columns reader ->
  exists people probabilities,
    load_data reader = ret people
    /\ outcome (main people) = inr probabilities
    /\ keys probabilities
       = first_occurrences ∅ (map (fun r => cell r "name") reader).
Proof.
  intros Hreader.
  destruct (load_data_loop_order reader Hreader []) as (data & E & Hkeys).
  destruct (load_data_loop_keys reader Hreader []) as (data' & E' & Hnd & _).
  { apply NoDup_nil_2. }
  { intros name family Hin. by apply elem_of_nil in Hin. }
  rewrite E in E'. injection E' as <-.
  destruct (main_entries data Hnd) as (t & Et & Hkeys' & _).
  exists data, t. split; [done|]. split; [done|]. by rewrite Hkeys', Hkeys.
Qed.

Lemma load_data_then_main_witness :
  exists people probabilities,
    load_data rows_unknown_parents = ret people
    /\ outcome (main people) = inr probabilities
    /\ keys probabilities
       = first_occurrences ∅ (map (fun r => cell r "name") rows_unknown_parents).
Proof. apply (load_data_then_main rows_unknown_parents). has_columns_tac. Defined.

(** ** A parent that is not recorded *)

(** X20: for a parent that is not recorded,
    [get_unknown_parent_gene_probability] gives what
    [get_parent_gene_probability] gives for a recorded parent, averaged over
    the gene count of the parent with the weights of [PROBS["gene"]]:
    0.0345 for transmitting the gene, 0.9655 for not transmitting it. *)
Theorem unknown_parent_is_prior_average (child_has_gene : bool) (parent : string) :
  exists q t0 t1 t2,
    outcome (get_unknown_parent_gene_probability child_has_gene) = inr q
    /\ outcome (get_parent_gene_probability child_has_gene (Some parent) 0) = inr (Some t0)
    /\ outcome (get_parent_gene_probability child_has_gene (Some parent) 1) = inr (Some t1)
    /\ outcome (get_parent_gene_probability child_has_gene (Some parent) 2) = inr (Some t2)
    /\ q == bucket PROBS_gene 0%nat * t0 + bucket PROBS_gene 1%nat * t1
            + bucket PROBS_gene 2%nat * t2
    /\ q == (if child_has_gene then 0.0345 else 0.9655).
Proof.
  destruct child_has_gene;
    (do 4 eexists; repeat (split; [reflexivity|]); split; by vm_compute).
Qed.

(** ** The joint probability of any family *)

Lemma joint_probability_body_any one_gene two_genes have_trait person family :
  exists l x,
    (forall joint_p,
        joint_probability_body one_gene two_genes have_trait joint_p (person, family)
        = (l, inr (joint_p * x)))
    /\ x == any_family_term one_gene two_genes have_trait (person, family).
Proof.
  destruct family as [n [m|] [f|] t];
    unfold joint_probability_body, any_family_term, parent_transmission;
    simpl p_mother; simpl p_father;
    case_gene_count;
    (do 2 eexists; split; [intros joint_p; reflexivity|by vm_compute]).
Qed.

Lemma joint_probability_loop_any one_gene two_genes have_trait people :
  forall joint_p, exists l q,
    for_each people (joint_probability_body one_gene two_genes have_trait) joint_p
    = (l, inr q)
    /\ q == joint_p * product (map (any_family_term one_gene two_genes have_trait) people).
Proof.
  induction people as [|[person family] people IH]; intros joint_p; simpl for_each.
  - exists [], joint_p. split; [done|]. simpl. ring.
  - destruct (joint_probability_body_any one_gene two_genes have_trait person family)
      as (l1 & x & E1 & Hx).
    destruct (IH (joint_p * x)) as (l2 & q & E2 & Hq).
    exists (l1 ++ l2), q. rewrite (bind_value _ _ _ _ (E1 joint_p)), E2.
    split; [done|]. rewrite Hq, Hx. simpl. ring.
Qed.

(** X21: for any dataset, also one with individuals of whom one parent only
    is recorded, [joint_probability] returns the product of one factor for
    each individual: the trait term times the prior for an individual
    without recorded parents, and otherwise times the child gene
    distribution in which a parent that is not recorded transmits the gene
    with the probability 0.0345 of a parent drawn from the prior. *)
Theorem joint_probability_any_family (people : dict string person)
    (one_gene two_genes have_trait : gset string) :
  (exists q,
      outcome (joint_probability people one_gene two_genes have_trait) = inr q
      /\ q == product (map (any_family_term one_gene two_genes have_trait) people))
  /\ unknown_transmission == 0.0345.
Proof.
  split; [|by vm_compute].
  destruct (joint_probability_loop_any one_gene two_genes have_trait people 1)
    as (l & q & E & Hq).
  exists q. unfold joint_probability. simpl. rewrite E. split; [done|].
  rewrite Hq. ring.
Qed.

(** ** The trait of founders without evidence *)

(** X22: in exact rational arithmetic, in a dataset of founders without
    trait evidence, [main] gives every founder the trait distribution 0.0329
    (trait), 0.9671 (no trait): the trait likelihood averaged over the gene
    prior. In binary64 the numbers returned are these up to the last digits
    ([binary64_lone_founder]). *)
Theorem founders_trait_distribution (people : dict string person) :
  NoDup (keys people) ->
  founders_without_evidence people ->
  exists probabilities,
    outcome (main people) = inr probabilities
    /\ forall person fs,
         (person, fs) ∈ probabilities ->
         exists qt qf,
           f_trait fs = [(true, qt); (false, qf)]
           /\ qt == founder_marginal (trait_bucket true)
           /\ qf == founder_marginal (trait_bucket false)
           /\ qt == 0.0329 /\ qf == 0.9671.
Proof.
  intros Hnd Hf.
  destruct (founders_enumerate people Hnd Hf) as (t & E & Hkeys & Hshape & Hmass).
  assert (Hhist : forall person fs, (person, fs) ∈ t ->
            exists q2 q1 q0 qt qf,
              f_gene fs = [(2%nat, q2); (1%nat, q1); (0%nat, q0)]
              /\ f_trait fs = [(true, qt); (false, qf)]
              /\ q2 == 0.01 /\ q1 == 0.03 /\ q0 == 0.96
              /\ qt == 0.0329 /\ qf == 0.9671).
  { intros person fs Hin. apply (founders_histograms t person fs); [by rewrite Hkeys|done| |done].
    intros b. apply Hmass. rewrite <- Hkeys. apply list_elem_of_fmap. by exists (person, fs). }
  destruct (normalize_value t) as (t' & En & Hn).
  { apply Forall_forall. intros [person fs] Hin.
    destruct (Hhist person fs Hin) as (q2 & q1 & q0 & qt & qf & Eg & Et & H2 & H1 & H0 & HT & HF).
    unfold nonzero_sum. simpl. rewrite Eg, Et. unfold sum. simpl.
    rewrite H2, H1, H0, HT, HF. split; by vm_compute. }
  exists t'. unfold main. rewrite (outcome_bind _ _ _ E), En. split; [done|].
  intros person fs' Hin'.
  apply list_elem_of_lookup in Hin' as (i & Hi').
  destruct (Forall2_lookup_r _ _ _ _ _ Hn Hi') as ([person0 fs] & Hi & Hfst & _ & (Hscaled & _)).
  simpl in Hfst, Hscaled. subst person0.
  destruct (Hhist person fs) as (q2 & q1 & q0 & qt & qf & Eg & Et & H2 & H1 & H0 & HT & HF).
  { apply list_elem_of_lookup. by exists i. }
  rewrite Hscaled, Et. unfold scaled, sum. simpl.
  do 2 eexists. split; [reflexivity|].
  destruct founder_marginal_values as (_ & _ & _ & MT & MF).
  rewrite MT, MF, HT, HF. repeat split; by vm_compute.
Qed.

Lemma founders_trait_distribution_witness :
  exists probabilities,
    outcome (main two_founders) = inr probabilities
    /\ forall person fs,
         (person, fs) ∈ probabilities ->
         exists qt qf,
           f_trait fs = [(true, qt); (false, qf)]
           /\ qt == founder_marginal (trait_bucket true)
           /\ qf == founder_marginal (trait_bucket false)
           /\ qt == 0.0329 /\ qf == 0.9671.
Proof.
  apply (founders_trait_distribution two_founders).
  - apply (bool_decide_unpack _). vm_compute. exact I.
  - repeat (apply Forall_cons_2; [repeat split|]). apply Forall_nil_2.
Defined.
